(** * BillingExtensions SDK: the status synchronization engine

    A shallow embedding of the client-side status synchronizer
    ([core/diff.ts], [core/errors.ts], [core/storage.ts], [core/autosync.ts]
    and [client/createClient.ts]) together with the properties its
    specification states about it.

    Layout:
    - the data model ([UserStatus], [StatusDiff], [AutoSyncState], ...);
    - the pure diff engine;
    - a small program monad [Prog] in which the asynchronous and stateful
      functions are written the way the TypeScript source writes them;
    - an executable semantics for [Prog]: one client instance inside one
      execution context, with its pending tasks, timers and listeners;
    - the theorems. *)

From Stdlib Require Import ZArith List String Ascii Bool Lia.
Import ListNotations.
Local Open Scope string_scope.
Local Open Scope list_scope.
Local Open Scope Z_scope.

(* ===================================================================== *)
(** * Data model ([client/types.ts]) *)
(* ===================================================================== *)

(** An optional property of a JSON object as JavaScript sees it: the
    property may be missing ([undefined]), explicitly [null], or carry a
    value.  The source distinguishes the three ([!== undefined && !== null],
    [!= null], [??]). *)
Inductive JsOpt (A : Type) : Type :=
| Undefined
| Null
| Val (a : A).
Arguments Undefined {A}.
Arguments Null {A}.
Arguments Val {A} a.

(** [x !== undefined && x !== null], which is also [x != null]. *)
Definition present {A} (x : JsOpt A) : bool :=
  match x with Val _ => true | _ => false end.

(** Strict inequality [!==] between two optional primitive values, given
    an equality test for the carried values. *)
Definition strict_neq {A} (eqb : A -> A -> bool) (x y : JsOpt A) : bool :=
  match x, y with
  | Undefined, Undefined => false
  | Null, Null => false
  | Val a, Val b => negb (eqb a b)
  | _, _ => true
  end.

Inductive PlanStatus : Type :=
| active | trialing | past_due | canceled | incomplete.

Definition PlanStatus_eqb (a b : PlanStatus) : bool :=
  match a, b with
  | active, active | trialing, trialing | past_due, past_due
  | canceled, canceled | incomplete, incomplete => true
  | _, _ => false
  end.

(** Numbers reach the client through [JSON.parse] and the structured clone
    of [chrome.storage]; they are finite, and [===] on them is equality.
    Counters and timestamps are modelled as integers. *)
Module Plan.
Record t : Type := mk {
  id : string;
  nickname : JsOpt string;
  status : PlanStatus;
  currentPeriodEnd : JsOpt string
}.
End Plan.
Definition UserPlan : Type := Plan.t.

Module Usage.
Record t : Type := mk {
  used : Z;
  limit : JsOpt Z;
  resetsAt : JsOpt string
}.
End Usage.
Definition UserUsage : Type := Usage.t.

Record UserStatus : Type := mkUserStatus {
  extensionUserId : string;
  paid : bool;
  plan : JsOpt UserPlan;
  usage : JsOpt UserUsage
}.

Record StatusDiff : Type := mkStatusDiff {
  entitlementChanged : bool;
  planChanged : bool;
  usageChanged : bool
}.

Record CachedStatus : Type := mkCachedStatus {
  status : UserStatus;
  fetchedAt : Z
}.

Record GetUserOptions : Type := mkGetUserOptions {
  forceRefresh : JsOpt bool
}.

(* ===================================================================== *)
(** * Status diff engine ([core/diff.ts]) *)
(* ===================================================================== *)

Definition computeEntitlementChanged (prev : option UserStatus) (next : UserStatus) : bool :=
  match prev with
  | None => true
  | Some prev => negb (Bool.eqb (paid prev) (paid next))
  end.

Definition computePlanChanged (prev : option UserStatus) (next : UserStatus) : bool :=
  match prev with
  | None => present (plan next)
  | Some prev =>
      match plan prev, plan next with
      | Val prevPlan, Val nextPlan =>
             negb (String.eqb (Plan.id prevPlan) (Plan.id nextPlan))
          || strict_neq String.eqb (Plan.nickname prevPlan) (Plan.nickname nextPlan)
          || negb (PlanStatus_eqb (Plan.status prevPlan) (Plan.status nextPlan))
          || strict_neq String.eqb (Plan.currentPeriodEnd prevPlan) (Plan.currentPeriodEnd nextPlan)
      | Val _, _ | _, Val _ => true
      | _, _ => false
      end
  end.

Definition computeUsageChanged (prev : option UserStatus) (next : UserStatus) : bool :=
  match prev with
  | None => present (usage next)
  | Some prev =>
      match usage prev, usage next with
      | Val prevUsage, Val nextUsage =>
             negb (Z.eqb (Usage.used prevUsage) (Usage.used nextUsage))
          || strict_neq Z.eqb (Usage.limit prevUsage) (Usage.limit nextUsage)
          || strict_neq String.eqb (Usage.resetsAt prevUsage) (Usage.resetsAt nextUsage)
      | Val _, _ | _, Val _ => true
      | _, _ => false
      end
  end.

Definition computeStatusDiff (prev : option UserStatus) (next : UserStatus) : StatusDiff :=
  {| entitlementChanged := computeEntitlementChanged prev next;
     planChanged := computePlanChanged prev next;
     usageChanged := computeUsageChanged prev next |}.

Definition hasAnyChange (diff : StatusDiff) : bool :=
  entitlementChanged diff || planChanged diff || usageChanged diff.

Definition areStatusesEqual (a b : option UserStatus) : bool :=
  match a, b with
  | None, None => true
  | None, _ | _, None => false
  | Some a, Some b => negb (hasAnyChange (computeStatusDiff (Some a) b))
  end.

(** What the specification calls "equal on all compared fields": the same
    [paid]; plans both absent, or both present with the same [id],
    [nickname], [status] and [currentPeriodEnd]; usages both absent, or both
    present with the same [used], [limit] and [resetsAt]. *)
Definition same_plan (p q : JsOpt UserPlan) : Prop :=
  match p, q with
  | Val a, Val b =>
      Plan.id a = Plan.id b /\ Plan.nickname a = Plan.nickname b /\
      Plan.status a = Plan.status b /\ Plan.currentPeriodEnd a = Plan.currentPeriodEnd b
  | Val _, _ | _, Val _ => False
  | _, _ => True
  end.

Definition same_usage (p q : JsOpt UserUsage) : Prop :=
  match p, q with
  | Val a, Val b =>
      Usage.used a = Usage.used b /\ Usage.limit a = Usage.limit b /\
      Usage.resetsAt a = Usage.resetsAt b
  | Val _, _ | _, Val _ => False
  | _, _ => True
  end.

Definition same_compared_fields (prev next : UserStatus) : Prop :=
  paid prev = paid next /\ same_plan (plan prev) (plan next) /\
  same_usage (usage prev) (usage next).

(* ===================================================================== *)
(** * Typed errors ([core/errors.ts]) *)
(* ===================================================================== *)

Inductive BillingExtensionsErrorType : Type :=
| ConfigError | RuntimeError | NetworkError | Unauthorized | ApiError.

(** Whatever a JavaScript [catch] can receive. *)
#[local] Unset Elimination Schemes.
Inductive Thrown : Type :=
| BillingExtensionsError (type : BillingExtensionsErrorType) (message : string)
    (http_status : option Z) (code : option string) (cause : option Thrown)
| JsError (name message : string)            (* any other [Error] instance *)
| JsString (s : string)                      (* [throw "text"] *)
| JsValue (rendered : option string) (truthy : bool).
    (* any other value; [rendered] is what [JSON.stringify]/[String] gives,
       [None] when that conversion itself throws *)
#[local] Set Elimination Schemes.

(** [opts?.cause ? { cause } : undefined] keeps a truthy cause only. *)
Definition truthy_thrown (e : Thrown) : bool :=
  match e with
  | JsString s => negb (String.eqb s "")
  | JsValue _ t => t
  | _ => true
  end.

Definition keep_cause (cause : option Thrown) : option Thrown :=
  match cause with
  | Some e => if truthy_thrown e then Some e else None
  | None => None
  end.

Definition createConfigError (message : string) : Thrown :=
  BillingExtensionsError ConfigError message None None None.

Definition createRuntimeError (message : string) (cause : option Thrown) : Thrown :=
  BillingExtensionsError RuntimeError message None None (keep_cause cause).

Definition createNetworkError (message : string) (cause : option Thrown) : Thrown :=
  BillingExtensionsError NetworkError message None None (keep_cause cause).

Definition createUnauthorizedError (message : string) (cause : option Thrown) : Thrown :=
  BillingExtensionsError Unauthorized message (Some 401) None (keep_cause cause).

Definition createApiError (http_status : Z) (message : string) (code : option string)
    (cause : option Thrown) : Thrown :=
  BillingExtensionsError ApiError message (Some http_status) code (keep_cause cause).

(** [String.prototype.toLowerCase] on the ASCII letters and
    [String.prototype.includes]. *)
Definition toLowerCase_ascii (c : ascii) : ascii :=
  let n := nat_of_ascii c in
  if (Nat.leb 65 n && Nat.leb n 90)%bool then ascii_of_nat (n + 32) else c.

Fixpoint toLowerCase (s : string) : string :=
  match s with
  | EmptyString => EmptyString
  | String c rest => String (toLowerCase_ascii c) (toLowerCase rest)
  end.

Definition includes (s sub : string) : bool :=
  match String.index 0 sub s with Some _ => true | None => false end.

Definition normalizeError (error : Thrown) : Thrown :=
  match error with
  | BillingExtensionsError _ _ _ _ _ => error
  | JsError name message =>
      if String.eqb name "AbortError" then
        createNetworkError "Request was aborted" (Some error)
      else if (String.eqb name "TypeError" &&
               (includes (toLowerCase message) "fetch" ||
                includes (toLowerCase message) "network"))%bool then
        createNetworkError message (Some error)
      else
        createRuntimeError
          (if String.eqb message "" then "An unknown error occurred" else message)
          (Some error)
  | JsString s => createRuntimeError s None
  | JsValue rendered _ =>
      createRuntimeError
        (match rendered with Some msg => msg | None => "An unknown error occurred" end)
        (Some error)
  end.

(* ===================================================================== *)
(** * The execution context and the client's variables *)
(* ===================================================================== *)

Definition TimerId : Type := nat.
Definition ListenerId : Type := nat.
Definition Promise : Type := nat.

(** A status-change handler is user code; the client only stores its
    identity in a [Set] and calls it. *)
Definition Handler : Type := nat.

(** Which parts of the [chrome] global exist in this execution context. *)
Record ChromeStorage : Type := mkChromeStorage {
  onChanged : bool;       (* chrome.storage.onChanged *)
  session : bool;         (* chrome.storage.session *)
  local : bool            (* chrome.storage.local *)
}.

Record ChromeRuntime : Type := mkChromeRuntime {
  onMessage : bool        (* chrome.runtime.onMessage *)
}.

Record ChromeAlarms : Type := mkChromeAlarms {
  create : bool;          (* chrome.alarms.create *)
  onAlarm : bool          (* chrome.alarms.onAlarm *)
}.

Record Chrome : Type := mkChrome {
  storage : option ChromeStorage;
  runtime : option ChromeRuntime;
  alarms : option ChromeAlarms
}.

Record Env : Type := mkEnv {
  chrome : option Chrome;                (* [None]: typeof chrome === "undefined" *)
  has_window : bool;                     (* typeof window !== "undefined" *)
  has_document : bool;                   (* typeof document !== "undefined" *)
  location_protocol : option string      (* [Some p]: location exists and its protocol is the string p *)
}.

(** ** AutoSync state ([client/types.ts]) *)

Record AutoSyncOptions : Type := mkAutoSyncOptions {
  refreshOnInit : bool;
  refreshOnFocus : bool;
  refreshOnOnline : bool;
  debounceMs : Z;
  minIntervalMs : Z
}.

(** [AutoSyncOptions] as the caller passes it: every property optional. *)
Record AutoSyncOptionsArg : Type := mkAutoSyncOptionsArg {
  arg_refreshOnInit : option bool;
  arg_refreshOnFocus : option bool;
  arg_refreshOnOnline : option bool;
  arg_debounceMs : option Z;
  arg_minIntervalMs : option Z
}.

(** The cleanup closure returned by [setupAutoSyncListeners], as data: the
    listeners it recorded and the timer of the state it captured. *)
Inductive Cleanup : Type :=
| NoopCleanup
| ListenersCleanup (listeners : list ListenerId) (captured_timer : option TimerId).

Record AutoSyncState : Type := mkAutoSyncState {
  enabled : bool;
  activated : bool;
  options : AutoSyncOptions;
  lastRefreshAt : Z;
  debounceTimer : option TimerId;
  pendingPostActionRefresh : bool;
  cleanup : option Cleanup
}.

(** [Partial<AutoSyncState>]: [None] means the property is not in the
    update object. *)
Record AutoSyncUpdates : Type := mkAutoSyncUpdates {
  upd_enabled : option bool;
  upd_activated : option bool;
  upd_options : option AutoSyncOptions;
  upd_lastRefreshAt : option Z;
  upd_debounceTimer : option (option TimerId);
  upd_pendingPostActionRefresh : option bool;
  upd_cleanup : option (option Cleanup)
}.

Definition no_updates : AutoSyncUpdates :=
  mkAutoSyncUpdates None None None None None None None.

Definition or_else {A} (o : option A) (d : A) : A :=
  match o with Some a => a | None => d end.

(** [{ ...state, ...updates }] *)
Definition spread_updates (state : AutoSyncState) (updates : AutoSyncUpdates) : AutoSyncState :=
  {| enabled := or_else (upd_enabled updates) (enabled state);
     activated := or_else (upd_activated updates) (activated state);
     options := or_else (upd_options updates) (options state);
     lastRefreshAt := or_else (upd_lastRefreshAt updates) (lastRefreshAt state);
     debounceTimer := or_else (upd_debounceTimer updates) (debounceTimer state);
     pendingPostActionRefresh :=
       or_else (upd_pendingPostActionRefresh updates) (pendingPostActionRefresh state);
     cleanup := or_else (upd_cleanup updates) (cleanup state) |}.

(** [{ ...base, ...options }] *)
Definition spread_options (base : AutoSyncOptions) (o : AutoSyncOptionsArg) : AutoSyncOptions :=
  {| refreshOnInit := or_else (arg_refreshOnInit o) (refreshOnInit base);
     refreshOnFocus := or_else (arg_refreshOnFocus o) (refreshOnFocus base);
     refreshOnOnline := or_else (arg_refreshOnOnline o) (refreshOnOnline base);
     debounceMs := or_else (arg_debounceMs o) (debounceMs base);
     minIntervalMs := or_else (arg_minIntervalMs o) (minIntervalMs base) |}.

(** ** The variables closed over by [createBillingExtensionsClient] *)

Record Client : Type := mkClient {
  currentStatus : option UserStatus;
  handlers : list Handler;              (* a [Set]: insertion order, no duplicates *)
  autoSyncState : AutoSyncState;
  storageListenerAttached : bool;
  refreshInFlight : option Promise;
  swrCheckInFlight : option Promise;
  backgroundTrackingEnabled : bool;
  alarmListenerAttached : bool;
  messageListenerAttached : bool
}.

Definition set_currentStatus (v : option UserStatus) (c : Client) : Client :=
  mkClient v (handlers c) (autoSyncState c) (storageListenerAttached c)
    (refreshInFlight c) (swrCheckInFlight c) (backgroundTrackingEnabled c)
    (alarmListenerAttached c) (messageListenerAttached c).

Definition set_handlers (v : list Handler) (c : Client) : Client :=
  mkClient (currentStatus c) v (autoSyncState c) (storageListenerAttached c)
    (refreshInFlight c) (swrCheckInFlight c) (backgroundTrackingEnabled c)
    (alarmListenerAttached c) (messageListenerAttached c).

Definition set_autoSyncState (v : AutoSyncState) (c : Client) : Client :=
  mkClient (currentStatus c) (handlers c) v (storageListenerAttached c)
    (refreshInFlight c) (swrCheckInFlight c) (backgroundTrackingEnabled c)
    (alarmListenerAttached c) (messageListenerAttached c).

Definition set_storageListenerAttached (v : bool) (c : Client) : Client :=
  mkClient (currentStatus c) (handlers c) (autoSyncState c) v
    (refreshInFlight c) (swrCheckInFlight c) (backgroundTrackingEnabled c)
    (alarmListenerAttached c) (messageListenerAttached c).

Definition set_refreshInFlight (v : option Promise) (c : Client) : Client :=
  mkClient (currentStatus c) (handlers c) (autoSyncState c) (storageListenerAttached c)
    v (swrCheckInFlight c) (backgroundTrackingEnabled c)
    (alarmListenerAttached c) (messageListenerAttached c).

Definition set_swrCheckInFlight (v : option Promise) (c : Client) : Client :=
  mkClient (currentStatus c) (handlers c) (autoSyncState c) (storageListenerAttached c)
    (refreshInFlight c) v (backgroundTrackingEnabled c)
    (alarmListenerAttached c) (messageListenerAttached c).

Definition set_backgroundTrackingEnabled (v : bool) (c : Client) : Client :=
  mkClient (currentStatus c) (handlers c) (autoSyncState c) (storageListenerAttached c)
    (refreshInFlight c) (swrCheckInFlight c) v
    (alarmListenerAttached c) (messageListenerAttached c).

Definition set_alarmListenerAttached (v : bool) (c : Client) : Client :=
  mkClient (currentStatus c) (handlers c) (autoSyncState c) (storageListenerAttached c)
    (refreshInFlight c) (swrCheckInFlight c) (backgroundTrackingEnabled c)
    v (messageListenerAttached c).

Definition set_messageListenerAttached (v : bool) (c : Client) : Client :=
  mkClient (currentStatus c) (handlers c) (autoSyncState c) (storageListenerAttached c)
    (refreshInFlight c) (swrCheckInFlight c) (backgroundTrackingEnabled c)
    (alarmListenerAttached c) v.

(** ** The persistent store ([chrome.storage]) *)

Inductive Area : Type := SessionArea | LocalArea.

(** The two keys the client uses, each with the type of what it stores. *)
Inductive Key : Type -> Type :=
| STATUS_CACHE_KEY : Key CachedStatus
| LAST_SWR_AT_KEY : Key Z.

Definition key_name {T} (k : Key T) : string :=
  match k with
  | STATUS_CACHE_KEY => "billingextensions_status_cache"
  | LAST_SWR_AT_KEY => "billingextensions_last_swr_at"
  end.

Record AreaContents : Type := mkAreaContents {
  status_cache : option CachedStatus;
  last_swr_at : option Z
}.

Definition area_get {T} (k : Key T) (a : AreaContents) : option T :=
  match k in Key T return option T with
  | STATUS_CACHE_KEY => status_cache a
  | LAST_SWR_AT_KEY => last_swr_at a
  end.

Definition area_set {T} (k : Key T) (v : T) (a : AreaContents) : AreaContents :=
  match k in Key T return T -> AreaContents with
  | STATUS_CACHE_KEY => fun v => mkAreaContents (Some v) (last_swr_at a)
  | LAST_SWR_AT_KEY => fun v => mkAreaContents (status_cache a) (Some v)
  end v.

(** What a [chrome.storage] callback sees: a value, or
    [chrome.runtime.lastError] set (its message may be missing). *)
Inductive StorageResult (T : Type) : Type :=
| StorageOk (v : T)
| StorageLastError (message : option string).
Arguments StorageOk {T} v.
Arguments StorageLastError {T} message.

(** One entry of the [changes] object of [chrome.storage.onChanged]. *)
Record StorageChange (T : Type) : Type := mkStorageChange {
  oldValue : option T;
  newValue : option T
}.
Arguments mkStorageChange {T}.
Arguments oldValue {T}.
Arguments newValue {T}.

Record Changes : Type := mkChanges {
  change_status_cache : option (StorageChange CachedStatus);
  change_last_swr_at : option (StorageChange Z)
}.

Definition changes_at {T} (k : Key T) (c : Changes) : option (StorageChange T) :=
  match k in Key T return option (StorageChange T) with
  | STATUS_CACHE_KEY => change_status_cache c
  | LAST_SWR_AT_KEY => change_last_swr_at c
  end.

Definition single_change {T} (k : Key T) (old : option T) (new : T) : Changes :=
  match k in Key T return option T -> T -> Changes with
  | STATUS_CACHE_KEY => fun old new => mkChanges (Some (mkStorageChange old (Some new))) None
  | LAST_SWR_AT_KEY => fun old new => mkChanges None (Some (mkStorageChange old (Some new)))
  end old new.

(** A runtime message ([msg?.type]) and an alarm ([alarm.name]). *)
Record Message : Type := mkMessage { msg_type : option string }.
Record Alarm : Type := mkAlarm { alarm_name : string }.

(* ===================================================================== *)
(** * The program monad *)
(* ===================================================================== *)

(** A registration of a callback with the platform: [setTimeout], the
    three [chrome] event sources and DOM [addEventListener]. *)
Inductive Target : Type := TDocument | TWindow.

Inductive CbKind : Type :=
| KTimeout (delay : Z)                      (* setTimeout(cb, delay) *)
| KStorageChanged                           (* chrome.storage.onChanged.addListener *)
| KMessage                                  (* chrome.runtime.onMessage.addListener *)
| KAlarm                                    (* chrome.alarms.onAlarm.addListener *)
| KDom (target : Target) (event : string).  (* target.addEventListener(event, cb) *)

Definition CbArg (k : CbKind) : Type :=
  match k with
  | KTimeout _ => unit
  | KStorageChanged => Changes
  | KMessage => Message
  | KAlarm => Alarm
  | KDom _ _ => unit
  end.

Definition CbRet (k : CbKind) : Type :=
  match k with
  | KMessage => bool
  | _ => unit
  end.

(** Synchronous primitives. *)
Inductive Op : Type -> Type :=
| GetClient : Op Client                         (* read the closure variables *)
| SetClient (f : Client -> Client) : Op unit    (* assign to one of them *)
| DateNow : Op Z                                (* Date.now() *)
| GetEnv : Op Env                               (* typeof chrome, window, location ... *)
| VisibilityState : Op string                   (* document.visibilityState *)
| CallHandler (h : Handler) (next : UserStatus) (prev : option UserStatus)
    (diff : StatusDiff) : Op (Thrown + unit)    (* handler(next, prev, diff); may throw *)
| ClearTimeout (t : TimerId) : Op unit
| AlarmsCreate (name : string) (periodInMinutes : Z) : Op (Thrown + unit)
| SendResponse (ok : bool) : Op unit            (* sendResponse?.({ ok }) *)
| ConsoleError (label : string) (payload : option Thrown) : Op unit.

(** Requests the platform answers later, through a callback or a promise. *)
Inductive IOReq : Type -> Type :=
| FetchStatus : IOReq (Thrown + UserStatus)
    (* http.get("api/v1/sdk/user"): the request layer is an external
       collaborator; it resolves with a status or rejects *)
| StorageGet {T} (a : Area) (k : Key T) : IOReq (StorageResult (option T))
| StorageSet {T} (a : Area) (k : Key T) (v : T) : IOReq (StorageResult unit).

(** Programs: a tree of primitives.  [Tick] is the suspension every [await]
    makes, [IO] a suspension that lasts until the platform answers,
    [Spawn] the call of an async function whose promise is not awaited on
    the spot, [Join] the await of such a promise. *)
Inductive Prog (A : Type) : Type :=
| Ret (a : A)
| Throw (e : Thrown)
| Act {X : Type} (op : Op X) (k : X -> Prog A)
| IO {X : Type} (req : IOReq X) (k : X -> Prog A)
| Tick (k : Prog A)
| Spawn (body : Prog unit) (k : Promise -> Prog A)
| Join (p : Promise) (k : Thrown + unit -> Prog A)
| Register (kind : CbKind) (cb : CbArg kind -> Prog (CbRet kind)) (k : nat -> Prog A).
Arguments Ret {A} a.
Arguments Throw {A} e.
Arguments Act {A X} op k.
Arguments IO {A X} req k.
Arguments Tick {A} k.
Arguments Spawn {A} body k.
Arguments Join {A} p k.
Arguments Register {A} kind cb k.

(** Continue a program at its leaves: [kr] where it returns, [ke] where it
    throws. *)
Fixpoint finish {A B} (p : Prog A) (kr : A -> Prog B) (ke : Thrown -> Prog B) : Prog B :=
  match p with
  | Ret a => kr a
  | Throw e => ke e
  | Act op k => Act op (fun x => finish (k x) kr ke)
  | IO req k => IO req (fun x => finish (k x) kr ke)
  | Tick k => Tick (finish k kr ke)
  | Spawn body k => Spawn body (fun x => finish (k x) kr ke)
  | Join p k => Join p (fun x => finish (k x) kr ke)
  | Register kind cb k => Register kind cb (fun x => finish (k x) kr ke)
  end.

Definition bind {A B} (p : Prog A) (k : A -> Prog B) : Prog B :=
  finish p k Throw.

(** [try { p } catch (e) { h e }] *)
Definition try_catch {A} (p : Prog A) (h : Thrown -> Prog A) : Prog A :=
  finish p Ret h.

(** [try { p } finally { f }] *)
Definition try_finally {A} (p : Prog A) (f : Prog unit) : Prog A :=
  finish p (fun a => bind f (fun _ => Ret a)) (fun e => bind f (fun _ => Throw e)).

(** [await p]: the awaited call runs as far as it can, and the caller is
    resumed, with its value or its rejection, in a later turn. *)
Definition await {A} (p : Prog A) : Prog A :=
  finish p (fun a => Tick (Ret a)) (fun e => Tick (Throw e)).

Declare Scope prog_scope.
Delimit Scope prog_scope with prog.
Notation "x <- p ;; k" := (bind p (fun x => k))
  (at level 61, p at next level, right associativity) : prog_scope.
Notation "p ;; k" := (bind p (fun _ => k))
  (at level 61, right associativity) : prog_scope.
Local Open Scope prog_scope.

Definition act {X} (op : Op X) : Prog X := Act op Ret.
Definition io {X} (req : IOReq X) : Prog X := IO req Ret.
Definition register (kind : CbKind) (cb : CbArg kind -> Prog (CbRet kind)) : Prog nat :=
  Register kind cb Ret.
Definition spawn (body : Prog unit) : Prog Promise := Spawn body Ret.

(** A primitive that reports failure as a value, turned into a throw. *)
Definition rethrow {A} (r : Thrown + A) : Prog A :=
  match r with inl e => Throw e | inr a => Ret a end.

(** [await promise], for a promise of [void]. *)
Definition await_promise (p : Promise) : Prog unit :=
  Join p rethrow.

(** [for (const x of xs) body(x)] *)
Fixpoint for_each {A} (xs : list A) (body : A -> Prog unit) : Prog unit :=
  match xs with
  | [] => Ret tt
  | x :: rest => body x ;; for_each rest body
  end.

(* ===================================================================== *)
(** * Persistent store adapter ([core/storage.ts]) *)
(* ===================================================================== *)

Definition chrome_storage (env : Env) : option ChromeStorage :=
  match chrome env with
  | Some c => storage c
  | None => None
  end.

(** [typeof chrome !== "undefined" && chrome.storage !== undefined &&
    chrome.storage.local !== undefined] *)
Definition isChromeStorageAvailable : Prog bool :=
  env <- act GetEnv ;;
  Ret (match chrome_storage env with Some s => local s | None => false end).

Definition isSessionStorageAvailable : Prog bool :=
  env <- act GetEnv ;;
  Ret (match chrome_storage env with Some s => session s | None => false end).

Definition getFromLocalStorage {T} (key : Key T) : Prog (option T) :=
  available <- isChromeStorageAvailable ;;
  if negb available then
    Throw (createRuntimeError "chrome.storage.local is not available" None)
  else
    result <- io (StorageGet LocalArea key) ;;
    match result with
    | StorageLastError message =>
        Throw (createRuntimeError (or_else message "Storage read failed") None)
    | StorageOk v => Ret v
    end.

Definition setInLocalStorage {T} (key : Key T) (value : T) : Prog unit :=
  available <- isChromeStorageAvailable ;;
  if negb available then
    Throw (createRuntimeError "chrome.storage.local is not available" None)
  else
    result <- io (StorageSet LocalArea key value) ;;
    match result with
    | StorageLastError message =>
        Throw (createRuntimeError (or_else message "Storage write failed") None)
    | StorageOk _ => Ret tt
    end.

(** Session tier first; on any failure fall back to the local tier; when
    that fails too the result is [undefined].  The result of the inner
    [try] is [Some r] where the source returns [r] from inside it. *)
Definition getFromBestStorage {T} (key : Key T) : Prog (option T) :=
  sessionAvailable <- isSessionStorageAvailable ;;
  returned <-
    (if sessionAvailable then
       try_catch
         (result <- await
            (r <- io (StorageGet SessionArea key) ;;
             match r with
             | StorageLastError message =>
                 Throw (JsError "Error" (or_else message "Storage read failed"))
             | StorageOk v => Ret v
             end) ;;
          Ret (Some result))
         (fun _ => Ret None)
     else Ret None) ;;
  match returned with
  | Some result => Ret result
  | None =>
      localAvailable <- isChromeStorageAvailable ;;
      if localAvailable then
        try_catch (await (getFromLocalStorage key)) (fun _ => Ret None)
      else Ret None
  end.

Definition setInBestStorage {T} (key : Key T) (value : T) : Prog unit :=
  sessionAvailable <- isSessionStorageAvailable ;;
  returned <-
    (if sessionAvailable then
       try_catch
         (await
            (r <- io (StorageSet SessionArea key value) ;;
             match r with
             | StorageLastError message =>
                 Throw (JsError "Error" (or_else message "Storage write failed"))
             | StorageOk _ => Ret tt
             end) ;;
          Ret true)
         (fun _ => Ret false)
     else Ret false) ;;
  if returned : bool then Ret tt
  else
    localAvailable <- isChromeStorageAvailable ;;
    if localAvailable then
      try_catch (await (setInLocalStorage key value)) (fun _ => Ret tt)
    else Ret tt.

(* ===================================================================== *)
(** * AutoSync ([core/autosync.ts]) *)
(* ===================================================================== *)

Definition DEFAULT_AUTOSYNC_OPTIONS : AutoSyncOptions :=
  {| refreshOnInit := true;
     refreshOnFocus := true;
     refreshOnOnline := true;
     debounceMs := 300;
     minIntervalMs := 3000 |}.

Definition ALLOWED_PROTOCOLS : list string :=
  ["chrome-extension:"; "moz-extension:"; "safari-extension:"].

Definition set_has (xs : list string) (x : string) : bool :=
  existsb (String.eqb x) xs.

Definition isExtensionUiContext : Prog bool :=
  env <- act GetEnv ;;
  if (negb (has_window env) || negb (has_document env))%bool then Ret false
  else
    match location_protocol env with
    | None => Ret false
    | Some protocol => Ret (set_has ALLOWED_PROTOCOLS protocol)
    end.

Definition no_options : AutoSyncOptionsArg :=
  mkAutoSyncOptionsArg None None None None None.

Definition createAutoSyncState (opts : AutoSyncOptionsArg) : AutoSyncState :=
  {| enabled := true;
     activated := false;
     options := spread_options DEFAULT_AUTOSYNC_OPTIONS opts;
     lastRefreshAt := 0;
     debounceTimer := None;
     pendingPostActionRefresh := false;
     cleanup := None |}.

Definition mergeAutoSyncOptions (state : AutoSyncState) (opts : AutoSyncOptionsArg)
    : AutoSyncState :=
  spread_updates state
    {| upd_enabled := None; upd_activated := None;
       upd_options := Some (spread_options (options state) opts);
       upd_lastRefreshAt := None; upd_debounceTimer := None;
       upd_pendingPostActionRefresh := None; upd_cleanup := None |}.

Definition canRefresh (state : AutoSyncState) : Prog bool :=
  now <- act DateNow ;;
  Ret (now - lastRefreshAt state >=? minIntervalMs (options state)).

(** A refresh function of type [() => Promise<void>]: calling it yields the
    promise to await. *)
Definition RefreshFn : Type := Prog Promise.
Definition UpdateStateFn : Type := AutoSyncUpdates -> Prog unit.

Definition executeRefresh (doRefresh : RefreshFn) (updateState : UpdateStateFn) : Prog unit :=
  now <- act DateNow ;;
  updateState
    {| upd_enabled := None; upd_activated := None; upd_options := None;
       upd_lastRefreshAt := Some now; upd_debounceTimer := Some None;
       upd_pendingPostActionRefresh := None; upd_cleanup := None |} ;;
  try_catch
    (p <- doRefresh ;; await_promise p)
    (fun _ => Ret tt).

Definition update_debounceTimer (timer : TimerId) : AutoSyncUpdates :=
  {| upd_enabled := None; upd_activated := None; upd_options := None;
     upd_lastRefreshAt := None; upd_debounceTimer := Some (Some timer);
     upd_pendingPostActionRefresh := None; upd_cleanup := None |}.

(** The timer callback [() => { void executeRefresh(doRefresh, updateState) }]. *)
Definition refresh_timer_callback (doRefresh : RefreshFn) (updateState : UpdateStateFn)
    : unit -> Prog unit :=
  fun _ => spawn (executeRefresh doRefresh updateState) ;; Ret tt.

Definition scheduleRefresh (state : AutoSyncState) (doRefresh : RefreshFn)
    (updateState : UpdateStateFn) : Prog unit :=
  match debounceTimer state with
  | Some t => act (ClearTimeout t)
  | None => Ret tt
  end ;;
  allowed <- canRefresh state ;;
  if negb allowed then
    now <- act DateNow ;;
    let waitTime := minIntervalMs (options state) - (now - lastRefreshAt state) in
    timer <- register (KTimeout waitTime) (refresh_timer_callback doRefresh updateState) ;;
    updateState (update_debounceTimer timer)
  else
    timer <- register (KTimeout (debounceMs (options state)))
               (refresh_timer_callback doRefresh updateState) ;;
    updateState (update_debounceTimer timer).

Definition setupAutoSyncListeners (state : AutoSyncState) (doRefresh : RefreshFn)
    (updateState : UpdateStateFn) : Prog Cleanup :=
  ui <- isExtensionUiContext ;;
  if negb ui then Ret NoopCleanup
  else
    focusListeners <-
      (if refreshOnFocus (options state) then
         let handleVisibility : unit -> Prog unit := fun _ =>
           visibility <- act VisibilityState ;;
           if String.eqb visibility "visible"
           then scheduleRefresh state doRefresh updateState
           else Ret tt in
         let handleFocus : unit -> Prog unit := fun _ =>
           scheduleRefresh state doRefresh updateState in
         l1 <- register (KDom TDocument "visibilitychange") handleVisibility ;;
         l2 <- register (KDom TWindow "focus") handleFocus ;;
         Ret [l1; l2]
       else Ret []) ;;
    onlineListeners <-
      (if refreshOnOnline (options state) then
         let handleOnline : unit -> Prog unit := fun _ =>
           scheduleRefresh state doRefresh updateState in
         l3 <- register (KDom TWindow "online") handleOnline ;;
         Ret [l3]
       else Ret []) ;;
    Ret (ListenersCleanup (focusListeners ++ onlineListeners) (debounceTimer state)).

Definition activateAutoSync (state : AutoSyncState) (doRefresh : RefreshFn)
    (updateState : UpdateStateFn) : Prog unit :=
  if negb (enabled state) then Ret tt
  else if activated state then Ret tt
  else
    ui <- isExtensionUiContext ;;
    if negb ui then Ret tt
    else
      cleanup <- setupAutoSyncListeners state doRefresh updateState ;;
      updateState
        {| upd_enabled := None; upd_activated := Some true; upd_options := None;
           upd_lastRefreshAt := None; upd_debounceTimer := None;
           upd_pendingPostActionRefresh := None; upd_cleanup := Some (Some cleanup) |} ;;
      if refreshOnInit (options state)
      then scheduleRefresh state doRefresh updateState
      else Ret tt.

(* ===================================================================== *)
(** * The client ([client/createClient.ts]) *)
(* ===================================================================== *)

Definition DEFAULT_CACHE_TTL_MS : Z := 30000.
Definition CHECKOUT_RETURN_MESSAGE : string := "BILLINGEXTENSIONS_CHECKOUT_RETURNED".
Definition DEFAULT_BG_ALARM_NAME : string := "billingextensions_status_tracking".
Definition DEFAULT_BG_POLL_MINUTES : Z := 1.
Definition SWR_COOLDOWN_MS : Z := 5000.

(** The state of a client right after its [let] declarations. *)
Definition initialClient : Client :=
  {| currentStatus := None;
     handlers := [];
     autoSyncState := createAutoSyncState no_options;
     storageListenerAttached := false;
     refreshInFlight := None;
     swrCheckInFlight := None;
     backgroundTrackingEnabled := false;
     alarmListenerAttached := false;
     messageListenerAttached := false |}.

Definition updateAutoSyncState : UpdateStateFn := fun updates =>
  act (SetClient (fun c => set_autoSyncState (spread_updates (autoSyncState c) updates) c)).

(** [Set.prototype.add] and [Set.prototype.delete] on handler identities. *)
Definition set_add (h : Handler) (hs : list Handler) : list Handler :=
  if existsb (Nat.eqb h) hs then hs else hs ++ [h].

Definition set_delete (h : Handler) (hs : list Handler) : list Handler :=
  filter (fun h' => negb (Nat.eqb h h')) hs.

Definition call_handler (h : Handler) (next : UserStatus) (prev : option UserStatus)
    (diff : StatusDiff) : Prog unit :=
  r <- act (CallHandler h next prev diff) ;; rethrow r.

Definition is_null {A} (o : option A) : bool :=
  match o with None => true | Some _ => false end.

Definition notifyHandlers (next : UserStatus) (prev : option UserStatus) : Prog unit :=
  let diff := computeStatusDiff prev next in
  if (negb (is_null prev) && negb (hasAnyChange diff))%bool then Ret tt
  else
    c <- act GetClient ;;
    for_each (handlers c) (fun handler =>
      try_catch (call_handler handler next prev diff) (fun _ => Ret tt)).

(** The listener given to [chrome.storage.onChanged.addListener]. *)
Definition storageStatusListener (changes : Changes) : Prog unit :=
  match changes_at STATUS_CACHE_KEY changes with
  | None => Ret tt
  | Some change =>
      match newValue change with
      | None => Ret tt
      | Some cached =>
          let prev := option_map status (oldValue change) in
          let next := status cached in
          act (SetClient (set_currentStatus (Some next))) ;;
          notifyHandlers next prev
      end
  end.

Definition attachStorageStatusListener : Prog unit :=
  c <- act GetClient ;;
  if storageListenerAttached c then Ret tt
  else
    env <- act GetEnv ;;
    if negb (match chrome_storage env with Some s => onChanged s | None => false end)
    then Ret tt
    else
      act (SetClient (set_storageListenerAttached true)) ;;
      register KStorageChanged storageStatusListener ;;
      Ret tt.

Definition loadCachedStatus : Prog (option UserStatus) :=
  try_catch
    (cached <- await (getFromBestStorage STATUS_CACHE_KEY) ;;
     match cached with
     | None => Ret None
     | Some cached =>
         now <- act DateNow ;;
         let age := now - fetchedAt cached in
         if age >? DEFAULT_CACHE_TTL_MS then Ret None
         else Ret (Some (status cached))
     end)
    (fun _ => Ret None).

Definition saveCachedStatus (st : UserStatus) : Prog unit :=
  try_catch
    (now <- act DateNow ;;
     let cached := {| status := st; fetchedAt := now |} in
     await (setInBestStorage STATUS_CACHE_KEY cached))
    (fun _ => Ret tt).

Definition fetchStatus : Prog UserStatus :=
  response <- await (r <- io FetchStatus ;; rethrow r) ;;
  Ret response.

Definition doRefresh : Prog UserStatus :=
  next <- await fetchStatus ;;
  act (SetClient (set_currentStatus (Some next))) ;;
  await (saveCachedStatus next) ;;
  Ret next.

(** The async function whose promise [autoSyncRefresh] keeps in
    [refreshInFlight]. *)
Definition autoSyncRefresh_job : Prog unit :=
  try_finally
    (try_catch (await doRefresh ;; Ret tt) (fun _ => Ret tt))
    (act (SetClient (set_refreshInFlight None))).

(** [autoSyncRefresh] has no [await] of its own: called, it runs to its
    [return], and the promise it hands out settles with [refreshInFlight]. *)
Definition autoSyncRefresh : RefreshFn :=
  c <- act GetClient ;;
  match refreshInFlight c with
  | Some inFlight => Ret inFlight
  | None =>
      p <- spawn autoSyncRefresh_job ;;
      act (SetClient (set_refreshInFlight (Some p))) ;;
      Ret p
  end.

Definition schedulePaidSWRRevalidate_job : Prog unit :=
  try_finally
    (try_catch
       (stored <- await (getFromBestStorage LAST_SWR_AT_KEY) ;;
        let last := or_else stored 0 in
        now <- act DateNow ;;
        if (now - last <? SWR_COOLDOWN_MS)%Z then Ret tt
        else
          await (setInBestStorage LAST_SWR_AT_KEY now) ;;
          p <- autoSyncRefresh ;;
          await_promise p)
       (fun _ => Ret tt))
    (act (SetClient (set_swrCheckInFlight None))).

Definition schedulePaidSWRRevalidate : Prog unit :=
  c <- act GetClient ;;
  match swrCheckInFlight c with
  | Some _ => Ret tt
  | None =>
      p <- spawn schedulePaidSWRRevalidate_job ;;
      act (SetClient (set_swrCheckInFlight (Some p)))
  end.

Record BackgroundTrackingOptions : Type := mkBackgroundTrackingOptions {
  periodInMinutes : JsOpt Z
}.

Definition checkoutReturnListener (msg : Message) : Prog bool :=
  match msg_type msg with
  | Some type =>
      if String.eqb type CHECKOUT_RETURN_MESSAGE then
        autoSyncRefresh ;;
        act (SendResponse true) ;;
        Ret true
      else Ret false
  | None => Ret false
  end.

Definition trackingAlarmListener (alarm : Alarm) : Prog unit :=
  if String.eqb (alarm_name alarm) DEFAULT_BG_ALARM_NAME
  then autoSyncRefresh ;; Ret tt
  else Ret tt.

Definition enableBackgroundStatusTracking (opts : option BackgroundTrackingOptions)
    : Prog unit :=
  c <- act GetClient ;;
  if backgroundTrackingEnabled c then Ret tt
  else
    act (SetClient (set_backgroundTrackingEnabled true)) ;;
    let period :=
      match opts with
      | Some o => match periodInMinutes o with Val m => m | _ => DEFAULT_BG_POLL_MINUTES end
      | None => DEFAULT_BG_POLL_MINUTES
      end in
    env <- act GetEnv ;;
    c <- act GetClient ;;
    (if (match chrome env with
         | Some ch => match runtime ch with Some r => onMessage r | None => false end
         | None => false
         end && negb (messageListenerAttached c))%bool
     then
       act (SetClient (set_messageListenerAttached true)) ;;
       register KMessage checkoutReturnListener ;;
       Ret tt
     else Ret tt) ;;
    (if match chrome env with
        | Some ch => match alarms ch with Some a => (create a && onAlarm a)%bool | None => false end
        | None => false
        end
     then
       try_catch
         (r <- act (AlarmsCreate DEFAULT_BG_ALARM_NAME period) ;; rethrow r)
         (fun _ => Ret tt) ;;
       c <- act GetClient ;;
       if negb (alarmListenerAttached c) then
         act (SetClient (set_alarmListenerAttached true)) ;;
         register KAlarm trackingAlarmListener ;;
         Ret tt
       else Ret tt
     else Ret tt) ;;
    autoSyncRefresh ;;
    Ret tt.

(** [opts?.forceRefresh === true] *)
Definition forceRefresh_is_true (opts : option GetUserOptions) : bool :=
  match opts with
  | Some o => match forceRefresh o with Val true => true | _ => false end
  | None => false
  end.

Definition getUser (opts : option GetUserOptions) : Prog UserStatus :=
  try_catch
    (let force := forceRefresh_is_true opts in
     c <- act GetClient ;;
     match negb force, currentStatus c with
     | true, Some current => Ret current
     | _, _ =>
         returned <-
           (if negb force then
              cached <- await loadCachedStatus ;;
              match cached with
              | Some cached =>
                  act (SetClient (set_currentStatus (Some cached))) ;;
                  (if paid cached then schedulePaidSWRRevalidate else Ret tt) ;;
                  Ret (Some cached)
              | None => Ret None
              end
            else Ret None) ;;
         match returned with
         | Some cached => Ret cached
         | None => await doRefresh
         end
     end)
    (fun error =>
       act (ConsoleError "[BillingExtensionsSDK] getUser failed" None) ;;
       act (ConsoleError "type:" (Some error)) ;;
       act (ConsoleError "message:" (Some error)) ;;
       act (ConsoleError "full error object:" (Some error)) ;;
       Throw (normalizeError error)).

Definition refresh : Prog UserStatus :=
  try_catch (await doRefresh) (fun error => Throw (normalizeError error)).

(** [onStatusChanged(handler)]; the unsubscribe function it returns is
    [unsubscribe handler]. *)
Definition onStatusChanged (handler : Handler) : Prog unit :=
  act (SetClient (fun c => set_handlers (set_add handler (handlers c)) c)) ;;
  c <- act GetClient ;;
  match currentStatus c with
  | Some current =>
      try_catch
        (call_handler handler current None
           {| entitlementChanged := true;
              planChanged := present (plan current);
              usageChanged := false |})
        (fun _ => Ret tt)
  | None => Ret tt
  end.

Definition unsubscribe (handler : Handler) : Prog unit :=
  act (SetClient (fun c => set_handlers (set_delete handler (handlers c)) c)).

(* ===================================================================== *)
(** * Semantics: one client in one execution context *)
(* ===================================================================== *)

(** What the client does to the outside, in order. *)
Inductive Event : Type :=
| EvFetch                                          (* a status request left for the billing API *)
| EvStorageGet (a : Area) (key : string)           (* a storage read was issued *)
| EvStorageSet (a : Area) (key : string)           (* a storage write was issued *)
| EvStored (a : Area) (key : string)               (* a storage write completed *)
| EvHandler (h : Handler) (next : UserStatus) (prev : option UserStatus) (diff : StatusDiff)
| EvAlarmCreate (name : string) (periodInMinutes : Z)
| EvSendResponse (ok : bool)
| EvConsole (label : string) (payload : option Thrown).

(** Everything outside the client: the platform as this execution context
    sees it at one moment.  The outcomes are what the platform would answer
    now; they may change between two steps of the client. *)
Record Platform : Type := mkPlatform {
  env : Env;
  clock : Z;                                     (* Date.now() *)
  visibilityState : string;                      (* document.visibilityState *)
  session_area : AreaContents;
  local_area : AreaContents;
  session_lastError : option (option string);    (* [Some m]: session callbacks see lastError *)
  local_lastError : option (option string);
  fetch_outcome : Thrown + UserStatus;           (* what the billing API answers *)
  handler_outcome : Handler -> Thrown + unit;    (* whether a handler throws *)
  alarms_create_outcome : Thrown + unit          (* whether chrome.alarms.create throws *)
}.

Inductive PromiseState : Type :=
| Pending
| Fulfilled
| Rejected (e : Thrown).

(** A suspended program. *)
Inductive Blocked (A : Type) : Type :=
| BIO {X : Type} (req : IOReq X) (k : X -> Prog A)
| BTick (k : Prog A)
| BJoin (p : Promise) (k : Thrown + unit -> Prog A).
Arguments BIO {A X} req k.
Arguments BTick {A} k.
Arguments BJoin {A} p k.

Inductive Outcome (A : Type) : Type :=
| Done (a : A)
| Failed (e : Thrown)
| Suspended (b : Blocked A).
Arguments Done {A} a.
Arguments Failed {A} e.
Arguments Suspended {A} b.

(** A pending async call and the promise it will settle. *)
Record Task : Type := mkTask {
  owner : Promise;
  blocked : Blocked unit
}.

(** A callback held by the platform. *)
Record Registered : Type := mkRegistered {
  reg_id : nat;
  reg_at : Z;                                    (* the clock when it was registered *)
  reg_kind : CbKind;
  reg_cb : CbArg reg_kind -> Prog (CbRet reg_kind)
}.

Record Sys : Type := mkSys {
  client : Client;
  platform : Platform;
  trace : list Event;
  promises : list PromiseState;                  (* promise [p] is entry [p] *)
  pool : list Task;
  registered : list Registered;
  next_id : nat;
  outbox : list Changes                          (* change events the store still has to deliver *)
}.

Definition with_client (f : Client -> Client) (s : Sys) : Sys :=
  mkSys (f (client s)) (platform s) (trace s) (promises s) (pool s) (registered s)
    (next_id s) (outbox s).

Definition with_platform (f : Platform -> Platform) (s : Sys) : Sys :=
  mkSys (client s) (f (platform s)) (trace s) (promises s) (pool s) (registered s)
    (next_id s) (outbox s).

Definition log (e : Event) (s : Sys) : Sys :=
  mkSys (client s) (platform s) (trace s ++ [e]) (promises s) (pool s) (registered s)
    (next_id s) (outbox s).

Definition with_promises (ps : list PromiseState) (s : Sys) : Sys :=
  mkSys (client s) (platform s) (trace s) ps (pool s) (registered s)
    (next_id s) (outbox s).

Definition with_pool (ts : list Task) (s : Sys) : Sys :=
  mkSys (client s) (platform s) (trace s) (promises s) ts (registered s)
    (next_id s) (outbox s).

Definition with_registered (rs : list Registered) (s : Sys) : Sys :=
  mkSys (client s) (platform s) (trace s) (promises s) (pool s) rs
    (next_id s) (outbox s).

Definition add_registered (kind : CbKind) (cb : CbArg kind -> Prog (CbRet kind)) (s : Sys)
    : Sys :=
  mkSys (client s) (platform s) (trace s) (promises s) (pool s)
    (registered s ++ [mkRegistered (next_id s) (clock (platform s)) kind cb])
    (S (next_id s)) (outbox s).

Definition post_change (c : Changes) (s : Sys) : Sys :=
  mkSys (client s) (platform s) (trace s) (promises s) (pool s) (registered s)
    (next_id s) (outbox s ++ [c]).

Definition is_timer (t : TimerId) (r : Registered) : bool :=
  match reg_kind r with
  | KTimeout _ => Nat.eqb (reg_id r) t
  | _ => false
  end.

Definition perform {X} (op : Op X) (s : Sys) : X * Sys :=
  match op in Op X return X * Sys with
  | GetClient => (client s, s)
  | SetClient f => (tt, with_client f s)
  | DateNow => (clock (platform s), s)
  | GetEnv => (env (platform s), s)
  | VisibilityState => (visibilityState (platform s), s)
  | CallHandler h next prev diff =>
      (handler_outcome (platform s) h, log (EvHandler h next prev diff) s)
  | ClearTimeout t =>
      (tt, with_registered (filter (fun r => negb (is_timer t r)) (registered s)) s)
  | AlarmsCreate name period =>
      (alarms_create_outcome (platform s), log (EvAlarmCreate name period) s)
  | SendResponse ok => (tt, log (EvSendResponse ok) s)
  | ConsoleError label payload => (tt, log (EvConsole label payload) s)
  end.

(** Sending a request is itself visible. *)
Definition issue {X} (req : IOReq X) (s : Sys) : Sys :=
  match req with
  | FetchStatus => log EvFetch s
  | StorageGet a k => log (EvStorageGet a (key_name k)) s
  | StorageSet a k _ => log (EvStorageSet a (key_name k)) s
  end.

Definition area (a : Area) (p : Platform) : AreaContents :=
  match a with SessionArea => session_area p | LocalArea => local_area p end.

Definition area_lastError (a : Area) (p : Platform) : option (option string) :=
  match a with SessionArea => session_lastError p | LocalArea => local_lastError p end.

Definition set_area (a : Area) (c : AreaContents) (p : Platform) : Platform :=
  match a with
  | SessionArea =>
      mkPlatform (env p) (clock p) (visibilityState p) c (local_area p)
        (session_lastError p) (local_lastError p) (fetch_outcome p) (handler_outcome p)
        (alarms_create_outcome p)
  | LocalArea =>
      mkPlatform (env p) (clock p) (visibilityState p) (session_area p) c
        (session_lastError p) (local_lastError p) (fetch_outcome p) (handler_outcome p)
        (alarms_create_outcome p)
  end.

(** The platform answers a request from its present state.  A completed
    write replaces the stored value and owes every context a change event
    carrying the old and the new value.  A storage call always answers
    through its callback, and while an area's [lastError] is set every call
    on that area, read or write, reports it; an area that fails reads and
    writes differently is a platform that changes between the two calls. *)
Definition respond {X} (req : IOReq X) (s : Sys) : X * Sys :=
  match req in IOReq X return X * Sys with
  | FetchStatus => (fetch_outcome (platform s), s)
  | StorageGet a k =>
      match area_lastError a (platform s) with
      | Some message => (StorageLastError message, s)
      | None => (StorageOk (area_get k (area a (platform s))), s)
      end
  | StorageSet a k v =>
      match area_lastError a (platform s) with
      | Some message => (StorageLastError message, s)
      | None =>
          let old := area_get k (area a (platform s)) in
          (StorageOk tt,
           post_change (single_change k old v)
             (log (EvStored a (key_name k))
                (with_platform (set_area a (area_set k v (area a (platform s)))) s)))
      end
  end.

(** Promise [q] of [ps] settled with [st]. *)
Definition settled_at (q : Promise) (st : PromiseState) (ps : list PromiseState)
    : list PromiseState :=
  firstn q ps ++ st :: skipn (S q) ps.

Definition settle (p : Promise) (st : PromiseState) (s : Sys) : Sys :=
  with_promises (settled_at p st (promises s)) s.

Definition promise_state (p : Promise) (s : Sys) : PromiseState :=
  nth p (promises s) Pending.

Definition park (p : Promise) (b : Blocked unit) (s : Sys) : Sys :=
  with_pool (pool s ++ [mkTask p b]) s.

(** What becomes of an async call once it stops running. *)
Definition complete (p : Promise) (o : Outcome unit * Sys) : Sys :=
  match o with
  | (Done _, s) => settle p Fulfilled s
  | (Failed e, s) => settle p (Rejected e) s
  | (Suspended b, s) => park p b s
  end.

(** Run a program until it returns, throws or suspends. *)
Fixpoint seg {A} (p : Prog A) (s : Sys) {struct p} : Outcome A * Sys :=
  match p with
  | Ret a => (Done a, s)
  | Throw e => (Failed e, s)
  | Act op k => let (x, s') := perform op s in seg (k x) s'
  | IO req k => (Suspended (BIO req k), issue req s)
  | Tick k => (Suspended (BTick k), s)
  | Join p k => (Suspended (BJoin p k), s)
  | Spawn body k =>
      let p := List.length (promises s) in
      let s1 := with_promises (promises s ++ [Pending]) s in
      seg (k p) (complete p (seg body s1))
  | Register kind cb k =>
      seg (k (next_id s)) (add_registered kind cb s)
  end.

(** Resume a suspended program in the state [s]; a [Join] on a promise that
    is still pending cannot be resumed. *)
Definition resume_blocked {A} (b : Blocked A) (s : Sys) : option (Outcome A * Sys) :=
  match b with
  | BIO req k => let (x, s') := respond req s in Some (seg (k x) s')
  | BTick k => Some (seg k s)
  | BJoin p k =>
      match promise_state p s with
      | Pending => None
      | Fulfilled => Some (seg (k (inr tt)) s)
      | Rejected e => Some (seg (k (inl e)) s)
      end
  end.

(** A call from outside the client whose promise nobody awaits
    ([void f()]): a platform callback, an application call. *)
Definition start (body : Prog unit) (s : Sys) : Sys :=
  snd (seg (spawn body) s).

Definition discard {A} (p : Prog A) : Prog unit :=
  p ;; Ret tt.

Fixpoint remove_nth {A} (n : nat) (xs : list A) : list A :=
  match n, xs with
  | _, [] => []
  | O, _ :: rest => rest
  | S n', x :: rest => x :: remove_nth n' rest
  end.

(** Platform events delivered to every matching callback, in registration
    order. *)
Fixpoint dispatch (kind_matches : CbKind -> bool)
    (call : forall r : Registered, option (Prog unit)) (rs : list Registered) (s : Sys) : Sys :=
  match rs with
  | [] => s
  | r :: rest =>
      let s' := if kind_matches (reg_kind r)
                then match call r with Some body => start body s | None => s end
                else s in
      dispatch kind_matches call rest s'
  end.

Definition call_storage_listener (c : Changes) (r : Registered) : option (Prog unit) :=
  match reg_kind r as k return (CbArg k -> Prog (CbRet k)) -> option (Prog unit) with
  | KStorageChanged => fun cb => Some (cb c)
  | _ => fun _ => None
  end (reg_cb r).

Definition call_message_listener (m : Message) (r : Registered) : option (Prog unit) :=
  match reg_kind r as k return (CbArg k -> Prog (CbRet k)) -> option (Prog unit) with
  | KMessage => fun cb => Some (discard (cb m))
  | _ => fun _ => None
  end (reg_cb r).

Definition call_alarm_listener (a : Alarm) (r : Registered) : option (Prog unit) :=
  match reg_kind r as k return (CbArg k -> Prog (CbRet k)) -> option (Prog unit) with
  | KAlarm => fun cb => Some (cb a)
  | _ => fun _ => None
  end (reg_cb r).

Definition call_dom_listener (t : Target) (ev : string) (r : Registered) : option (Prog unit) :=
  match reg_kind r as k return (CbArg k -> Prog (CbRet k)) -> option (Prog unit) with
  | KDom t' ev' => fun cb =>
      if (match t, t' with TDocument, TDocument | TWindow, TWindow => true | _, _ => false end
          && String.eqb ev ev')%bool
      then Some (cb tt) else None
  | _ => fun _ => None
  end (reg_cb r).

Definition call_timer (r : Registered) : option (Prog unit) :=
  match reg_kind r as k return (CbArg k -> Prog (CbRet k)) -> option (Prog unit) with
  | KTimeout _ => fun cb => Some (cb tt)
  | _ => fun _ => None
  end (reg_cb r).

Definition timer_delay (r : Registered) : option Z :=
  match reg_kind r with KTimeout d => Some d | _ => None end.

(** When a timer is due: [setTimeout] clamps a negative delay to zero. *)
Definition timer_due (r : Registered) : option Z :=
  match timer_delay r with
  | Some d => Some (reg_at r + Z.max 0 d)
  | None => None
  end.

Definition is_kind_storage (k : CbKind) : bool :=
  match k with KStorageChanged => true | _ => false end.
Definition is_kind_message (k : CbKind) : bool :=
  match k with KMessage => true | _ => false end.
Definition is_kind_alarm (k : CbKind) : bool :=
  match k with KAlarm => true | _ => false end.
Definition is_kind_dom (k : CbKind) : bool :=
  match k with KDom _ _ => true | _ => false end.
Definition is_kind_timeout (k : CbKind) : bool :=
  match k with KTimeout _ => true | _ => false end.

(** The steps of the whole system. *)
Inductive Label : Type :=
| Resume (i : nat)                     (* the i-th pending task is resumed *)
| Call (body : Prog unit)              (* the application calls a client method *)
| FireTimer (t : TimerId)
| StorageChanged (c : Changes)         (* a change event, from any context *)
| DeliverChange                        (* the change event of an own write *)
| RuntimeMessage (m : Message)
| AlarmFired (a : Alarm)
| DomEvent (t : Target) (ev : string)
| Outside (f : Platform -> Platform).  (* time passes, the server or another context acts *)

Definition step (l : Label) (s : Sys) : option Sys :=
  match l with
  | Resume i =>
      match nth_error (pool s) i with
      | Some t =>
          match resume_blocked (blocked t) (with_pool (remove_nth i (pool s)) s) with
          | Some o => Some (complete (owner t) o)
          | None => None
          end
      | None => None
      end
  | Call body => Some (start body s)
  | FireTimer t =>
      match find (is_timer t) (registered s) with
      | Some r =>
          match timer_due r, call_timer r with
          | Some due, Some body =>
              if due <=? clock (platform s) then
                Some (start body
                        (with_registered
                           (filter (fun r => negb (is_timer t r)) (registered s)) s))
              else None
          | _, _ => None
          end
      | None => None
      end
  | StorageChanged c =>
      Some (dispatch is_kind_storage (call_storage_listener c) (registered s) s)
  | DeliverChange =>
      match outbox s with
      | c :: rest =>
          let s' := mkSys (client s) (platform s) (trace s) (promises s) (pool s)
                      (registered s) (next_id s) rest in
          Some (dispatch is_kind_storage (call_storage_listener c) (registered s') s')
      | [] => None
      end
  | RuntimeMessage m =>
      Some (dispatch is_kind_message (call_message_listener m) (registered s) s)
  | AlarmFired a =>
      Some (dispatch is_kind_alarm (call_alarm_listener a) (registered s) s)
  | DomEvent t ev =>
      Some (dispatch is_kind_dom (call_dom_listener t ev) (registered s) s)
  | Outside f => Some (with_platform f s)
  end.

Fixpoint steps (ls : list Label) (s : Sys) : option Sys :=
  match ls with
  | [] => Some s
  | l :: rest =>
      match step l s with
      | Some s' => steps rest s'
      | None => None
      end
  end.

(** One call followed to its end: each time it suspends, the rest of the
    system does anything it likes ([others n], at the n-th suspension) and
    then the call is resumed.  [fuel] bounds the number of resumptions. *)
Fixpoint run_from {A} (others : nat -> Sys -> Sys) (fuel n : nat) (o : Outcome A * Sys)
    : Outcome A * Sys :=
  match fuel with
  | O => o
  | S fuel' =>
      match o with
      | (Suspended b, s) =>
          match resume_blocked b (others n s) with
          | Some o' => run_from others fuel' (S n) o'
          | None => o
          end
      | _ => o
      end
  end.

Definition run {A} (others : nat -> Sys -> Sys) (fuel : nat) (p : Prog A) (s : Sys)
    : Outcome A * Sys :=
  run_from others fuel 0%nat (seg p s).

Definition nobody : nat -> Sys -> Sys := fun _ s => s.

(** A fresh execution context with a freshly created client. *)
Definition DEFAULT_PLATFORM (e : Env) : Platform :=
  {| env := e; clock := 0; visibilityState := "visible";
     session_area := mkAreaContents None None;
     local_area := mkAreaContents None None;
     session_lastError := None; local_lastError := None;
     fetch_outcome := inl (JsError "TypeError" "Failed to fetch");
     handler_outcome := fun _ => inr tt;
     alarms_create_outcome := inr tt |}.

Definition boot (p : Platform) : Sys :=
  {| client := initialClient; platform := p; trace := []; promises := [];
     pool := []; registered := []; next_id := 0%nat; outbox := [] |}.

(* ===================================================================== *)
(** * Vocabulary of the statements *)
(* ===================================================================== *)

Definition finish_blocked {A B} (b : Blocked A) (kr : A -> Prog B) (ke : Thrown -> Prog B)
    : Blocked B :=
  match b with
  | BIO req k => BIO req (fun x => finish (k x) kr ke)
  | BTick k => BTick (finish k kr ke)
  | BJoin p k => BJoin p (fun x => finish (k x) kr ke)
  end.

(** The execution context is an extension UI page: [window] and [document]
    exist and [location.protocol] is one of the three extension schemes. *)
Definition extension_ui_page (e : Env) : Prop :=
  has_window e = true /\ has_document e = true /\
  exists protocol, location_protocol e = Some protocol /\
    (protocol = "chrome-extension:" \/ protocol = "moz-extension:" \/
     protocol = "safari-extension:").

Definition extension_ui_pageb (e : Env) : bool :=
  (has_window e && has_document e &&
   match location_protocol e with
   | Some protocol => set_has ALLOWED_PROTOCOLS protocol
   | None => false
   end)%bool.

(** Capabilities of the platform, read off [chrome]. *)
Definition has_onMessage (e : Env) : bool :=
  match chrome e with
  | Some ch => match runtime ch with Some r => onMessage r | None => false end
  | None => false
  end.

Definition has_alarms (e : Env) : bool :=
  match chrome e with
  | Some ch => match alarms ch with Some a => (create a && onAlarm a)%bool | None => false end
  | None => false
  end.

Definition has_onChanged (e : Env) : bool :=
  match chrome_storage e with Some st => onChanged st | None => false end.

Definition count_registered (f : CbKind -> bool) (s : Sys) : nat :=
  List.length (filter (fun r => f (reg_kind r)) (registered s)).

(** A synchronous client method called by the application. *)
Definition call (p : Prog unit) (s : Sys) : Sys := snd (seg p s).

Definition calls (ps : list (Prog unit)) (s : Sys) : Sys :=
  fold_left (fun s p => call p s) ps s.

Definition is_handler_call (e : Event) : bool :=
  match e with EvHandler _ _ _ _ => true | _ => false end.

Definition is_fetch (e : Event) : bool :=
  match e with EvFetch => true | _ => false end.

Definition handler_calls (s : Sys) : list Event := filter is_handler_call (trace s).
Definition fetches (s : Sys) : nat := List.length (filter is_fetch (trace s)).

(** What [scheduleRefresh] leaves behind: the timer named by the state it
    was given is gone, one new timer is registered, and the client's state
    records the new timer. *)
Definition scheduled_delay (state : AutoSyncState) (now : Z) : Z :=
  if now - lastRefreshAt state <? minIntervalMs (options state)
  then minIntervalMs (options state) - (now - lastRefreshAt state)
  else debounceMs (options state).

Definition without_timer (t : option TimerId) (s : Sys) : Sys :=
  match t with
  | Some t => with_registered (filter (fun r => negb (is_timer t r)) (registered s)) s
  | None => s
  end.

Definition after_scheduleRefresh (state : AutoSyncState) (doRefresh : RefreshFn) (s : Sys)
    : Sys :=
  let s1 := without_timer (debounceTimer state) s in
  with_client
    (fun c => set_autoSyncState
                (spread_updates (autoSyncState c) (update_debounceTimer (next_id s1))) c)
    (add_registered (KTimeout (scheduled_delay state (clock (platform s))))
       (refresh_timer_callback doRefresh updateAutoSyncState) s1).


Definition failed {A} (o : Outcome A) : bool :=
  match o with Failed _ => true | _ => false end.

(** The state update [executeRefresh] makes before it calls the refresh
    function. *)
Definition mark_refreshed (now : Z) : AutoSyncUpdates :=
  {| upd_enabled := None; upd_activated := None; upd_options := None;
     upd_lastRefreshAt := Some now; upd_debounceTimer := Some None;
     upd_pendingPostActionRefresh := None; upd_cleanup := None |}.

Definition dom_listeners_of (o : AutoSyncOptions) : nat :=
  ((if refreshOnFocus o then 2 else 0) + (if refreshOnOnline o then 1 else 0))%nat.

(** ** Execution contexts used in the examples *)

Definition full_chrome : Chrome :=
  {| storage := Some {| onChanged := true; session := true; local := true |};
     runtime := Some {| onMessage := true |};
     alarms := Some {| create := true; onAlarm := true |} |}.

(** An extension popup. *)
Definition popup_env : Env :=
  {| chrome := Some full_chrome; has_window := true; has_document := true;
     location_protocol := Some "chrome-extension:" |}.

(** A service worker: no [window], no [document]. *)
Definition service_worker_env : Env :=
  {| chrome := Some full_chrome; has_window := false; has_document := false;
     location_protocol := Some "chrome-extension:" |}.

(** A service worker of an extension without the "alarms" permission. *)
Definition service_worker_without_alarms_env : Env :=
  {| chrome := Some {| storage := storage full_chrome; runtime := runtime full_chrome;
                       alarms := None |};
     has_window := false; has_document := false;
     location_protocol := Some "chrome-extension:" |}.

(** A content script on an ordinary web page. *)
Definition web_page_env : Env :=
  {| chrome := Some full_chrome; has_window := true; has_document := true;
     location_protocol := Some "https:" |}.

Definition paid_status : UserStatus :=
  {| extensionUserId := "user-1"; paid := true;
     plan := Val {| Plan.id := "pro"; Plan.nickname := Val "Pro"; Plan.status := active;
                    Plan.currentPeriodEnd := Val "2026-12-01T00:00:00Z" |};
     usage := Val {| Usage.used := 3; Usage.limit := Val 10; Usage.resetsAt := Null |} |}.

Definition free_status : UserStatus :=
  {| extensionUserId := "user-1"; paid := false; plan := Null; usage := Undefined |}.

Definition platform_at (e : Env) (now : Z) (answer : Thrown + UserStatus) : Platform :=
  {| env := e; clock := now; visibilityState := "visible";
     session_area := mkAreaContents None None;
     local_area := mkAreaContents None None;
     session_lastError := None; local_lastError := None;
     fetch_outcome := answer;
     handler_outcome := fun _ => inr tt;
     alarms_create_outcome := inr tt |}.

(** ** Programs that do not notify *)

Definition calls_no_handler {X} (op : Op X) : Prop :=
  match op with
  | CallHandler _ _ _ _ => False
  | _ => True
  end.

(** [quiet p]: on no path does [p] call a status-change handler or install
    a storage change listener; neither does any async call it starts, nor
    any callback it hands to the platform. *)
Inductive quiet : forall A : Type, Prog A -> Prop :=
| quiet_Ret A (a : A) : quiet A (Ret a)
| quiet_Throw A (e : Thrown) : quiet A (Throw e)
| quiet_Act A X (op : Op X) (k : X -> Prog A) :
    calls_no_handler op -> (forall x, quiet A (k x)) -> quiet A (Act op k)
| quiet_IO A X (req : IOReq X) (k : X -> Prog A) :
    (forall x, quiet A (k x)) -> quiet A (IO req k)
| quiet_Tick A (k : Prog A) : quiet A k -> quiet A (Tick k)
| quiet_Spawn A (body : Prog unit) (k : Promise -> Prog A) :
    quiet unit body -> (forall p, quiet A (k p)) -> quiet A (Spawn body k)
| quiet_Join A (p : Promise) (k : Thrown + unit -> Prog A) :
    (forall x, quiet A (k x)) -> quiet A (Join p k)
| quiet_Register A (kind : CbKind) (cb : CbArg kind -> Prog (CbRet kind)) (k : nat -> Prog A) :
    is_kind_storage kind = false ->
    (forall x, quiet (CbRet kind) (cb x)) ->
    (forall id, quiet A (k id)) -> quiet A (Register kind cb k).
Arguments quiet {A} p.

Definition quiet_blocked {A} (b : Blocked A) : Prop :=
  match b with
  | BIO req k => forall x, quiet (k x)
  | BTick k => quiet k
  | BJoin _ k => forall x, quiet (k x)
  end.

Definition quiet_outcome {A} (o : Outcome A) : Prop :=
  match o with
  | Suspended b => quiet_blocked b
  | _ => True
  end.

Definition quiet_registered (r : Registered) : Prop :=
  is_kind_storage (reg_kind r) = false -> forall x, quiet (reg_cb r x).

(** Every pending task and every callback held by the platform is quiet,
    the storage change listeners excepted. *)
Definition all_quiet (s : Sys) : Prop :=
  Forall (fun t => quiet_blocked (blocked t)) (pool s) /\
  Forall quiet_registered (registered s).

Definition storage_listeners (s : Sys) : list Registered :=
  filter (fun r => is_kind_storage (reg_kind r)) (registered s).

(** Steps that start quiet code only: everything except the delivery of a
    storage change event, the application calling quiet programs. *)
Definition quiet_label (l : Label) : Prop :=
  match l with
  | StorageChanged _ | DeliverChange => False
  | Call body => quiet body
  | _ => True
  end.

(** The ways into the refresh pipeline from the application. *)
Inductive refresh_pipeline_entry : Prog unit -> Prop :=
| entry_getUser (opts : option GetUserOptions) :
    refresh_pipeline_entry (discard (getUser opts))
| entry_refresh : refresh_pipeline_entry (discard refresh)
| entry_autoSyncRefresh : refresh_pipeline_entry (discard autoSyncRefresh)
| entry_schedulePaidSWRRevalidate : refresh_pipeline_entry schedulePaidSWRRevalidate
| entry_enableBackgroundStatusTracking (opts : option BackgroundTrackingOptions) :
    refresh_pipeline_entry (enableBackgroundStatusTracking opts)
| entry_activateAutoSync (state : AutoSyncState) :
    refresh_pipeline_entry (activateAutoSync state autoSyncRefresh updateAutoSyncState)
| entry_scheduleRefresh (state : AutoSyncState) :
    refresh_pipeline_entry (scheduleRefresh state autoSyncRefresh updateAutoSyncState).

(** The steps of the refresh pipeline: a call of one of its entries, the
    resumption of a pending task, a timer, a runtime message, an alarm, a
    DOM event, anything happening outside; not the delivery of a storage
    change event. *)
Definition pipeline_step (l : Label) : Prop :=
  match l with
  | StorageChanged _ | DeliverChange => False
  | Call body => refresh_pipeline_entry body
  | _ => True
  end.

(** Everything that can happen to a client: the pipeline, storage change
    events, and the application subscribing and unsubscribing handlers. *)
Definition client_step (l : Label) : Prop :=
  match l with
  | Call body =>
      refresh_pipeline_entry body \/
      (exists h, body = onStatusChanged h) \/ (exists h, body = unsubscribe h)
  | _ => True
  end.

(** The listener [attachStorageStatusListener] installs. *)
Definition the_storage_listener (id : nat) (at_ : Z) : Registered :=
  {| reg_id := id; reg_at := at_; reg_kind := KStorageChanged;
     reg_cb := storageStatusListener |}.

(** Besides [all_quiet]: the only storage change listeners are copies of
    [storageStatusListener]. *)
Definition sound (s : Sys) : Prop :=
  all_quiet s /\
  Forall (fun r => exists id at_, r = the_storage_listener id at_) (storage_listeners s).

(** A client as [createBillingExtensionsClient] leaves it: the variables
    initialised and [attachStorageStatusListener] run once. *)
Definition created (p : Platform) : Sys :=
  call attachStorageStatusListener (boot p).

(** What a quiet step leaves untouched. *)
Definition same_notifications (s s' : Sys) : Prop :=
  handler_calls s' = handler_calls s /\ storage_listeners s' = storage_listeners s.

Definition settled {A} (o : Outcome A) : Prop :=
  match o with Suspended _ => False | _ => True end.

Definition log_all (evs : list Event) (s : Sys) : Sys :=
  mkSys (client s) (platform s) (trace s ++ evs) (promises s) (pool s) (registered s)
    (next_id s) (outbox s).

(** The handler calls [notifyHandlers next prev] makes, given the registry. *)
Definition notifications (next : UserStatus) (prev : option UserStatus) (hs : list Handler)
    : list Event :=
  let diff := computeStatusDiff prev next in
  if (negb (is_null prev) && negb (hasAnyChange diff))%bool then []
  else map (fun h => EvHandler h next prev diff) hs.

(** The storage tier a best-effort access ends up using: the session tier
    when it exists and works, else the local tier when it exists and works. *)
Definition session_available (e : Env) : bool :=
  match chrome_storage e with Some st => session st | None => false end.

Definition local_available (e : Env) : bool :=
  match chrome_storage e with Some st => local st | None => false end.

Definition best_area (p : Platform) : option Area :=
  if (session_available (env p) && is_null (session_lastError p))%bool then Some SessionArea
  else if (local_available (env p) && is_null (local_lastError p))%bool then Some LocalArea
  else None.

(** What a best-effort read finds and what a best-effort write leaves. *)
Definition stored {T} (k : Key T) (p : Platform) : option T :=
  match best_area p with
  | Some a => area_get k (area a p)
  | None => None
  end.

Definition store {T} (k : Key T) (v : T) (p : Platform) : Platform :=
  match best_area p with
  | Some a => set_area a (area_set k v (area a p)) p
  | None => p
  end.

(** While a call is suspended the rest of the execution context may do
    what it likes with the client's variables, the pending tasks and the
    registered callbacks; [steady] says that meanwhile the platform (clock,
    stores, server) stays as it is and that what the others do is not
    written to this call's trace. *)
Definition steady (others : nat -> Sys -> Sys) : Prop :=
  forall n s, platform (others n s) = platform s /\ trace (others n s) = trace s.

(** The others do not assign the client's variables. *)
Definition private (others : nat -> Sys -> Sys) : Prop :=
  forall n s, client (others n s) = client s.

(** What [doRefresh] does to the client's variables and to the store once
    the billing API has answered. *)
Definition refreshed_client (answer : Thrown + UserStatus) (c : Client) : Client :=
  match answer with
  | inr next => set_currentStatus (Some next) c
  | inl _ => c
  end.

Definition refreshed_platform (answer : Thrown + UserStatus) (p : Platform) : Platform :=
  match answer with
  | inr next => store STATUS_CACHE_KEY {| status := next; fetchedAt := clock p |} p
  | inl _ => p
  end.

Definition outcome_of {A} (r : Thrown + A) : Outcome A :=
  match r with inr a => Done a | inl e => Failed e end.

(** What a storage change event makes [storageStatusListener] report. *)
Definition change_notifications (c : Changes) (hs : list Handler) : list Event :=
  match change_status_cache c with
  | Some {| oldValue := old; newValue := Some cached |} =>
      notifications (status cached) (option_map status old) hs
  | _ => []
  end.


(** ** A scenario used in the examples: in a popup, a handler subscribes,
    the application calls [refresh], and the refresh runs to its end. *)
Definition popup_platform : Platform := platform_at popup_env 1000 (inr paid_status).

Definition refresh_scenario : list Label :=
  [Call (onStatusChanged 7%nat); Call (discard refresh);
   Resume 0; Resume 0; Resume 0; Resume 0; Resume 0; Resume 0; Resume 0; Resume 0].

Definition after_refresh_scenario : Sys :=
  match steps refresh_scenario (created popup_platform) with
  | Some s => s
  | None => created popup_platform
  end.

(** [catch (error) { throw normalizeError(error) }] applied to an outcome. *)
Definition normalized {A} (o : Outcome A) : Outcome A :=
  match o with
  | Failed e => Failed (normalizeError e)
  | _ => o
  end.

(** ** A scenario with a stale persisted cache: the entry is 31000 ms old. *)
Definition stale_cache_platform : Platform :=
  {| env := popup_env; clock := 131000; visibilityState := "visible";
     session_area := {| status_cache := Some {| status := paid_status; fetchedAt := 100000 |};
                        last_swr_at := None |};
     local_area := mkAreaContents None None;
     session_lastError := None; local_lastError := None;
     fetch_outcome := inr free_status;
     handler_outcome := fun _ => inr tt;
     alarms_create_outcome := inr tt |}.

(** ** Vocabulary for the stale-while-revalidate gate *)

(** ** A scenario with a fresh persisted cache: the entry is 10000 ms old. *)
Definition fresh_cache_platform : Platform :=
  {| env := popup_env; clock := 110000; visibilityState := "visible";
     session_area := {| status_cache := Some {| status := paid_status; fetchedAt := 100000 |};
                        last_swr_at := None |};
     local_area := mkAreaContents None None;
     session_lastError := None; local_lastError := None;
     fetch_outcome := inr paid_status;
     handler_outcome := fun _ => inr tt;
     alarms_create_outcome := inr tt |}.

(** The part of the trace written since the state [s]. *)
Definition since (s s' : Sys) : list Event :=
  skipn (List.length (trace s)) (trace s').

(** The events before the first request to the billing API. *)
Fixpoint before_fetch (evs : list Event) : list Event :=
  match evs with
  | [] => []
  | EvFetch :: _ => []
  | e :: rest => e :: before_fetch rest
  end.

Definition is_swr_read (e : Event) : bool :=
  match e with
  | EvStorageGet _ key => String.eqb key (key_name LAST_SWR_AT_KEY)
  | _ => false
  end.

(** How many times the persisted last-SWR timestamp has been asked for. *)
Definition swr_reads (s : Sys) : nat := List.length (filter is_swr_read (trace s)).

(** The last-SWR timestamp the gate works with: [(stored) ?? 0]. *)
Definition last_swr (p : Platform) : Z := or_else (stored LAST_SWR_AT_KEY p) 0.

(** A client whose in-memory status is a paid one. *)
Definition paid_in_memory : Sys :=
  with_client (set_currentStatus (Some paid_status)) (boot popup_platform).

(** ** Following one call across its suspensions *)

(** [reaches others i o j o']: resumed again and again, with the rest of
    the system acting in between ([others n] at the n-th suspension), the
    suspended call [o] of index [i] gets to [o'] at index [j]. *)
Inductive reaches {A : Type} (others : nat -> Sys -> Sys)
    : nat -> Outcome A * Sys -> nat -> Outcome A * Sys -> Prop :=
| reaches_here (i : nat) (o : Outcome A * Sys) : reaches others i o i o
| reaches_step (i : nat) (b : Blocked A) (s : Sys) (o' : Outcome A * Sys)
    (j : nat) (r : Outcome A * Sys) :
    resume_blocked b (others i s) = Some o' ->
    reaches others (S i) o' j r ->
    reaches others i (Suspended b, s) j r.

(** What [finish] makes of an outcome. *)
Definition finish_outcome {A B} (o : Outcome A * Sys) (kr : A -> Prog B)
    (ke : Thrown -> Prog B) : Outcome B * Sys :=
  match o with
  | (Done a, s) => seg (kr a) s
  | (Failed e, s) => seg (ke e) s
  | (Suspended b, s) => (Suspended (finish_blocked b kr ke), s)
  end.

Definition is_storage_get (e : Event) : bool :=
  match e with EvStorageGet _ _ => true | _ => false end.

Definition is_storage_write (e : Event) : bool :=
  match e with EvStorageSet _ _ | EvStored _ _ => true | _ => false end.

(** The trace of [s1] is the trace of [s] and then events [evs] with [P evs]. *)
Definition extends (P : list Event -> Prop) (s s1 : Sys) : Prop :=
  exists evs, trace s1 = trace s ++ evs /\ P evs.

(** A program that starts with a suspension, as a suspended program. *)
Definition suspended_start {A} (p : Prog A) : Blocked A :=
  match p with
  | IO req k => BIO req k
  | Tick k => BTick k
  | Join q k => BJoin q k
  | _ => BTick p
  end.

(** ** Sharing one refresh ([autoSyncRefresh]) *)

(** Primitives that do not assign [refreshInFlight]. *)
Definition keeps_marker {X} (op : Op X) : Prop :=
  match op with
  | SetClient f => forall c, refreshInFlight (f c) = refreshInFlight c
  | _ => True
  end.

Definition is_fetch_request {X} (req : IOReq X) : bool :=
  match req with FetchStatus => true | _ => false end.

(** [plain E p]: whatever the platform answers, [p] comes to its end
    through finitely many suspensions; it throws only errors in [E], sends
    no status request, does not assign [refreshInFlight], and neither starts
    nor awaits another async call. *)
Inductive plain {A : Type} (E : Thrown -> Prop) : Prog A -> Prop :=
| plain_Ret (a : A) : plain E (Ret a)
| plain_Throw (e : Thrown) : E e -> plain E (Throw e)
| plain_Act {X} (op : Op X) (k : X -> Prog A) :
    keeps_marker op -> (forall x, plain E (k x)) -> plain E (Act op k)
| plain_IO {X} (req : IOReq X) (k : X -> Prog A) :
    is_fetch_request req = false -> (forall x, plain E (k x)) -> plain E (IO req k)
| plain_Tick (k : Prog A) : plain E k -> plain E (Tick k).

(** A suspended program whose remainder is plain; the request it waits
    for, if any, has been sent already. *)
Definition plain_blocked {A} (E : Thrown -> Prop) (b : Blocked A) : Prop :=
  match b with
  | BIO _ k => forall x, plain E (k x)
  | BTick k => plain E k
  | BJoin _ _ => False
  end.

Definition plain_outcome {A} (E : Thrown -> Prop) (o : Outcome A) : Prop :=
  match o with
  | Done _ => True
  | Failed e => E e
  | Suspended b => plain_blocked E b
  end.

Definition any_error : Thrown -> Prop := fun _ => True.
Definition no_error : Thrown -> Prop := fun _ => False.

(** A program whose first suspension is the status request, and which is
    plain from there on. *)
Definition plain_after_fetch {A} (E : Thrown -> Prop) (p : Prog A) : Prop :=
  exists k, p = IO FetchStatus k /\ forall x, plain E (k x).

(** What a plain program leaves as it is. *)
Definition same_refresh_state (s s' : Sys) : Prop :=
  refreshInFlight (client s') = refreshInFlight (client s) /\
  fetches s' = fetches s /\
  promises s' = promises s /\
  pool s' = pool s.

(** [finally { refreshInFlight = null }] *)
Definition reset_marker : Prog unit := act (SetClient (set_refreshInFlight None)).

(** A suspended body inside [try { ... } finally { refreshInFlight = null }]. *)
Definition finally_reset (b : Blocked unit) : Blocked unit :=
  finish_blocked b (fun a => reset_marker ;; Ret a) (fun e => reset_marker ;; Throw e).

(** A pending call that only waits for a promise, and ends as soon as it is
    resumed: [await autoSyncRefresh()]. *)
Definition waiter (t : Task) : Prop :=
  exists q k, blocked t = BJoin q k /\
    forall r s, settled (fst (seg (k r) s)) /\ snd (seg (k r) s) = s.

(** [void autoSyncRefresh()] and [await autoSyncRefresh()], as the client
    and the AutoSync module call it. *)
Definition void_refresh : Prog unit := discard autoSyncRefresh.
Definition awaited_refresh : Prog unit := p <- autoSyncRefresh ;; await_promise p.

(** The steps of a system in which [autoSyncRefresh] is called at any
    moment, pending calls are resumed in any order, and the platform
    changes in any way (answers, failures, time). *)
Definition refresh_label (l : Label) : Prop :=
  match l with
  | Call body => body = void_refresh \/ body = awaited_refresh
  | Resume _ | Outside _ => True
  | _ => False
  end.

Definition is_call (l : Label) : bool :=
  match l with Call _ => true | _ => false end.

(** The number of calls made while no refresh was in flight. *)
Fixpoint started (ls : list Label) (s : Sys) : nat :=
  match ls with
  | [] => 0%nat
  | l :: rest =>
      match step l s with
      | Some s' =>
          ((if (is_call l && is_null (refreshInFlight (client s)))%bool then 1 else 0)
           + started rest s')%nat
      | None => 0%nat
      end
  end.

Definition is_join (t : Task) : bool :=
  match blocked t with BJoin _ _ => true | _ => false end.

(** The pending calls that are not merely waiting for a promise. *)
Definition running (s : Sys) : list Task :=
  filter (fun t => negb (is_join t)) (pool s).

Fixpoint first_running (ts : list Task) : nat :=
  match ts with
  | [] => 0%nat
  | t :: rest => if is_join t then S (first_running rest) else 0%nat
  end.

(** The running call is resumed [n] times; before its [i]-th resumption
    the platform changes as [outs i] says. *)
Fixpoint drive (outs : nat -> Platform -> Platform) (n i : nat) (s : Sys) : option Sys :=
  match n with
  | O => Some s
  | S n' =>
      let s1 := with_platform (outs i) s in
      match step (Resume (first_running (pool s1))) s1 with
      | Some s' => drive outs n' (S i) s'
      | None => None
      end
  end.

(** The marker tells the truth: [refreshInFlight] is [p] exactly while the
    job that settles [p] is pending; every other pending call waits for a
    promise.  [m] is the marker, [ps] the promises, [ts] the pending calls. *)
Definition refresh_job (p : Promise) (b : Blocked unit) : Task :=
  mkTask p (finally_reset b).

Definition marker_truth (m : option Promise) (ps : list PromiseState) (ts : list Task) : Prop :=
  Forall (fun t => (owner t < List.length ps)%nat) ts /\
  match m with
  | None => Forall waiter ts
  | Some p =>
      (p < List.length ps)%nat /\ nth p ps Pending = Pending /\
      exists ws1 b ws2,
        ts = ws1 ++ refresh_job p b :: ws2 /\
        plain_blocked no_error b /\
        Forall waiter ws1 /\ Forall waiter ws2 /\
        Forall (fun t => owner t <> p) (ws1 ++ ws2)
  end.

Definition refresh_inv (s : Sys) : Prop :=
  marker_truth (refreshInFlight (client s)) (promises s) (pool s).

(** Three overlapping calls, the first of them to a failing billing API. *)
Definition failing_platform : Platform :=
  platform_at popup_env 1000 (inl (JsError "TypeError" "Failed to fetch")).

Definition overlapping_calls : list Label :=
  [Call void_refresh; Call awaited_refresh; Call void_refresh].

Definition after_overlapping_calls : Sys :=
  match steps overlapping_calls (boot failing_platform) with
  | Some s => s
  | None => boot failing_platform
  end.

(** ... and the job of the first call resumed until it ends. *)
Definition after_failed_refresh : Sys :=
  match drive (fun _ pf => pf) 4 0 after_overlapping_calls with
  | Some s => s
  | None => after_overlapping_calls
  end.

(* ===================================================================== *)
(** * Further vocabulary: the rest of the modules *)
(* ===================================================================== *)

(** [isBillingExtensionsError]: [error instanceof BillingExtensionsError]. *)
Definition isBillingExtensionsError (error : Thrown) : bool :=
  match error with
  | BillingExtensionsError _ _ _ _ _ => true
  | _ => false
  end.

(** [error.type] of an SDK error. *)
Definition error_type (e : Thrown) : option BillingExtensionsErrorType :=
  match e with
  | BillingExtensionsError t _ _ _ _ => Some t
  | _ => None
  end.

(** The same status under another [extensionUserId]. *)
Definition with_extensionUserId (id : string) (s : UserStatus) : UserStatus :=
  {| extensionUserId := id; paid := paid s; plan := plan s; usage := usage s |}.

(** [throws_only E p]: wherever [p] throws, it throws an error in [E].
    Async calls it starts and callbacks it registers are not its own
    throws. *)
Inductive throws_only {A : Type} (E : Thrown -> Prop) : Prog A -> Prop :=
| throws_only_Ret (a : A) : throws_only E (Ret a)
| throws_only_Throw (e : Thrown) : E e -> throws_only E (Throw e)
| throws_only_Act {X} (op : Op X) (k : X -> Prog A) :
    (forall x, throws_only E (k x)) -> throws_only E (Act op k)
| throws_only_IO {X} (req : IOReq X) (k : X -> Prog A) :
    (forall x, throws_only E (k x)) -> throws_only E (IO req k)
| throws_only_Tick (k : Prog A) : throws_only E k -> throws_only E (Tick k)
| throws_only_Spawn (body : Prog unit) (k : Promise -> Prog A) :
    (forall p, throws_only E (k p)) -> throws_only E (Spawn body k)
| throws_only_Join (q : Promise) (k : Thrown + unit -> Prog A) :
    (forall r, throws_only E (k r)) -> throws_only E (Join q k)
| throws_only_Register (kind : CbKind) (cb : CbArg kind -> Prog (CbRet kind))
    (k : nat -> Prog A) :
    (forall n, throws_only E (k n)) -> throws_only E (Register kind cb k).

Definition throws_only_blocked {A} (E : Thrown -> Prop) (b : Blocked A) : Prop :=
  match b with
  | BIO _ k => forall x, throws_only E (k x)
  | BTick k => throws_only E k
  | BJoin _ k => forall r, throws_only E (k r)
  end.

Definition throws_only_outcome {A} (E : Thrown -> Prop) (o : Outcome A) : Prop :=
  match o with
  | Done _ => True
  | Failed e => E e
  | Suspended b => throws_only_blocked E b
  end.

Definition sdk_error : Thrown -> Prop := fun e => isBillingExtensionsError e = true.

(** A service worker whose billing API cannot be reached. *)
Definition unreachable_api_platform : Platform :=
  platform_at service_worker_env 1000 (inl (JsError "TypeError" "Failed to fetch")).

(** ** The strict storage functions ([core/storage.ts]) *)

(** Session tier when it exists, with no fallback once it has been tried;
    the local tier only when there is no session tier. *)
Definition getFromSessionStorage {T} (key : Key T) : Prog (option T) :=
  sessionAvailable <- isSessionStorageAvailable ;;
  if sessionAvailable then
    result <- io (StorageGet SessionArea key) ;;
    match result with
    | StorageLastError message =>
        Throw (createRuntimeError (or_else message "Storage read failed") None)
    | StorageOk v => Ret v
    end
  else getFromLocalStorage key.

Definition setInSessionStorage {T} (key : Key T) (value : T) : Prog unit :=
  sessionAvailable <- isSessionStorageAvailable ;;
  if sessionAvailable then
    result <- io (StorageSet SessionArea key value) ;;
    match result with
    | StorageLastError message =>
        Throw (createRuntimeError (or_else message "Storage write failed") None)
    | StorageOk _ => Ret tt
    end
  else setInLocalStorage key value.

(** The storage area exists in this execution context and its calls
    succeed ([chrome.runtime.lastError] is not set in their callbacks). *)
Definition area_usable (a : Area) (p : Platform) : bool :=
  match a with
  | SessionArea => (session_available (env p) && is_null (session_lastError p))%bool
  | LocalArea => (local_available (env p) && is_null (local_lastError p))%bool
  end.

(** The storage area does not work at all: it does not exist in this
    execution context, or every call on it, read or write, reports
    [chrome.runtime.lastError]. *)
Definition area_down (a : Area) (p : Platform) : Prop :=
  match a with
  | SessionArea =>
      session_available (env p) = false \/
      (session_available (env p) = true /\ exists m, session_lastError p = Some m)
  | LocalArea =>
      local_available (env p) = false \/
      (local_available (env p) = true /\ exists m, local_lastError p = Some m)
  end.

(** A popup whose session area fails every call while the local area works
    and holds a last-SWR timestamp. *)
Definition broken_session_platform : Platform :=
  {| env := popup_env; clock := 5000; visibilityState := "visible";
     session_area := mkAreaContents None None;
     local_area := mkAreaContents None (Some 4000);
     session_lastError := Some (Some "quota exceeded"); local_lastError := None;
     fetch_outcome := inr free_status;
     handler_outcome := fun _ => inr tt;
     alarms_create_outcome := inr tt |}.

(** The session area starts to answer again. *)
Definition heal_session (p : Platform) : Platform :=
  mkPlatform (env p) (clock p) (visibilityState p) (session_area p) (local_area p)
    None (local_lastError p) (fetch_outcome p) (handler_outcome p) (alarms_create_outcome p).

(** From the [k]-th suspension of the call on, the session area answers. *)
Definition session_recovers_after (k : nat) : nat -> Sys -> Sys :=
  fun n s => if (k <=? n)%nat then with_platform heal_session s else s.

(** ** AutoSync options *)

(** [{ ...a, ...b }] on option objects. *)
Definition overlay_options (a b : AutoSyncOptionsArg) : AutoSyncOptionsArg :=
  {| arg_refreshOnInit :=
       match arg_refreshOnInit b with Some x => Some x | None => arg_refreshOnInit a end;
     arg_refreshOnFocus :=
       match arg_refreshOnFocus b with Some x => Some x | None => arg_refreshOnFocus a end;
     arg_refreshOnOnline :=
       match arg_refreshOnOnline b with Some x => Some x | None => arg_refreshOnOnline a end;
     arg_debounceMs :=
       match arg_debounceMs b with Some x => Some x | None => arg_debounceMs a end;
     arg_minIntervalMs :=
       match arg_minIntervalMs b with Some x => Some x | None => arg_minIntervalMs a end |}.

(** ** Subscriptions *)

(** What an application does with a handler: [onStatusChanged(h)], or
    calling the function a previous [onStatusChanged(h)] returned. *)
Inductive HandlerOp : Type :=
| Subscribe (h : Handler)
| Unsubscribe (h : Handler).

Definition handler_op (o : HandlerOp) : Prog unit :=
  match o with
  | Subscribe h => onStatusChanged h
  | Unsubscribe h => unsubscribe h
  end.

(** Whether [h] is subscribed after [ops], given whether it was before:
    the last operation on [h] decides. *)
Fixpoint subscribed (ops : list HandlerOp) (h : Handler) (before : bool) : bool :=
  match ops with
  | [] => before
  | Subscribe h' :: rest => subscribed rest h (if Nat.eqb h h' then true else before)
  | Unsubscribe h' :: rest => subscribed rest h (if Nat.eqb h h' then false else before)
  end.

Definition is_call_to (h : Handler) (e : Event) : bool :=
  match e with
  | EvHandler h' _ _ _ => Nat.eqb h h'
  | _ => false
  end.

(** How often handler [h] is called in a list of events. *)
Definition calls_to (h : Handler) (evs : list Event) : nat :=
  List.length (filter (is_call_to h) evs).

(** ** Background triggers *)

(** [msg?.type === CHECKOUT_RETURN_MESSAGE] *)
Definition is_checkout_return (m : Message) : bool :=
  match msg_type m with
  | Some type => String.eqb type CHECKOUT_RETURN_MESSAGE
  | None => false
  end.

Definition message_listeners (s : Sys) : list Registered :=
  filter (fun r => is_kind_message (reg_kind r)) (registered s).

Definition alarm_listeners (s : Sys) : list Registered :=
  filter (fun r => is_kind_alarm (reg_kind r)) (registered s).

Definition the_message_listener (id : nat) (at_ : Z) : Registered :=
  {| reg_id := id; reg_at := at_; reg_kind := KMessage; reg_cb := checkoutReturnListener |}.

Definition the_alarm_listener (id : nat) (at_ : Z) : Registered :=
  {| reg_id := id; reg_at := at_; reg_kind := KAlarm; reg_cb := trackingAlarmListener |}.

(** The requests a call of [autoSyncRefresh] sends in state [s]. *)
Definition refresh_request (s : Sys) : list Event :=
  if is_null (refreshInFlight (client s)) then [EvFetch] else [].

(** A service worker right after [enableBackgroundStatusTracking()]. *)
Definition tracking_worker : Sys :=
  call (enableBackgroundStatusTracking None) (boot (platform_at service_worker_env 1000 (inr paid_status))).

(** ** The status cache *)

(** What [loadCachedStatus] finds in a platform: the persisted status, unless
    nothing is persisted or the entry is older than the TTL. *)
Definition cache_lookup (p : Platform) : option UserStatus :=
  match stored STATUS_CACHE_KEY p with
  | Some cached =>
      if clock p - fetchedAt cached >? DEFAULT_CACHE_TTL_MS then None
      else Some (status cached)
  | None => None
  end.

(** [d] milliseconds pass. *)
Definition advance_clock (d : Z) (p : Platform) : Platform :=
  mkPlatform (env p) (clock p + d) (visibilityState p) (session_area p) (local_area p)
    (session_lastError p) (local_lastError p) (fetch_outcome p) (handler_outcome p)
    (alarms_create_outcome p).

(** ** AutoSync events *)

(** The three DOM events AutoSync listens to. *)
Inductive AutoSyncEvent : Type := OnVisibilityChange | OnFocus | OnOnline.

Definition dom_label (e : AutoSyncEvent) : Label :=
  match e with
  | OnVisibilityChange => DomEvent TDocument "visibilitychange"
  | OnFocus => DomEvent TWindow "focus"
  | OnOnline => DomEvent TWindow "online"
  end.

(** Whether a listener for the event is installed and, when it runs,
    schedules a refresh. *)
Definition schedules (o : AutoSyncOptions) (p : Platform) (e : AutoSyncEvent) : bool :=
  match e with
  | OnVisibilityChange => (refreshOnFocus o && String.eqb (visibilityState p) "visible")%bool
  | OnFocus => refreshOnFocus o
  | OnOnline => refreshOnOnline o
  end.

Definition pending_timers (s : Sys) : nat := count_registered is_kind_timeout s.

(** A page right after [activateAutoSync(state, autoSyncRefresh, updateState)]. *)
Definition activated_page (state : AutoSyncState) (p : Platform) : Sys :=
  call (activateAutoSync state autoSyncRefresh updateAutoSyncState) (boot p).

(** The listeners [setupAutoSyncListeners] installs in a fresh page: each
    closes over the state it was given. *)
Definition autosync_listeners (state : AutoSyncState) (now : Z) : list Registered :=
  (if refreshOnFocus (options state) then
     [ {| reg_id := 0; reg_at := now; reg_kind := KDom TDocument "visibilitychange";
          reg_cb := fun _ =>
            visibility <- act VisibilityState ;;
            if String.eqb visibility "visible"
            then scheduleRefresh state autoSyncRefresh updateAutoSyncState
            else Ret tt |};
       {| reg_id := 1; reg_at := now; reg_kind := KDom TWindow "focus";
          reg_cb := fun _ => scheduleRefresh state autoSyncRefresh updateAutoSyncState |} ]
   else []) ++
  (if refreshOnOnline (options state) then
     [ {| reg_id := if refreshOnFocus (options state) then 2 else 0; reg_at := now;
          reg_kind := KDom TWindow "online";
          reg_cb := fun _ => scheduleRefresh state autoSyncRefresh updateAutoSyncState |} ]
   else []).

(** ** Repeated AutoSync triggers *)






(** ** A change event during a call *)

(** At the [k]-th suspension of the call a storage change event is
    delivered to this execution context. *)
Definition change_arrives_at (k : nat) (c : Changes) : nat -> Sys -> Sys :=
  fun n s =>
    if Nat.eqb n k then
      match step (StorageChanged c) s with Some s' => s' | None => s end
    else s.

(** Another execution context has written a paid status to the cache. *)
Definition foreign_write : Changes :=
  single_change STATUS_CACHE_KEY None {| status := paid_status; fetchedAt := 131000 |}.



(* ===================================================================== *)
(** * Properties of the diff engine *)
(* ===================================================================== *)

Lemma PlanStatus_eqb_eq (a b : PlanStatus) : PlanStatus_eqb a b = true <-> a = b.
Proof. destruct a, b; simpl; split; intro H; try reflexivity; discriminate H. Qed.

Lemma strict_neq_false {A} (eqb : A -> A -> bool)
    (eqb_eq : forall a b, eqb a b = true <-> a = b) (x y : JsOpt A) :
  strict_neq eqb x y = false <-> x = y.
Proof.
  destruct x as [| |a], y as [| |b]; simpl; split; intro H;
    try reflexivity; try discriminate H.
  - apply negb_false_iff, eqb_eq in H. now subst.
  - injection H as ->. apply negb_false_iff, eqb_eq. reflexivity.
Qed.

Lemma present_true {A} (x : JsOpt A) :
  present x = true <-> x <> Undefined /\ x <> Null.
Proof.
  destruct x; simpl; split.
  - discriminate.
  - intros [H _]. now elim H.
  - discriminate.
  - intros [_ H]. now elim H.
  - intros _. split; discriminate.
  - reflexivity.
Qed.

Lemma computePlanChanged_false (prev next : UserStatus) :
  computePlanChanged (Some prev) next = false <-> same_plan (plan prev) (plan next).
Proof.
  unfold computePlanChanged, same_plan.
  destruct (plan prev) as [| |a], (plan next) as [| |b];
    try (split; [reflexivity | intros _; reflexivity]);
    try (split; [discriminate | intros []]).
  rewrite !orb_false_iff, !negb_false_iff, String.eqb_eq, PlanStatus_eqb_eq,
    !(strict_neq_false String.eqb String.eqb_eq).
  tauto.
Qed.

Lemma computeUsageChanged_false (prev next : UserStatus) :
  computeUsageChanged (Some prev) next = false <-> same_usage (usage prev) (usage next).
Proof.
  unfold computeUsageChanged, same_usage.
  destruct (usage prev) as [| |a], (usage next) as [| |b];
    try (split; [reflexivity | intros _; reflexivity]);
    try (split; [discriminate | intros []]).
  rewrite !orb_false_iff, !negb_false_iff, Z.eqb_eq,
    (strict_neq_false Z.eqb Z.eqb_eq), (strict_neq_false String.eqb String.eqb_eq).
  tauto.
Qed.

Lemma hasAnyChange_false_iff (prev next : UserStatus) :
  hasAnyChange (computeStatusDiff (Some prev) next) = false <->
  same_compared_fields prev next.
Proof.
  unfold hasAnyChange, same_compared_fields, computeStatusDiff.
  cbn [entitlementChanged planChanged usageChanged computeEntitlementChanged].
  rewrite !orb_false_iff, negb_false_iff, Bool.eqb_true_iff,
    computePlanChanged_false, computeUsageChanged_false.
  tauto.
Qed.

(** C3. When there is no previous status, [computeStatusDiff] reports the
    entitlement as changed, the plan as changed exactly when the next status
    has a plan (neither [undefined] nor [null]), and the usage as changed
    exactly when the next status has a usage. *)
Theorem computeStatusDiff_without_prev (next : UserStatus) :
  entitlementChanged (computeStatusDiff None next) = true /\
  (planChanged (computeStatusDiff None next) = true <->
     plan next <> Undefined /\ plan next <> Null) /\
  (usageChanged (computeStatusDiff None next) = true <->
     usage next <> Undefined /\ usage next <> Null).
Proof.
  simpl. split; [reflexivity|]. split; apply present_true.
Qed.

(** C4. [hasAnyChange] is the disjunction of the three flags; so when a
    previous status agrees with the next one on every compared field, the
    diff has no change and [notifyHandlers] returns without calling any
    handler: it leaves the whole system, its event trace included, as it
    was. *)
Theorem unchanged_status_is_not_notified (prev next : UserStatus) (s : Sys) :
  same_compared_fields prev next ->
  (forall diff : StatusDiff,
     hasAnyChange diff = entitlementChanged diff || planChanged diff || usageChanged diff) /\
  hasAnyChange (computeStatusDiff (Some prev) next) = false /\
  seg (notifyHandlers next (Some prev)) s = (Done tt, s).
Proof.
  intros Hsame. apply hasAnyChange_false_iff in Hsame.
  split; [reflexivity|]. split; [exact Hsame|].
  unfold notifyHandlers. rewrite Hsame. reflexivity.
Qed.

Lemma unchanged_status_is_not_notified_witness :
  same_compared_fields paid_status paid_status /\
  handlers (client after_refresh_scenario) = [7%nat] /\
  seg (notifyHandlers paid_status (Some paid_status)) after_refresh_scenario =
  (Done tt, after_refresh_scenario).
Proof.
  assert (Hsame : same_compared_fields paid_status paid_status)
    by (unfold same_compared_fields; simpl; repeat split).
  split; [exact Hsame|]. split; [reflexivity|].
  exact (proj2 (proj2 (unchanged_status_is_not_notified paid_status paid_status
                         after_refresh_scenario Hsame))).
Defined.

(* ===================================================================== *)
(** * Running programs: basic facts *)
(* ===================================================================== *)

Lemma seg_finish {A B} (p : Prog A) (kr : A -> Prog B) (ke : Thrown -> Prog B) (s : Sys) :
  seg (finish p kr ke) s =
  match seg p s with
  | (Done a, s') => seg (kr a) s'
  | (Failed e, s') => seg (ke e) s'
  | (Suspended b, s') => (Suspended (finish_blocked b kr ke), s')
  end.
Proof.
  revert B kr ke s.
  induction p as [A a|A e|A X op k IH|A X req k IH|A k IH|A body _ k IH|A q k IH|A kind cb _ k IH];
    intros B kr ke s; cbn [finish seg]; try reflexivity.
  - destruct (perform op s) as [x s']. apply IH.
  - apply IH.
  - apply IH.
Qed.

Lemma seg_bind {A B} (p : Prog A) (k : A -> Prog B) (s : Sys) :
  seg (bind p k) s =
  match seg p s with
  | (Done a, s') => seg (k a) s'
  | (Failed e, s') => (Failed e, s')
  | (Suspended b, s') => (Suspended (finish_blocked b k Throw), s')
  end.
Proof. unfold bind. rewrite seg_finish. destruct (seg p s) as [[a|e|b] s']; reflexivity. Qed.

Lemma seg_try_catch {A} (p : Prog A) (h : Thrown -> Prog A) (s : Sys) :
  seg (try_catch p h) s =
  match seg p s with
  | (Done a, s') => (Done a, s')
  | (Failed e, s') => seg (h e) s'
  | (Suspended b, s') => (Suspended (finish_blocked b Ret h), s')
  end.
Proof. unfold try_catch. rewrite seg_finish. destruct (seg p s) as [[a|e|b] s']; reflexivity. Qed.

Lemma set_has_allowed (protocol : string) :
  set_has ALLOWED_PROTOCOLS protocol = true <->
  protocol = "chrome-extension:" \/ protocol = "moz-extension:" \/
  protocol = "safari-extension:".
Proof.
  unfold set_has, ALLOWED_PROTOCOLS. cbn [existsb].
  rewrite !orb_true_iff, !String.eqb_eq. intuition discriminate.
Qed.

Lemma extension_ui_pageb_spec (e : Env) :
  extension_ui_pageb e = true <-> extension_ui_page e.
Proof.
  unfold extension_ui_pageb, extension_ui_page.
  rewrite !andb_true_iff. destruct (location_protocol e) as [protocol|].
  - rewrite set_has_allowed. split.
    + intros [[Hw Hd] Hp]. repeat split; try assumption. exists protocol. now split.
    + intros (Hw & Hd & q & Hq & Hp). injection Hq as <-. tauto.
  - split.
    + intros [_ H]. discriminate H.
    + intros (_ & _ & q & Hq & _). discriminate Hq.
Qed.

Lemma seg_isExtensionUiContext (s : Sys) :
  seg isExtensionUiContext s = (Done (extension_ui_pageb (env (platform s))), s).
Proof.
  unfold isExtensionUiContext, extension_ui_pageb. cbn.
  destruct (has_window (env (platform s))), (has_document (env (platform s)));
    cbn; try reflexivity.
  destruct (location_protocol (env (platform s))); reflexivity.
Qed.

(* ===================================================================== *)
(** * Subscribing ([onStatusChanged]) *)
(* ===================================================================== *)

(** Subscribing returns at once; it starts no task and registers nothing
    with the platform. *)
Lemma onStatusChanged_returns (handler : Handler) (s : Sys) :
  exists s1, seg (onStatusChanged handler) s = (Done tt, s1) /\
             pool s1 = pool s /\ registered s1 = registered s.
Proof.
  unfold onStatusChanged. cbn.
  destruct (currentStatus (client s)) as [current|]; cbn.
  - destruct (handler_outcome (platform s) handler) as [e|[]];
      eexists; (split; [reflexivity|split; reflexivity]).
  - eexists; (split; [reflexivity|split; reflexivity]).
Qed.

Lemma run_from_settled {A} (others : nat -> Sys -> Sys) (fuel n : nat) (o : Outcome A * Sys) :
  settled (fst o) -> run_from others fuel n o = o.
Proof. destruct fuel, o as [[a|e|b] s]; cbn; intros H; try reflexivity; elim H. Qed.

(** Once a run has ended, more fuel changes nothing. *)
Lemma run_from_enough {A} (others : nat -> Sys -> Sys) (n : nat) :
  forall (i : nat) (o r : Outcome A * Sys),
    run_from others n i o = r -> settled (fst r) ->
    forall fuel, (n <= fuel)%nat -> run_from others fuel i o = r.
Proof.
  induction n as [|n IH]; intros i o r Hrun Hr fuel Hfuel.
  - cbn in Hrun. subst r. apply run_from_settled. exact Hr.
  - destruct fuel as [|fuel]; [lia|]. cbn [run_from] in *.
    destruct o as [[a|e|b] s]; try exact Hrun.
    destruct (resume_blocked b (others i s)) as [o'|].
    + apply (IH (S i) o' r Hrun Hr). lia.
    + exact Hrun.
Qed.

Lemma run_enough {A} (others : nat -> Sys -> Sys) (n : nat) (p : Prog A) (s : Sys)
    (r : Outcome A * Sys) :
  run others n p s = r -> settled (fst r) ->
  forall fuel, (n <= fuel)%nat -> run others fuel p s = r.
Proof. unfold run. apply run_from_enough. Qed.

(** C10. [onStatusChanged handler] adds the handler to the registry and,
    when the in-memory status is present, calls it once on the spot with
    that status, no previous status and the diff
    [{entitlementChanged: true, planChanged: plan != null, usageChanged: false}],
    whatever the usage of the status is; the call returns normally also when
    the handler throws.  When the in-memory status is absent the handler is
    only added. *)
Theorem onStatusChanged_calls_new_subscriber (handler : Handler) (s : Sys) :
  seg (onStatusChanged handler) s =
  (Done tt,
   let s1 := with_client (fun c => set_handlers (set_add handler (handlers c)) c) s in
   match currentStatus (client s) with
   | Some current =>
       log (EvHandler handler current None
              {| entitlementChanged := true;
                 planChanged := present (plan current);
                 usageChanged := false |}) s1
   | None => s1
   end).
Proof.
  unfold onStatusChanged. cbn.
  destruct (currentStatus (client s)) as [current|]; cbn; [|reflexivity].
  destruct (handler_outcome (platform s) handler) as [e|[]]; reflexivity.
Qed.

(* ===================================================================== *)
(** * AutoSync activation and scheduling *)
(* ===================================================================== *)

Lemma activateAutoSync_refused (state : AutoSyncState) (doRefresh : RefreshFn)
    (updateState : UpdateStateFn) (s : Sys) :
  enabled state = false \/ activated state = true \/
  extension_ui_pageb (env (platform s)) = false ->
  seg (activateAutoSync state doRefresh updateState) s = (Done tt, s).
Proof.
  intros H. unfold activateAutoSync.
  destruct (enabled state); [|reflexivity].
  destruct (activated state); [reflexivity|].
  cbn [negb]. rewrite seg_bind, seg_isExtensionUiContext.
  destruct H as [H|[H|H]]; try discriminate H.
  rewrite H. reflexivity.
Qed.

Lemma seg_updateAutoSyncState (updates : AutoSyncUpdates) (s : Sys) :
  seg (updateAutoSyncState updates) s =
  (Done tt,
   with_client (fun c => set_autoSyncState (spread_updates (autoSyncState c) updates) c) s).
Proof. reflexivity. Qed.

Lemma seg_scheduleRefresh (state : AutoSyncState) (doRefresh : RefreshFn) (s : Sys) :
  seg (scheduleRefresh state doRefresh updateAutoSyncState) s =
  (Done tt, after_scheduleRefresh state doRefresh s).
Proof.
  unfold scheduleRefresh, after_scheduleRefresh, scheduled_delay, without_timer, canRefresh.
  rewrite Z.ltb_antisym.
  destruct (debounceTimer state) as [t|]; cbn;
    rewrite Z.geb_leb;
    destruct (minIntervalMs (options state) <=? clock (platform s) - lastRefreshAt state);
    reflexivity.
Qed.

(** A [try] whose [catch] block returns never fails, however long it runs
    and whatever happens while it is suspended. *)
Lemma try_catch_never_fails {A} (others : nat -> Sys -> Sys) (h : Thrown -> Prog A) :
  (forall e s, failed (fst (seg (h e) s)) = false /\ settled (fst (seg (h e) s))) ->
  forall fuel n (p : Prog A) s,
    failed (fst (run_from others fuel n (seg (try_catch p h) s))) = false.
Proof.
  intros Hh. induction fuel as [|fuel IH]; intros n p s; rewrite seg_try_catch.
  - cbn [run_from]. destruct (seg p s) as [[a|e|b] s']; try reflexivity. apply Hh.
  - destruct (seg p s) as [[a|e|b] s'].
    + reflexivity.
    + rewrite run_from_settled by apply Hh. apply Hh.
    + cbn [run_from]. destruct b as [X req k|k|q k]; cbn [finish_blocked resume_blocked].
      * destruct (respond req (others n s')) as [x s'']. apply (IH (S n) (k x) s'').
      * apply (IH (S n) k).
      * destruct (promise_state q (others n s')); [reflexivity| |]; apply (IH (S n) (k _)).
Qed.

Lemma count_registered_without_timer (f : CbKind -> bool) (t : TimerId) (rs : list Registered) :
  (forall d, f (KTimeout d) = false) ->
  List.length (filter (fun r => f (reg_kind r)) (filter (fun r => negb (is_timer t r)) rs)) =
  List.length (filter (fun r => f (reg_kind r)) rs).
Proof.
  intros Hf. induction rs as [|r rs IH]; [reflexivity|].
  cbn [filter]. unfold is_timer at 1.
  destruct (reg_kind r) eqn:Hk; cbn [negb filter]; rewrite ?Hk, ?Hf;
    try (destruct (f _) eqn:Hfk; cbn [List.length]; now rewrite IH).
  destruct (Nat.eqb (reg_id r) t); cbn [negb filter]; rewrite ?Hk, ?Hf; exact IH.
Qed.

(** C8. [activateAutoSync] moves the client's AutoSync state from inactive
    to active only when the state it is given is enabled and not yet
    activated and the execution context is an extension UI page ([window]
    and [document] defined and [location.protocol] one of
    [chrome-extension:], [moz-extension:], [safari-extension:]); in any
    other execution context it changes nothing: no listener is attached and
    [activated] stays false. *)
Theorem activateAutoSync_needs_ui_page (state : AutoSyncState) (doRefresh : RefreshFn) (s : Sys) :
  activated (autoSyncState (client s)) = false ->
  let r := seg (activateAutoSync state doRefresh updateAutoSyncState) s in
  fst r = Done tt /\
  (activated (autoSyncState (client (snd r))) = true <->
     enabled state = true /\ activated state = false /\
     extension_ui_page (env (platform s))) /\
  (~ extension_ui_page (env (platform s)) -> snd r = s) /\
  count_registered is_kind_dom (snd r) =
    (count_registered is_kind_dom s +
     if (enabled state && negb (activated state) &&
         extension_ui_pageb (env (platform s)))%bool
     then dom_listeners_of (options state) else 0)%nat.
Proof.
  intros Hinactive r. subst r.
  rewrite <- extension_ui_pageb_spec.
  destruct (enabled state) eqn:He; cycle 1.
  { rewrite activateAutoSync_refused by (left; exact He). cbn [fst snd andb].
    rewrite Hinactive, Nat.add_0_r. intuition discriminate. }
  destruct (activated state) eqn:Ha.
  { rewrite activateAutoSync_refused by (right; left; exact Ha). cbn [fst snd andb negb].
    rewrite Hinactive, Nat.add_0_r. intuition discriminate. }
  destruct (extension_ui_pageb (env (platform s))) eqn:Hui; cycle 1.
  { rewrite activateAutoSync_refused by (right; right; exact Hui). cbn [fst snd andb negb].
    rewrite Hinactive, Nat.add_0_r. intuition discriminate. }
  cbn [andb negb].
  unfold activateAutoSync. rewrite He, Ha. cbn [negb].
  rewrite seg_bind, seg_isExtensionUiContext, Hui. cbn [negb].
  unfold setupAutoSyncListeners.
  rewrite !seg_bind, seg_isExtensionUiContext, Hui. cbn [negb].
  unfold dom_listeners_of, count_registered.
  destruct (refreshOnFocus (options state)), (refreshOnOnline (options state)),
    (refreshOnInit (options state));
    cbn -[scheduleRefresh filter Nat.add]; rewrite ?seg_scheduleRefresh;
    unfold after_scheduleRefresh, without_timer;
    destruct (debounceTimer state) as [t|];
    cbn -[filter Nat.add];
    rewrite ?filter_app, ?length_app, ?count_registered_without_timer by reflexivity;
    cbn; (split; [reflexivity|]); (split; [intuition congruence|]);
    (split; [intros H; now elim H|]); lia.
Qed.

Lemma activateAutoSync_needs_ui_page_witness :
  activated (autoSyncState (client (boot (platform_at web_page_env 1000 (inr free_status))))) = false /\
  let s := boot (platform_at web_page_env 1000 (inr free_status)) in
  let r := seg (activateAutoSync (autoSyncState initialClient) autoSyncRefresh
                  updateAutoSyncState) s in
  fst r = Done tt /\
  (activated (autoSyncState (client (snd r))) = true <->
     enabled (autoSyncState initialClient) = true /\
     activated (autoSyncState initialClient) = false /\
     extension_ui_page (env (platform s))) /\
  (~ extension_ui_page (env (platform s)) -> snd r = s) /\
  count_registered is_kind_dom (snd r) =
    (count_registered is_kind_dom s +
     if (enabled (autoSyncState initialClient) &&
         negb (activated (autoSyncState initialClient)) &&
         extension_ui_pageb (env (platform s)))%bool
     then dom_listeners_of (options (autoSyncState initialClient)) else 0)%nat.
Proof.
  split; [reflexivity|].
  apply (activateAutoSync_needs_ui_page (autoSyncState initialClient) autoSyncRefresh
           (boot (platform_at web_page_env 1000 (inr free_status)))).
  reflexivity.
Defined.

(** One call of [scheduleRefresh], as a function of the state object it is
    given: it cancels the timer recorded in that object and registers one
    new timer, recording it in the client's state.  When less than
    [minIntervalMs] has passed since the [lastRefreshAt] of that object the
    new timer waits [minIntervalMs] minus the elapsed time; otherwise it
    waits [debounceMs].  The timer's callback is [executeRefresh], which
    first sets the client's [lastRefreshAt] to the current time (and clears
    [debounceTimer]), then calls the refresh function, and never fails,
    whatever the refresh function does. *)
Theorem scheduleRefresh_debounces_and_rate_limits (state : AutoSyncState)
    (doRefresh : RefreshFn) (s : Sys) :
  let now := clock (platform s) in
  let elapsed := now - lastRefreshAt state in
  let limited := elapsed <? minIntervalMs (options state) in
  let delay :=
    if limited then minIntervalMs (options state) - elapsed
    else debounceMs (options state) in
  let timer :=
    {| reg_id := next_id s; reg_at := now; reg_kind := KTimeout delay;
       reg_cb := refresh_timer_callback doRefresh updateAutoSyncState |} in
  let r := seg (scheduleRefresh state doRefresh updateAutoSyncState) s in
  fst r = Done tt /\
  registered (snd r) =
    match debounceTimer state with
    | Some pending => filter (fun r => negb (is_timer pending r)) (registered s)
    | None => registered s
    end ++ [timer] /\
  debounceTimer (autoSyncState (client (snd r))) = Some (next_id s) /\
  timer_due timer =
    Some (if limited then lastRefreshAt state + minIntervalMs (options state)
          else now + Z.max 0 (debounceMs (options state))) /\
  (forall s0 : Sys,
     seg (refresh_timer_callback doRefresh updateAutoSyncState tt) s0 =
     seg (spawn (executeRefresh doRefresh updateAutoSyncState) ;; Ret tt) s0 /\
     seg (executeRefresh doRefresh updateAutoSyncState) s0 =
     seg (try_catch (p <- doRefresh ;; await_promise p) (fun _ => Ret tt))
       (with_client
          (fun c => set_autoSyncState
                      (spread_updates (autoSyncState c) (mark_refreshed (clock (platform s0)))) c)
          s0)) /\
  (forall (others : nat -> Sys -> Sys) (fuel : nat) (s0 : Sys),
     failed (fst (run others fuel (executeRefresh doRefresh updateAutoSyncState) s0)) = false).
Proof.
  intros now elapsed limited delay timer r. subst r.
  rewrite seg_scheduleRefresh. unfold after_scheduleRefresh, without_timer.
  split; [reflexivity|]. split.
  { destruct (debounceTimer state); reflexivity. }
  split.
  { destruct (debounceTimer state); reflexivity. }
  split.
  { unfold timer_due, timer, delay. cbn [timer_delay reg_kind reg_at]. f_equal.
    subst limited. destruct (Z.ltb_spec elapsed (minIntervalMs (options state))); [|reflexivity].
    subst elapsed now. lia. }
  split.
  { intros s0. split; reflexivity. }
  intros others fuel s0. unfold run, executeRefresh.
  cbn [bind finish act seg perform updateAutoSyncState].
  apply try_catch_never_fails. intros e s1. split; exact I || reflexivity.
Qed.


(* ===================================================================== *)
(** * Background status tracking *)
(* ===================================================================== *)

Lemma enableBackgroundStatusTracking_again (opts : option BackgroundTrackingOptions) (s : Sys) :
  backgroundTrackingEnabled (client s) = true ->
  seg (enableBackgroundStatusTracking opts) s = (Done tt, s).
Proof.
  intros H. unfold enableBackgroundStatusTracking. cbn. rewrite H. reflexivity.
Qed.

Lemma enableBackgroundStatusTracking_repeated
    (more : list (option BackgroundTrackingOptions)) (s : Sys) :
  backgroundTrackingEnabled (client s) = true ->
  calls (map enableBackgroundStatusTracking more) s = s.
Proof.
  intros H. induction more as [|opts more IH]; [reflexivity|].
  cbn [map calls fold_left]. unfold call at 2.
  rewrite enableBackgroundStatusTracking_again by exact H. exact IH.
Qed.

(** C9, as the code has it.  The first [enableBackgroundStatusTracking] of
    a client sets the guard flag, registers the checkout-return message
    listener where [chrome.runtime.onMessage] exists and the alarm handler
    where [chrome.alarms.create] and [chrome.alarms.onAlarm] exist, and
    starts one warm-up refresh; every later call changes nothing.  So after
    any number of calls there is one message listener where the platform
    has the capability and none where it has not, and likewise one or no
    alarm handler. *)
Theorem enableBackgroundStatusTracking_registers_at_most_once
    (p : Platform) (first : option BackgroundTrackingOptions)
    (more : list (option BackgroundTrackingOptions)) :
  let s1 := call (enableBackgroundStatusTracking first) (boot p) in
  let sn := calls (map enableBackgroundStatusTracking more) s1 in
  backgroundTrackingEnabled (client s1) = true /\
  count_registered is_kind_message s1 = (if has_onMessage (env p) then 1 else 0)%nat /\
  count_registered is_kind_alarm s1 = (if has_alarms (env p) then 1 else 0)%nat /\
  fetches s1 = 1%nat /\
  sn = s1.
Proof.
  intros s1 sn.
  assert (H1 : backgroundTrackingEnabled (client s1) = true /\
               count_registered is_kind_message s1 = (if has_onMessage (env p) then 1 else 0)%nat /\
               count_registered is_kind_alarm s1 = (if has_alarms (env p) then 1 else 0)%nat /\
               fetches s1 = 1%nat).
  { subst s1. unfold call, has_onMessage, has_alarms.
    destruct p as [e now vis sa la se le fo ho ao]. cbn [env].
    destruct e as [[[st [[om]|] [[cr oa]|]]|] w d lp];
      try destruct om; try destruct cr; try destruct oa; destruct ao as [err|[]];
      repeat split; reflexivity. }
  destruct H1 as (Hflag & Hm & Ha & Hf).
  repeat split; try assumption.
  subst sn. apply enableBackgroundStatusTracking_repeated. exact Hflag.
Qed.

(** The statement of C9 without the capability condition fails: in a
    service worker of an extension that lacks the "alarms" permission,
    two calls leave no alarm handler registered. *)
Lemma enableBackgroundStatusTracking_without_alarms :
  let p := platform_at service_worker_without_alarms_env 0 (inr free_status) in
  let s := calls [enableBackgroundStatusTracking None; enableBackgroundStatusTracking None]
             (boot p) in
  backgroundTrackingEnabled (client s) = true /\
  count_registered is_kind_message s = 1%nat /\
  count_registered is_kind_alarm s <> 1%nat.
Proof. repeat split. discriminate. Qed.

(* ===================================================================== *)
(** * Who calls the handlers *)
(* ===================================================================== *)

Lemma quiet_finish {A B} (p : Prog A) (kr : A -> Prog B) (ke : Thrown -> Prog B) :
  quiet p -> (forall a, quiet (kr a)) -> (forall e, quiet (ke e)) ->
  quiet (finish p kr ke).
Proof.
  intros Hp Hr He. induction Hp; cbn [finish]; try (constructor; auto); auto.
Qed.

Lemma quiet_bind {A B} (p : Prog A) (k : A -> Prog B) :
  quiet p -> (forall a, quiet (k a)) -> quiet (bind p k).
Proof. intros. apply quiet_finish; auto. constructor. Qed.

Lemma quiet_try_catch {A} (p : Prog A) (h : Thrown -> Prog A) :
  quiet p -> (forall e, quiet (h e)) -> quiet (try_catch p h).
Proof. intros. apply quiet_finish; auto. constructor. Qed.

Lemma quiet_try_finally {A} (p : Prog A) (f : Prog unit) :
  quiet p -> quiet f -> quiet (try_finally p f).
Proof.
  intros. apply quiet_finish; auto; intros; apply quiet_bind; auto; constructor.
Qed.

Lemma quiet_await {A} (p : Prog A) : quiet p -> quiet (await p).
Proof. intros. apply quiet_finish; auto; intros; repeat constructor. Qed.

Lemma quiet_act {X} (op : Op X) : calls_no_handler op -> quiet (act op).
Proof. intros. constructor; auto. constructor. Qed.

Lemma quiet_io {X} (req : IOReq X) : quiet (io req).
Proof. constructor. constructor. Qed.

Lemma quiet_rethrow {A} (r : Thrown + A) : quiet (rethrow r).
Proof. destruct r; constructor. Qed.

Create HintDb quiet.
#[local] Hint Resolve quiet_bind quiet_try_catch quiet_try_finally quiet_await
  quiet_act quiet_io quiet_rethrow : quiet.
#[local] Hint Constructors quiet : quiet.
#[local] Hint Extern 1 (calls_no_handler _) => exact I : quiet.

Ltac quiet_step :=
  match goal with
  | |- forall _, _ => intro
  | |- quiet (match ?x with _ => _ end) => destruct x
  | |- quiet (if ?x then _ else _) => destruct x
  | |- quiet (bind _ _) => apply quiet_bind
  | |- quiet (try_catch _ _) => apply quiet_try_catch
  | |- quiet (try_finally _ _) => apply quiet_try_finally
  | |- quiet (await _) => apply quiet_await
  | |- quiet (act _) => apply quiet_act; exact I
  | |- quiet (io _) => apply quiet_io
  | |- quiet (rethrow _) => apply quiet_rethrow
  | |- quiet (spawn _) => apply quiet_Spawn
  | |- quiet (register _ _) => apply quiet_Register; [reflexivity| |]
  | |- quiet (await_promise _) => apply quiet_Join
  | |- quiet (Ret _) => constructor
  | |- quiet (Throw _) => constructor
  | |- quiet _ => assumption
  end.

Ltac quiet_auto := repeat quiet_step.

Lemma quiet_isChromeStorageAvailable : quiet isChromeStorageAvailable.
Proof. unfold isChromeStorageAvailable. quiet_auto. Qed.

Lemma quiet_isSessionStorageAvailable : quiet isSessionStorageAvailable.
Proof. unfold isSessionStorageAvailable. quiet_auto. Qed.

Lemma quiet_getFromLocalStorage {T} (key : Key T) : quiet (getFromLocalStorage key).
Proof.
  unfold getFromLocalStorage. pose proof quiet_isChromeStorageAvailable. quiet_auto.
Qed.

Lemma quiet_setInLocalStorage {T} (key : Key T) (v : T) : quiet (setInLocalStorage key v).
Proof.
  unfold setInLocalStorage. pose proof quiet_isChromeStorageAvailable. quiet_auto.
Qed.

Lemma quiet_getFromBestStorage {T} (key : Key T) : quiet (getFromBestStorage key).
Proof.
  unfold getFromBestStorage.
  pose proof quiet_isChromeStorageAvailable. pose proof quiet_isSessionStorageAvailable.
  pose proof (quiet_getFromLocalStorage key). quiet_auto.
Qed.

Lemma quiet_setInBestStorage {T} (key : Key T) (v : T) : quiet (setInBestStorage key v).
Proof.
  unfold setInBestStorage.
  pose proof quiet_isChromeStorageAvailable. pose proof quiet_isSessionStorageAvailable.
  pose proof (quiet_setInLocalStorage key v). quiet_auto.
Qed.

Lemma quiet_loadCachedStatus : quiet loadCachedStatus.
Proof.
  unfold loadCachedStatus. pose proof (quiet_getFromBestStorage STATUS_CACHE_KEY). quiet_auto.
Qed.

Lemma quiet_saveCachedStatus (st : UserStatus) : quiet (saveCachedStatus st).
Proof.
  unfold saveCachedStatus.
  pose proof (fun c => quiet_setInBestStorage STATUS_CACHE_KEY c). quiet_auto. auto.
Qed.

Lemma quiet_fetchStatus : quiet fetchStatus.
Proof. unfold fetchStatus. quiet_auto. Qed.

Lemma quiet_doRefresh : quiet doRefresh.
Proof.
  unfold doRefresh. pose proof quiet_fetchStatus. pose proof quiet_saveCachedStatus.
  quiet_auto. auto.
Qed.

Lemma quiet_refresh : quiet refresh.
Proof. unfold refresh. pose proof quiet_doRefresh. quiet_auto. Qed.

Lemma quiet_autoSyncRefresh_job : quiet autoSyncRefresh_job.
Proof. unfold autoSyncRefresh_job. pose proof quiet_doRefresh. quiet_auto. Qed.

Lemma quiet_autoSyncRefresh : quiet autoSyncRefresh.
Proof.
  unfold autoSyncRefresh. pose proof quiet_autoSyncRefresh_job. quiet_auto.
Qed.

Lemma quiet_schedulePaidSWRRevalidate_job : quiet schedulePaidSWRRevalidate_job.
Proof.
  unfold schedulePaidSWRRevalidate_job.
  pose proof (quiet_getFromBestStorage LAST_SWR_AT_KEY).
  pose proof (fun v => quiet_setInBestStorage LAST_SWR_AT_KEY v).
  pose proof quiet_autoSyncRefresh. quiet_auto. auto.
Qed.

Lemma quiet_schedulePaidSWRRevalidate : quiet schedulePaidSWRRevalidate.
Proof.
  unfold schedulePaidSWRRevalidate. pose proof quiet_schedulePaidSWRRevalidate_job.
  quiet_auto.
Qed.

Lemma quiet_checkoutReturnListener (msg : Message) : quiet (checkoutReturnListener msg).
Proof. unfold checkoutReturnListener. pose proof quiet_autoSyncRefresh. quiet_auto. Qed.

Lemma quiet_trackingAlarmListener (alarm : Alarm) : quiet (trackingAlarmListener alarm).
Proof. unfold trackingAlarmListener. pose proof quiet_autoSyncRefresh. quiet_auto. Qed.

Lemma quiet_enableBackgroundStatusTracking (opts : option BackgroundTrackingOptions) :
  quiet (enableBackgroundStatusTracking opts).
Proof.
  unfold enableBackgroundStatusTracking.
  pose proof quiet_autoSyncRefresh. pose proof quiet_checkoutReturnListener.
  pose proof quiet_trackingAlarmListener. quiet_auto; auto.
Qed.

Lemma quiet_getUser (opts : option GetUserOptions) : quiet (getUser opts).
Proof.
  unfold getUser.
  pose proof quiet_doRefresh. pose proof quiet_loadCachedStatus.
  pose proof quiet_schedulePaidSWRRevalidate. quiet_auto.
Qed.

Lemma quiet_updateAutoSyncState (updates : AutoSyncUpdates) :
  quiet (updateAutoSyncState updates).
Proof. unfold updateAutoSyncState. quiet_auto. Qed.

Lemma quiet_unsubscribe (handler : Handler) : quiet (unsubscribe handler).
Proof. unfold unsubscribe. quiet_auto. Qed.

Section QuietAutoSync.
Variable doRefresh : RefreshFn.
Variable updateState : UpdateStateFn.
Hypothesis quiet_doRefresh_given : quiet doRefresh.
Hypothesis quiet_updateState_given : forall updates, quiet (updateState updates).

Lemma quiet_executeRefresh : quiet (executeRefresh doRefresh updateState).
Proof. unfold executeRefresh. quiet_auto. apply quiet_updateState_given. Qed.

Lemma quiet_refresh_timer_callback (u : unit) :
  quiet (refresh_timer_callback doRefresh updateState u).
Proof. unfold refresh_timer_callback. pose proof quiet_executeRefresh. quiet_auto. Qed.

Lemma quiet_scheduleRefresh (state : AutoSyncState) :
  quiet (scheduleRefresh state doRefresh updateState).
Proof.
  unfold scheduleRefresh, canRefresh.
  pose proof quiet_refresh_timer_callback.
  quiet_auto; auto.
Qed.

Lemma quiet_setupAutoSyncListeners (state : AutoSyncState) :
  quiet (setupAutoSyncListeners state doRefresh updateState).
Proof.
  unfold setupAutoSyncListeners, isExtensionUiContext.
  pose proof (quiet_scheduleRefresh state). quiet_auto.
Qed.

Lemma quiet_activateAutoSync (state : AutoSyncState) :
  quiet (activateAutoSync state doRefresh updateState).
Proof.
  unfold activateAutoSync.
  pose proof (quiet_scheduleRefresh state). pose proof (quiet_setupAutoSyncListeners state).
  unfold isExtensionUiContext. quiet_auto. apply quiet_updateState_given.
Qed.
End QuietAutoSync.

Lemma same_notifications_refl (s : Sys) : same_notifications s s.
Proof. split; reflexivity. Qed.

Lemma same_notifications_trans (s1 s2 s3 : Sys) :
  same_notifications s1 s2 -> same_notifications s2 s3 -> same_notifications s1 s3.
Proof. intros [H1 H2] [H3 H4]. split; congruence. Qed.

Lemma handler_calls_log (e : Event) (s : Sys) :
  is_handler_call e = false -> handler_calls (log e s) = handler_calls s.
Proof.
  intros H. unfold handler_calls, log. cbn [trace].
  rewrite filter_app. cbn [filter]. rewrite H. apply app_nil_r.
Qed.

Lemma storage_listeners_without_timer (t : TimerId) (rs : list Registered) :
  filter (fun r => is_kind_storage (reg_kind r)) (filter (fun r => negb (is_timer t r)) rs) =
  filter (fun r => is_kind_storage (reg_kind r)) rs.
Proof.
  induction rs as [|r rs IH]; [reflexivity|].
  cbn [filter]. unfold is_timer at 1.
  destruct (reg_kind r) eqn:Hk; cbn [negb filter]; rewrite ?Hk; cbn [is_kind_storage];
    try (now rewrite IH).
  destruct (Nat.eqb (reg_id r) t); cbn [negb filter]; rewrite ?Hk; cbn [is_kind_storage];
    exact IH.
Qed.

Lemma perform_quiet {X} (op : Op X) (s : Sys) :
  calls_no_handler op -> all_quiet s ->
  all_quiet (snd (perform op s)) /\ same_notifications s (snd (perform op s)).
Proof.
  intros Hop [Hpool Hreg].
  destruct op; cbn [perform snd]; try elim Hop;
    unfold all_quiet, same_notifications, storage_listeners;
    rewrite ?handler_calls_log by reflexivity;
    cbn [with_client log with_registered pool registered];
    try (repeat split; assumption || reflexivity).
  repeat split; try assumption; try reflexivity.
  - apply Forall_forall. intros r Hr.
    apply filter_In in Hr. destruct Hr as [Hr _].
    revert r Hr. apply Forall_forall. exact Hreg.
  - apply storage_listeners_without_timer.
Qed.

Lemma issue_quiet {X} (req : IOReq X) (s : Sys) :
  all_quiet s -> all_quiet (issue req s) /\ same_notifications s (issue req s).
Proof.
  intros H. destruct req; cbn [issue];
    (split; [exact H | split; [apply handler_calls_log; reflexivity | reflexivity]]).
Qed.

Lemma respond_quiet {X} (req : IOReq X) (s : Sys) :
  all_quiet s ->
  all_quiet (snd (respond req s)) /\ same_notifications s (snd (respond req s)).
Proof.
  intros H. destruct req; cbn [respond];
    try destruct (area_lastError a (platform s)); cbn [snd];
    try (split; [exact H | apply same_notifications_refl]).
  split; [exact H|]. split; [|reflexivity].
  unfold handler_calls. cbn [post_change log with_platform trace].
  rewrite filter_app. cbn [filter is_handler_call]. apply app_nil_r.
Qed.

Lemma complete_quiet (p : Promise) (o : Outcome unit) (s : Sys) :
  quiet_outcome o -> all_quiet s ->
  all_quiet (complete p (o, s)) /\ same_notifications s (complete p (o, s)).
Proof.
  intros Ho [Hpool Hreg]. destruct o as [a|e|b]; cbn [complete];
    try (split; [split; assumption | split; reflexivity]).
  split; [|split; reflexivity].
  split; [|exact Hreg]. cbn [park with_pool pool].
  apply Forall_app. split; [exact Hpool|]. constructor; [exact Ho|constructor].
Qed.

(** Running a quiet program calls no handler and leaves what is pending
    quiet. *)
Lemma seg_quiet {A} (p : Prog A) :
  quiet p ->
  forall s, all_quiet s ->
    all_quiet (snd (seg p s)) /\ same_notifications s (snd (seg p s)) /\
    quiet_outcome (fst (seg p s)).
Proof.
  induction 1 as [A a|A e|A X op k Hop Hk IH|A X req k Hk IH|A k Hk IH
                 |A body k Hbody IHbody Hk IH|A q k Hk IH|A kind cb k Hkind Hcb IHcb Hk IH];
    intros s Hs; cbn [seg fst snd].
  - split; [exact Hs | split; [apply same_notifications_refl | exact I]].
  - split; [exact Hs | split; [apply same_notifications_refl | exact I]].
  - destruct (perform_quiet op s Hop Hs) as [Hs' Hsame].
    destruct (perform op s) as [x s']. cbn [snd] in Hs', Hsame.
    destruct (IH x s' Hs') as (H1 & H2 & H3).
    split; [exact H1 | split; [|exact H3]].
    eapply same_notifications_trans; eauto.
  - destruct (issue_quiet req s Hs) as [Hs' Hsame].
    split; [exact Hs' | split; [exact Hsame | exact Hk]].
  - split; [exact Hs | split; [apply same_notifications_refl | exact Hk]].
  - set (s1 := with_promises (promises s ++ [Pending]) s).
    assert (Hs1 : all_quiet s1) by exact Hs.
    destruct (IHbody s1 Hs1) as (Hb1 & Hb2 & Hb3).
    destruct (seg body s1) as [o s2]. cbn [fst snd] in Hb1, Hb2, Hb3.
    destruct (complete_quiet (List.length (promises s)) o s2 Hb3 Hb1) as [Hc1 Hc2].
    destruct (IH (List.length (promises s)) _ Hc1) as (H1 & H2 & H3).
    split; [exact H1 | split; [|exact H3]].
    eapply same_notifications_trans; [|exact H2].
    eapply same_notifications_trans; [|exact Hc2]. exact Hb2.
  - split; [exact Hs | split; [apply same_notifications_refl | exact Hk]].
  - assert (Hs' : all_quiet (add_registered kind cb s)).
    { destruct Hs as [Hpool Hreg]. split; [exact Hpool|].
      cbn [add_registered registered]. apply Forall_app. split; [exact Hreg|].
      constructor; [|constructor]. intros _. exact Hcb. }
    destruct (IH (next_id s) _ Hs') as (H1 & H2 & H3).
    split; [exact H1 | split; [|exact H3]].
    eapply same_notifications_trans; [|exact H2].
    split; [reflexivity|]. unfold storage_listeners. cbn [add_registered registered].
    rewrite filter_app. cbn [filter reg_kind]. rewrite Hkind. apply app_nil_r.
Qed.

Lemma resume_blocked_quiet {A} (b : Blocked A) (s : Sys) (o : Outcome A) (s' : Sys) :
  quiet_blocked b -> all_quiet s -> resume_blocked b s = Some (o, s') ->
  all_quiet s' /\ same_notifications s s' /\ quiet_outcome o.
Proof.
  intros Hb Hs Hr. destruct b as [X req k|k|q k]; cbn [resume_blocked quiet_blocked] in *.
  - destruct (respond_quiet req s Hs) as [Hs1 Hn1].
    destruct (respond req s) as [x s1]. cbn [snd] in Hs1, Hn1.
    destruct (seg_quiet (k x) (Hb x) s1 Hs1) as (H1 & H2 & H3).
    injection Hr as Hr. rewrite Hr in H1, H2, H3. cbn [fst snd] in H1, H2, H3.
    split; [exact H1 | split; [|exact H3]].
    eapply same_notifications_trans; eauto.
  - destruct (seg_quiet k Hb s Hs) as (H1 & H2 & H3).
    injection Hr as Hr. rewrite Hr in H1, H2, H3. auto.
  - destruct (promise_state q s); [discriminate Hr| |].
    + destruct (seg_quiet (k (inr tt)) (Hb _) s Hs) as (H1 & H2 & H3).
      injection Hr as Hr. rewrite Hr in H1, H2, H3. auto.
    + destruct (seg_quiet (k (inl e)) (Hb _) s Hs) as (H1 & H2 & H3).
      injection Hr as Hr. rewrite Hr in H1, H2, H3. auto.
Qed.

Lemma start_quiet (body : Prog unit) (s : Sys) :
  quiet body -> all_quiet s ->
  all_quiet (start body s) /\ same_notifications s (start body s).
Proof.
  intros Hb Hs. unfold start.
  assert (Hq : quiet (spawn body)) by (apply quiet_Spawn; [exact Hb | constructor]).
  destruct (seg_quiet (spawn body) Hq s Hs) as (H1 & H2 & _). auto.
Qed.

Lemma all_quiet_remove_nth (i : nat) (s : Sys) :
  all_quiet s -> all_quiet (with_pool (remove_nth i (pool s)) s).
Proof.
  intros [Hpool Hreg]. split; [|exact Hreg]. cbn [with_pool pool].
  revert i. induction Hpool as [|t ts Ht Hts IH]; intros [|i]; cbn [remove_nth];
    try constructor; auto.
Qed.

Lemma call_timer_quiet (r : Registered) (body : Prog unit) :
  quiet_registered r -> call_timer r = Some body -> quiet body.
Proof.
  destruct r as [id at_ kind cb]. unfold quiet_registered, call_timer. cbn [reg_kind reg_cb].
  destruct kind; intros Hq Hc; try discriminate Hc.
  injection Hc as <-. apply Hq. reflexivity.
Qed.

Lemma call_message_listener_quiet (m : Message) (r : Registered) (body : Prog unit) :
  quiet_registered r -> call_message_listener m r = Some body -> quiet body.
Proof.
  destruct r as [id at_ kind cb]. unfold quiet_registered, call_message_listener.
  cbn [reg_kind reg_cb].
  destruct kind; intros Hq Hc; try discriminate Hc.
  injection Hc as <-. unfold discard. apply quiet_bind; [apply Hq; reflexivity|].
  intros _. constructor.
Qed.

Lemma call_alarm_listener_quiet (a : Alarm) (r : Registered) (body : Prog unit) :
  quiet_registered r -> call_alarm_listener a r = Some body -> quiet body.
Proof.
  destruct r as [id at_ kind cb]. unfold quiet_registered, call_alarm_listener.
  cbn [reg_kind reg_cb].
  destruct kind; intros Hq Hc; try discriminate Hc.
  injection Hc as <-. apply Hq. reflexivity.
Qed.

Lemma call_dom_listener_quiet (t : Target) (ev : string) (r : Registered) (body : Prog unit) :
  quiet_registered r -> call_dom_listener t ev r = Some body -> quiet body.
Proof.
  destruct r as [id at_ kind cb]. unfold quiet_registered, call_dom_listener.
  cbn [reg_kind reg_cb].
  destruct kind; intros Hq Hc; try discriminate Hc.
  destruct (_ && _)%bool; [|discriminate Hc].
  injection Hc as <-. apply Hq. reflexivity.
Qed.

Lemma dispatch_quiet (kind_matches : CbKind -> bool)
    (call : Registered -> option (Prog unit)) (rs : list Registered) :
  (forall r body, quiet_registered r -> call r = Some body -> quiet body) ->
  Forall quiet_registered rs ->
  forall s, all_quiet s ->
    all_quiet (dispatch kind_matches call rs s) /\
    same_notifications s (dispatch kind_matches call rs s).
Proof.
  intros Hcall Hrs. induction Hrs as [|r rs Hr Hrs IH]; intros s Hs; cbn [dispatch].
  - split; [exact Hs | apply same_notifications_refl].
  - destruct (kind_matches (reg_kind r)); [|apply IH; exact Hs].
    destruct (call r) as [body|] eqn:Hc; [|apply IH; exact Hs].
    destruct (start_quiet body s (Hcall r body Hr Hc) Hs) as [H1 H2].
    destruct (IH _ H1) as [H3 H4].
    split; [exact H3|]. eapply same_notifications_trans; eauto.
Qed.

Lemma all_quiet_without_timer (t : TimerId) (s : Sys) :
  all_quiet s ->
  all_quiet (with_registered (filter (fun r => negb (is_timer t r)) (registered s)) s) /\
  same_notifications s
    (with_registered (filter (fun r => negb (is_timer t r)) (registered s)) s).
Proof.
  intros Hs.
  exact (perform_quiet (ClearTimeout t) s I Hs).
Qed.

Lemma step_quiet (l : Label) (s s' : Sys) :
  quiet_label l -> all_quiet s -> step l s = Some s' ->
  all_quiet s' /\ same_notifications s s'.
Proof.
  intros Hl Hs Hstep. destruct l as [i|body|t|c| |m|a|t ev|f]; cbn [step quiet_label] in *;
    try (exfalso; exact Hl).
  - destruct (nth_error (pool s) i) as [task|] eqn:Hnth; [|discriminate Hstep].
    destruct (resume_blocked _ _) as [[o s1]|] eqn:Hres; [|discriminate Hstep].
    injection Hstep as <-.
    assert (Hb : quiet_blocked (blocked task)).
    { destruct Hs as [Hpool _]. apply nth_error_In in Hnth.
      rewrite Forall_forall in Hpool. apply Hpool. exact Hnth. }
    destruct (resume_blocked_quiet _ _ _ _ Hb (all_quiet_remove_nth i s Hs) Hres)
      as (H1 & H2 & H3).
    destruct (complete_quiet (owner task) o s1 H3 H1) as [H4 H5].
    split; [exact H4|].
    eapply same_notifications_trans; [|exact H5].
    eapply same_notifications_trans; [|exact H2]. split; reflexivity.
  - injection Hstep as <-. apply start_quiet; assumption.
  - destruct (find (is_timer t) (registered s)) as [r|] eqn:Hfind; [|discriminate Hstep].
    destruct (timer_due r) as [due|]; [|discriminate Hstep].
    destruct (call_timer r) as [body|] eqn:Hcall; [|discriminate Hstep].
    destruct (due <=? clock (platform s)); [|discriminate Hstep].
    injection Hstep as <-.
    assert (Hq : quiet body).
    { apply (call_timer_quiet r); [|exact Hcall].
      destruct Hs as [_ Hreg]. apply find_some in Hfind. destruct Hfind as [Hin _].
      rewrite Forall_forall in Hreg. apply Hreg. exact Hin. }
    destruct (all_quiet_without_timer t s Hs) as [H1 H2].
    destruct (start_quiet body _ Hq H1) as [H3 H4].
    split; [exact H3|]. eapply same_notifications_trans; eauto.
  - injection Hstep as <-.
    apply dispatch_quiet; [apply call_message_listener_quiet | apply Hs | exact Hs].
  - injection Hstep as <-.
    apply dispatch_quiet; [apply call_alarm_listener_quiet | apply Hs | exact Hs].
  - injection Hstep as <-.
    apply dispatch_quiet; [apply call_dom_listener_quiet | apply Hs | exact Hs].
  - injection Hstep as <-. split; [exact Hs | split; reflexivity].
Qed.

Lemma steps_quiet (ls : list Label) :
  Forall quiet_label ls ->
  forall s s', all_quiet s -> steps ls s = Some s' ->
    all_quiet s' /\ same_notifications s s'.
Proof.
  induction 1 as [|l ls Hl Hls IH]; intros s s' Hs Hsteps; cbn [steps] in Hsteps.
  - injection Hsteps as <-. split; [exact Hs | apply same_notifications_refl].
  - destruct (step l s) as [s1|] eqn:Hstep; [|discriminate Hsteps].
    destruct (step_quiet l s s1 Hl Hs Hstep) as [H1 H2].
    destruct (IH s1 s' H1 Hsteps) as [H3 H4].
    split; [exact H3|]. eapply same_notifications_trans; eauto.
Qed.

Lemma log_all_nil (s : Sys) : log_all [] s = s.
Proof. destruct s. unfold log_all. cbn. now rewrite app_nil_r. Qed.

Lemma log_all_cons (e : Event) (evs : list Event) (s : Sys) :
  log_all (e :: evs) s = log_all evs (log e s).
Proof. unfold log_all, log. cbn. now rewrite <- app_assoc. Qed.

Lemma seg_notify_each (next : UserStatus) (prev : option UserStatus) (diff : StatusDiff)
    (hs : list Handler) (s : Sys) :
  seg (for_each hs (fun handler =>
         try_catch (call_handler handler next prev diff) (fun _ => Ret tt))) s =
  (Done tt, log_all (map (fun h => EvHandler h next prev diff) hs) s).
Proof.
  revert s. induction hs as [|h hs IH]; intros s; cbn [for_each map].
  - now rewrite log_all_nil.
  - rewrite seg_bind, log_all_cons.
    replace (seg (try_catch (call_handler h next prev diff) (fun _ => Ret tt)) s)
      with (@Done unit tt, log (EvHandler h next prev diff) s).
    + apply IH.
    + cbn. destruct (handler_outcome (platform s) h) as [e|[]]; reflexivity.
Qed.

(** [notifyHandlers] calls every registered handler, in registration order
    and whether or not an earlier one throws, unless a previous status
    exists and nothing changed. *)
Lemma seg_notifyHandlers (next : UserStatus) (prev : option UserStatus) (s : Sys) :
  seg (notifyHandlers next prev) s =
  (Done tt, log_all (notifications next prev (handlers (client s))) s).
Proof.
  unfold notifyHandlers, notifications.
  destruct (negb (is_null prev) && negb (hasAnyChange (computeStatusDiff prev next)))%bool.
  - cbn. now rewrite log_all_nil.
  - cbn [bind finish act seg perform]. apply seg_notify_each.
Qed.

(** The storage change listener: a change of the status cache key with a
    new value replaces the in-memory status and notifies with the event's
    old value as the previous status. *)
Lemma seg_storageStatusListener (changes : Changes) (s : Sys) :
  seg (storageStatusListener changes) s =
  (Done tt,
   match change_status_cache changes with
   | Some {| oldValue := old; newValue := Some cached |} =>
       log_all (notifications (status cached) (option_map status old) (handlers (client s)))
         (with_client (set_currentStatus (Some (status cached))) s)
   | _ => s
   end).
Proof.
  unfold storageStatusListener. cbn [changes_at].
  destruct (change_status_cache changes) as [[old [cached|]]|]; try reflexivity.
  cbn [newValue oldValue]. rewrite seg_bind. cbn [act seg perform].
  rewrite seg_notifyHandlers. reflexivity.
Qed.

Lemma attachStorageStatusListener_again (s : Sys) :
  storageListenerAttached (client s) = true ->
  seg attachStorageStatusListener s = (Done tt, s).
Proof. intros H. unfold attachStorageStatusListener. cbn. rewrite H. reflexivity. Qed.

Lemma created_listener (p : Platform) :
  all_quiet (created p) /\
  handler_calls (created p) = [] /\
  storage_listeners (created p) =
    if has_onChanged (env p)
    then [{| reg_id := 0; reg_at := clock p; reg_kind := KStorageChanged;
             reg_cb := storageStatusListener |}]
    else [].
Proof.
  unfold created, call, attachStorageStatusListener, has_onChanged. cbn.
  destruct (chrome_storage (env p)) as [[[] ss ll]|]; cbn;
    (split; [split; repeat constructor; discriminate |]); split; reflexivity.
Qed.

Lemma refresh_pipeline_entry_quiet (body : Prog unit) :
  refresh_pipeline_entry body -> quiet body.
Proof.
  destruct 1; unfold discard.
  - apply quiet_bind; [apply quiet_getUser | intros; constructor].
  - apply quiet_bind; [apply quiet_refresh | intros; constructor].
  - apply quiet_bind; [apply quiet_autoSyncRefresh | intros; constructor].
  - apply quiet_schedulePaidSWRRevalidate.
  - apply quiet_enableBackgroundStatusTracking.
  - apply quiet_activateAutoSync;
      [apply quiet_autoSyncRefresh | apply quiet_updateAutoSyncState].
  - apply quiet_scheduleRefresh;
      [apply quiet_autoSyncRefresh | apply quiet_updateAutoSyncState].
Qed.

Lemma pipeline_step_quiet (l : Label) : pipeline_step l -> quiet_label l.
Proof.
  destruct l; cbn; auto. apply refresh_pipeline_entry_quiet.
Qed.

Lemma start_returned (body : Prog unit) (s s1 : Sys) :
  seg body (with_promises (promises s ++ [Pending]) s) = (Done tt, s1) ->
  start body s = settle (List.length (promises s)) Fulfilled s1.
Proof. intros H. unfold start, spawn. cbn [seg]. rewrite H. reflexivity. Qed.

Lemma sound_same (s s' : Sys) :
  sound s -> all_quiet s' -> storage_listeners s' = storage_listeners s -> sound s'.
Proof. intros [_ H] Hq Heq. split; [exact Hq|]. rewrite Heq. exact H. Qed.

Lemma step_pipeline_sound (l : Label) (s s' : Sys) :
  pipeline_step l -> sound s -> step l s = Some s' ->
  sound s' /\ same_notifications s s'.
Proof.
  intros Hl Hs Hstep.
  destruct (step_quiet l s s' (pipeline_step_quiet l Hl) (proj1 Hs) Hstep) as [H1 H2].
  split; [|exact H2]. apply (sound_same s); [exact Hs | exact H1 | apply H2].
Qed.

(** Subscribing or unsubscribing starts nothing and registers nothing with
    the platform. *)
Lemma start_subscription_frame (body : Prog unit) (s : Sys) :
  (exists h, body = onStatusChanged h) \/ (exists h, body = unsubscribe h) ->
  pool (start body s) = pool s /\ registered (start body s) = registered s.
Proof.
  intros [[h ->]|[h ->]].
  - destruct (onStatusChanged_returns h (with_promises (promises s ++ [Pending]) s))
      as (s1 & Hseg & Hp & Hr).
    rewrite (start_returned _ s s1 Hseg). cbn. auto.
  - erewrite start_returned by reflexivity. split; reflexivity.
Qed.

Lemma sound_frame (s s' : Sys) :
  sound s -> pool s' = pool s -> registered s' = registered s -> sound s'.
Proof.
  intros [[Hpool Hreg] Hl] Hp Hr. unfold sound, all_quiet, storage_listeners in *.
  rewrite Hp, Hr. auto.
Qed.

Lemma call_storage_listener_the (c : Changes) (id : nat) (at_ : Z) :
  call_storage_listener c (the_storage_listener id at_) = Some (storageStatusListener c).
Proof. reflexivity. Qed.

Lemma call_storage_listener_other (c : Changes) (r : Registered) :
  is_kind_storage (reg_kind r) = false -> call_storage_listener c r = None.
Proof. destruct r as [id at_ [] cb]; cbn; intros H; try reflexivity; discriminate H. Qed.

(** Delivering a storage change event: every copy of the listener reports
    the change to the handlers; nothing else happens. *)
Lemma dispatch_storage_change (c : Changes) (rs : list Registered) :
  Forall (fun r => exists id at_, r = the_storage_listener id at_)
    (filter (fun r => is_kind_storage (reg_kind r)) rs) ->
  forall s,
    let s' := dispatch is_kind_storage (call_storage_listener c) rs s in
    pool s' = pool s /\ registered s' = registered s /\
    handlers (client s') = handlers (client s) /\
    trace s' =
      trace s ++
      List.concat (map (fun _ => change_notifications c (handlers (client s)))
                (filter (fun r => is_kind_storage (reg_kind r)) rs)).
Proof.
  induction rs as [|r rs IH]; intros Hrs s; cbn [dispatch filter].
  - cbn. rewrite app_nil_r. auto.
  - cbn [filter] in Hrs.
    destruct (is_kind_storage (reg_kind r)) eqn:Hk.
    + inversion Hrs as [|r' rs' [id [at_ Hr]] Hrest]; subst r' rs'. subst r.
      rewrite call_storage_listener_the.
      erewrite start_returned by apply seg_storageStatusListener.
      cbn [map List.concat].
      match goal with |- context [dispatch _ _ rs ?s1] =>
        destruct (IH Hrest s1) as (H1 & H2 & H3 & H4) end.
      cbn zeta. rewrite H1, H2, H3, H4. unfold change_notifications.
      destruct (change_status_cache c) as [[old [cached|]]|]; cbn;
        rewrite ?app_nil_r, ?app_assoc; auto.
    + apply (IH Hrs).
Qed.

Lemma step_client_sound (l : Label) (s s' : Sys) :
  client_step l -> sound s -> step l s = Some s' ->
  sound s' /\ storage_listeners s' = storage_listeners s.
Proof.
  intros Hl Hs Hstep.
  assert (Hpipe : pipeline_step l -> sound s' /\ storage_listeners s' = storage_listeners s).
  { intros Hp. destruct (step_pipeline_sound l s s' Hp Hs Hstep) as [H1 [_ H2]]. auto. }
  destruct l as [i|body|t|c| |m|a|t ev|f]; cbn [client_step] in Hl;
    try (apply Hpipe; exact I).
  - destruct Hl as [Hl|Hl]; [apply Hpipe; exact Hl|].
    cbn [step] in Hstep. injection Hstep as <-.
    destruct (start_subscription_frame body s Hl) as [Hp Hr].
    split; [apply (sound_frame s); assumption|].
    unfold storage_listeners. now rewrite Hr.
  - cbn [step] in Hstep. injection Hstep as <-.
    destruct (dispatch_storage_change c (registered s) (proj2 Hs) s) as (Hp & Hr & _).
    split; [apply (sound_frame s); assumption|].
    unfold storage_listeners. now rewrite Hr.
  - cbn [step] in Hstep. destruct (outbox s) as [|c rest]; [discriminate Hstep|].
    injection Hstep as <-.
    match goal with |- context [dispatch _ _ _ ?s1] =>
      destruct (dispatch_storage_change c (registered s) (proj2 Hs) s1) as (Hp & Hr & _) end.
    split; [apply (sound_frame s); assumption|].
    unfold storage_listeners. now rewrite Hr.
Qed.

Lemma steps_client_sound (ls : list Label) :
  Forall client_step ls ->
  forall s s', sound s -> steps ls s = Some s' ->
    sound s' /\ storage_listeners s' = storage_listeners s.
Proof.
  induction 1 as [|l ls Hl Hls IH]; intros s s' Hs Hsteps; cbn [steps] in Hsteps.
  - injection Hsteps as <-. auto.
  - destruct (step l s) as [s1|] eqn:Hstep; [|discriminate Hsteps].
    destruct (step_client_sound l s s1 Hl Hs Hstep) as [H1 H2].
    destruct (IH s1 s' H1 Hsteps) as [H3 H4].
    split; [exact H3 | congruence].
Qed.

Lemma created_sound (p : Platform) :
  sound (created p) /\
  storage_listeners (created p) =
    if has_onChanged (env p) then [the_storage_listener 0 (clock p)] else [].
Proof.
  destruct (created_listener p) as (Hq & _ & Hl).
  split; [|exact Hl]. split; [exact Hq|]. rewrite Hl.
  destruct (has_onChanged (env p)); repeat constructor. now exists 0%nat, (clock p).
Qed.

Lemma delivery_trace (c : Changes) (s s' : Sys) (listeners : list Registered) :
  sound s -> storage_listeners s = listeners ->
  step (StorageChanged c) s = Some s' ->
  trace s' =
    trace s ++ List.concat (map (fun _ => change_notifications c (handlers (client s))) listeners).
Proof.
  intros Hs Hl Hstep. cbn [step] in Hstep. injection Hstep as <-.
  destruct (dispatch_storage_change c (registered s) (proj2 Hs) s) as (_ & _ & _ & Ht).
  rewrite Ht. unfold storage_listeners in Hl. now rewrite Hl.
Qed.

(* ===================================================================== *)
(** * The refresh pipeline *)
(* ===================================================================== *)

(** Symbolic execution of a run whose interference is [steady]. *)
Ltac destruct_env e :=
  let oc := fresh "oc" in let ss := fresh "ss" in let ll := fresh "ll" in
  let rt := fresh "rt" in let al := fresh "al" in
  let w := fresh "w" in let d := fresh "d" in let lp := fresh "lp" in
  destruct e as [[[[[oc ss ll]|] rt al]|] w d lp];
  try destruct ss; try destruct ll.

Ltac destruct_platform s :=
  let c := fresh "c" in let p := fresh "p" in let tr := fresh "tr" in
  let ps := fresh "ps" in let pl := fresh "pl" in let rg := fresh "rg" in
  let nid := fresh "nid" in let ob := fresh "ob" in
  let e := fresh "e" in let now := fresh "now" in let vis := fresh "vis" in
  let sa := fresh "sa" in let la := fresh "la" in let se := fresh "se" in
  let le := fresh "le" in let fo := fresh "fo" in let ho := fresh "ho" in
  let ao := fresh "ao" in
  destruct s as [c p tr ps pl rg nid ob];
  destruct p as [e now vis sa la se le fo ho ao];
  destruct_env e; destruct se, le.

Ltac open_sys s :=
  let c := fresh "c" in let p := fresh "p" in let tr := fresh "tr" in
  let ps := fresh "ps" in let pl := fresh "pl" in let rg := fresh "rg" in
  let nid := fresh "nid" in let ob := fresh "ob" in
  let e := fresh "e" in let now := fresh "now" in let vis := fresh "vis" in
  let sa := fresh "sa" in let la := fresh "la" in let se := fresh "se" in
  let le := fresh "le" in let fo := fresh "fo" in let ho := fresh "ho" in
  let ao := fresh "ao" in
  let ch := fresh "ch" in let w := fresh "w" in let d := fresh "d" in
  let lp := fresh "lp" in
  let oc := fresh "oc" in let ss := fresh "ss" in let ll := fresh "ll" in
  let rt := fresh "rt" in let al := fresh "al" in
  let sc := fresh "sc" in let sw := fresh "sw" in
  let lc := fresh "lc" in let lw := fresh "lw" in
  destruct s as [c p tr ps pl rg nid ob];
  destruct p as [e now vis sa la se le fo ho ao];
  destruct e as [ch w d lp];
  destruct sa as [sc sw]; destruct la as [lc lw];
  destruct ch as [[[[oc ss ll]|] rt al]|]; try destruct ss; try destruct ll;
  destruct se, le.

(** [doRefresh], run to its end: it returns what the billing API answered,
    after exactly one request; on success it has written
    [{status, fetchedAt: now}] to the best storage tier and assigned
    [currentStatus]; nothing else of the platform or of the client's
    variables has changed, and no handler has been called. *)
Lemma doRefresh_effect (others : nat -> Sys -> Sys) (fuel : nat) (s : Sys) :
  steady others -> (12 <= fuel)%nat ->
  let answer := fetch_outcome (platform s) in
  let r := run others fuel doRefresh s in
  fst r = outcome_of answer /\
  platform (snd r) = refreshed_platform answer (platform s) /\
  handler_calls (snd r) = handler_calls s /\
  fetches (snd r) = S (fetches s) /\
  (private others -> client (snd r) = refreshed_client answer (client s)).
Proof.
  intros Hst Hfuel answer r. subst r answer.
  assert (Hp : forall n s, platform (others n s) = platform s) by (intros; apply Hst).
  assert (Ht : forall n s, trace (others n s) = trace s) by (intros; apply Hst).
  set (r := run others 12 doRefresh s).
  assert (Hr : settled (fst r) /\
               fst r = outcome_of (fetch_outcome (platform s)) /\
               platform (snd r) = refreshed_platform (fetch_outcome (platform s)) (platform s) /\
               handler_calls (snd r) = handler_calls s /\
               fetches (snd r) = S (fetches s) /\
               (private others ->
                client (snd r) = refreshed_client (fetch_outcome (platform s)) (client s))).
  { destruct r as [o s'] eqn:Hr. subst r. unfold run, doRefresh in Hr.
    destruct_platform s; destruct fo as [err|next];
      repeat (cbn in Hr; rewrite ?Hp in Hr);
      injection Hr as <- <-;
      unfold handler_calls, fetches, refreshed_platform, store, best_area;
      repeat progress (cbn; rewrite ?Hp, ?Ht);
      rewrite ?filter_app; cbn; rewrite ?app_nil_r, ?length_app; cbn;
      repeat split; try reflexivity; try lia;
      intros Hc; repeat progress (cbn; rewrite ?Hc); reflexivity. }
  destruct Hr as (Hs & Hr).
  rewrite (run_enough others 12 doRefresh s r eq_refl Hs fuel Hfuel). exact Hr.
Qed.

(* ===================================================================== *)
(** * Following a call across its suspensions *)
(* ===================================================================== *)

Lemma seg_finish_outcome {A B} (p : Prog A) (kr : A -> Prog B) (ke : Thrown -> Prog B)
    (s : Sys) :
  seg (finish p kr ke) s = finish_outcome (seg p s) kr ke.
Proof. rewrite seg_finish. unfold finish_outcome. destruct (seg p s) as [[a|e|b] s']; reflexivity. Qed.

Lemma reaches_trans {A} (others : nat -> Sys -> Sys) (i j k : nat)
    (o1 o2 o3 : Outcome A * Sys) :
  reaches others i o1 j o2 -> reaches others j o2 k o3 -> reaches others i o1 k o3.
Proof.
  induction 1 as [i o|i b s o' j r Hres Hreach IH]; intros H; [exact H|].
  eapply reaches_step; eauto.
Qed.

Lemma reaches_le {A} (others : nat -> Sys -> Sys) (i j : nat) (o r : Outcome A * Sys) :
  reaches others i o j r -> (i <= j)%nat.
Proof. induction 1; lia. Qed.

Lemma resume_blocked_finish {A B} (b : Blocked A) (kr : A -> Prog B)
    (ke : Thrown -> Prog B) (s : Sys) :
  resume_blocked (finish_blocked b kr ke) s =
  option_map (fun o => finish_outcome o kr ke) (resume_blocked b s).
Proof.
  destruct b as [X req k|k|q k]; cbn [finish_blocked resume_blocked].
  - destruct (respond req s) as [x s']. cbn [option_map]. now rewrite seg_finish_outcome.
  - cbn [option_map]. now rewrite seg_finish_outcome.
  - destruct (promise_state q s); cbn [option_map]; now rewrite ?seg_finish_outcome.
Qed.

(** [finish] is carried along a run. *)
Lemma reaches_finish {A B} (others : nat -> Sys -> Sys) (kr : A -> Prog B)
    (ke : Thrown -> Prog B) (i j : nat) (o r : Outcome A * Sys) :
  reaches others i o j r ->
  reaches others i (finish_outcome o kr ke) j (finish_outcome r kr ke).
Proof.
  induction 1 as [i o|i b s o' j r Hres Hreach IH]; [apply reaches_here|].
  cbn [finish_outcome]. eapply reaches_step; [|exact IH].
  rewrite resume_blocked_finish, Hres. reflexivity.
Qed.

(** A run that has ended is what [run_from] computes, given the fuel. *)
Lemma reaches_run_from {A} (others : nat -> Sys -> Sys) (i j : nat) (o r : Outcome A * Sys) :
  reaches others i o j r -> settled (fst r) ->
  forall fuel, (j - i <= fuel)%nat -> run_from others fuel i o = r.
Proof.
  induction 1 as [i o|i b s o' j r Hres Hreach IH]; intros Hr fuel Hfuel.
  - apply run_from_settled. exact Hr.
  - pose proof (reaches_le _ _ _ _ _ Hreach).
    destruct fuel as [|fuel]; [lia|]. cbn [run_from]. rewrite Hres.
    apply IH; [exact Hr | lia].
Qed.

(** Sequencing: run [p] to its result, then the continuation. *)
Lemma reaches_bind {A B} (others : nat -> Sys -> Sys) (p : Prog A) (k : A -> Prog B)
    (s : Sys) (i j l : nat) (a : A) (s1 : Sys) (r : Outcome B * Sys) :
  reaches others i (seg p s) j (Done a, s1) ->
  reaches others j (seg (k a) s1) l r ->
  reaches others i (seg (bind p k) s) l r.
Proof.
  intros Hp Hk. unfold bind. rewrite seg_finish_outcome.
  eapply reaches_trans; [apply reaches_finish; exact Hp | exact Hk].
Qed.

Lemma reaches_bind_failed {A B} (others : nat -> Sys -> Sys) (p : Prog A) (k : A -> Prog B)
    (s : Sys) (i j : nat) (e : Thrown) (s1 : Sys) :
  reaches others i (seg p s) j (Failed e, s1) ->
  reaches others i (seg (bind p k) s) j (Failed e, s1).
Proof.
  intros Hp. unfold bind. rewrite seg_finish_outcome.
  exact (reaches_finish others k Throw i j _ _ Hp).
Qed.

Lemma reaches_try_catch {A} (others : nat -> Sys -> Sys) (p : Prog A)
    (h : Thrown -> Prog A) (s : Sys) (i j : nat) (a : A) (s1 : Sys) :
  reaches others i (seg p s) j (Done a, s1) ->
  reaches others i (seg (try_catch p h) s) j (Done a, s1).
Proof.
  intros Hp. unfold try_catch. rewrite seg_finish_outcome.
  exact (reaches_finish others Ret h i j _ _ Hp).
Qed.

Lemma reaches_try_catch_failed {A} (others : nat -> Sys -> Sys) (p : Prog A)
    (h : Thrown -> Prog A) (s : Sys) (i j l : nat) (e : Thrown) (s1 : Sys)
    (r : Outcome A * Sys) :
  reaches others i (seg p s) j (Failed e, s1) ->
  reaches others j (seg (h e) s1) l r ->
  reaches others i (seg (try_catch p h) s) l r.
Proof.
  intros Hp Hh. unfold try_catch. rewrite seg_finish_outcome.
  eapply reaches_trans; [apply reaches_finish; exact Hp | exact Hh].
Qed.

(** [await p]: when [p] has its result, one more turn passes. *)
Lemma reaches_await {A} (others : nat -> Sys -> Sys) (p : Prog A) (s : Sys) (i j : nat)
    (a : A) (s1 : Sys) :
  reaches others i (seg p s) j (Done a, s1) ->
  reaches others i (seg (await p) s) (S j) (Done a, others j s1).
Proof.
  intros Hp. unfold await. rewrite seg_finish_outcome.
  eapply reaches_trans; [apply reaches_finish; exact Hp|].
  cbn [finish_outcome seg]. eapply reaches_step; [reflexivity | apply reaches_here].
Qed.

Lemma reaches_await_failed {A} (others : nat -> Sys -> Sys) (p : Prog A) (s : Sys)
    (i j : nat) (e : Thrown) (s1 : Sys) :
  reaches others i (seg p s) j (Failed e, s1) ->
  reaches others i (seg (await p) s) (S j) (Failed e, others j s1).
Proof.
  intros Hp. unfold await. rewrite seg_finish_outcome.
  eapply reaches_trans; [apply reaches_finish; exact Hp|].
  cbn [finish_outcome seg]. eapply reaches_step; [reflexivity | apply reaches_here].
Qed.

Ltac norm Hp := repeat progress (cbn -[Z.gtb Z.ltb Z.sub]; rewrite ?Hp).

Ltac reach Hp :=
  norm Hp;
  repeat (eapply reaches_step; [norm Hp; reflexivity |]; norm Hp);
  apply reaches_here.

(** A best-effort read returns what the best working tier holds; it only
    reads. *)
Lemma reaches_getFromBestStorage {T} (others : nat -> Sys -> Sys) (key : Key T) :
  steady others ->
  forall i s, exists j s1,
    reaches others i (seg (getFromBestStorage key) s) j (Done (stored key (platform s)), s1) /\
    (j <= i + 4)%nat /\
    platform s1 = platform s /\
    extends (Forall (fun e => is_storage_get e = true)) s s1 /\
    (private others -> client s1 = client s).
Proof.
  intros Hst i s.
  assert (Hp : forall n s, platform (others n s) = platform s) by (intros; apply Hst).
  assert (Ht : forall n s, trace (others n s) = trace s) by (intros; apply Hst).
  unfold getFromBestStorage, extends.
  open_sys s; (eexists; eexists; split; [reach Hp|]);
    (split; [lia|]);
    (split; [repeat progress (cbn; rewrite ?Hp); reflexivity|]);
    (split; [eexists; split;
             [repeat progress (cbn; rewrite ?Ht); rewrite <- ?app_assoc; cbn;
              try reflexivity; symmetry; apply app_nil_r
             |repeat constructor]
            |intros Hc; repeat progress (cbn; rewrite ?Hc); reflexivity]).
Qed.

(** A best-effort write leaves the value in the best working tier (nowhere
    when no tier works); it only writes. *)
Lemma reaches_setInBestStorage {T} (others : nat -> Sys -> Sys) (key : Key T) (v : T) :
  steady others ->
  forall i s, exists j s1,
    reaches others i (seg (setInBestStorage key v) s) j (Done tt, s1) /\
    (j <= i + 4)%nat /\
    platform s1 = store key v (platform s) /\
    extends (fun evs => Forall (fun e => is_storage_write e = true) evs /\
                        forall a, best_area (platform s) = Some a ->
                                  In (EvStored a (key_name key)) evs) s s1 /\
    (private others -> client s1 = client s).
Proof.
  intros Hst i s.
  assert (Hp : forall n s, platform (others n s) = platform s) by (intros; apply Hst).
  assert (Ht : forall n s, trace (others n s) = trace s) by (intros; apply Hst).
  unfold setInBestStorage, extends, store, best_area.
  open_sys s; (eexists; eexists; split; [reach Hp|]);
    (split; [lia|]);
    (split; [repeat progress (cbn; rewrite ?Hp); reflexivity|]);
    (split; [eexists; split;
             [repeat progress (cbn; rewrite ?Ht); rewrite <- ?app_assoc; cbn;
              try reflexivity; symmetry; apply app_nil_r
             |split; [repeat constructor
                     |cbn; intros a Ha; try discriminate Ha; injection Ha as <-;
                      cbn; tauto]]
            |intros Hc; repeat progress (cbn; rewrite ?Hc); reflexivity]).
Qed.

(** C1.  Take a freshly created client and let anything happen to it: calls
    into the refresh pipeline, resumed tasks, timers, messages, alarms, DOM
    events, storage change events, handlers subscribing.  In the state [s]
    so reached:
    - [doRefresh], run to its end, returns what the billing API answered,
      having only assigned [currentStatus] and written [{status, fetchedAt}]
      to the store, and having called no handler;
    - no step of the refresh pipeline calls a handler;
    - the storage change listeners are the one that
      [attachStorageStatusListener] installed at creation (none where
      [chrome.storage.onChanged] is missing);
    - a storage change event is what calls the handlers, with the diff
      [computeStatusDiff] gives for the event's old and new value. *)
Theorem handlers_are_notified_only_by_the_storage_listener
    (p : Platform) (ls : list Label) (s : Sys) :
  Forall client_step ls -> steps ls (created p) = Some s ->
  (forall others fuel, steady others -> (12 <= fuel)%nat ->
     let answer := fetch_outcome (platform s) in
     let r := run others fuel doRefresh s in
     fst r = outcome_of answer /\
     platform (snd r) = refreshed_platform answer (platform s) /\
     handler_calls (snd r) = handler_calls s /\
     fetches (snd r) = S (fetches s) /\
     (private others -> client (snd r) = refreshed_client answer (client s))) /\
  (forall l s', pipeline_step l -> step l s = Some s' ->
     handler_calls s' = handler_calls s) /\
  storage_listeners s =
    (if has_onChanged (env p) then [the_storage_listener 0 (clock p)] else []) /\
  (forall c s', step (StorageChanged c) s = Some s' ->
     trace s' =
       trace s ++
       if has_onChanged (env p) then change_notifications c (handlers (client s)) else []).
Proof.
  intros Hls Hsteps.
  destruct (created_sound p) as [Hc Hl].
  destruct (steps_client_sound ls Hls (created p) s Hc Hsteps) as [Hs Hl'].
  rewrite Hl in Hl'.
  split; [intros others fuel Hst Hfuel; apply doRefresh_effect; assumption|].
  split.
  { intros l s' Hl0 Hstep. apply (step_pipeline_sound l s s' Hl0 Hs Hstep). }
  split; [exact Hl'|].
  intros c s' Hstep. rewrite (delivery_trace c s s' _ Hs Hl' Hstep).
  destruct (has_onChanged (env p)); cbn; now rewrite ?app_nil_r.
Qed.

Lemma refresh_scenario_runs :
  steps refresh_scenario (created popup_platform) = Some after_refresh_scenario.
Proof. vm_compute. reflexivity. Qed.

Lemma refresh_scenario_steps : Forall client_step refresh_scenario.
Proof.
  unfold refresh_scenario.
  constructor; [right; left; now exists 7%nat|].
  constructor; [left; constructor|].
  repeat (constructor; [exact I|]). constructor.
Qed.

(** In the scenario the refresh itself has called nobody; the change event
    of its write then calls the subscribed handler, once. *)
Example refresh_scenario_notifies_on_delivery :
  handler_calls after_refresh_scenario = [] /\
  option_map handler_calls (step DeliverChange after_refresh_scenario) =
    Some [EvHandler 7%nat paid_status None (mkStatusDiff true true true)].
Proof. vm_compute. split; reflexivity. Qed.

Lemma handlers_are_notified_only_by_the_storage_listener_witness :
  Forall client_step refresh_scenario /\
  steps refresh_scenario (created popup_platform) = Some after_refresh_scenario /\
  storage_listeners after_refresh_scenario = [the_storage_listener 0 1000] /\
  (forall l s', pipeline_step l -> step l after_refresh_scenario = Some s' ->
     handler_calls s' = handler_calls after_refresh_scenario).
Proof.
  assert (Hsteps : Forall client_step refresh_scenario).
  { unfold refresh_scenario.
    constructor; [right; left; now exists 7%nat|].
    constructor; [left; constructor|].
    repeat (constructor; [exact I|]). constructor. }
  assert (Hruns : steps refresh_scenario (created popup_platform) = Some after_refresh_scenario).
  { vm_compute. reflexivity. }
  split; [exact Hsteps|]. split; [exact Hruns|].
  destruct (handlers_are_notified_only_by_the_storage_listener
              popup_platform refresh_scenario after_refresh_scenario Hsteps Hruns)
    as (_ & Hpipe & Hlisten & _).
  split; [exact Hlisten | exact Hpipe].
Defined.

(* ===================================================================== *)
(** * [getUser]: memory, persisted cache, network *)
(* ===================================================================== *)

Ltac run_hyp Hr Hp Hc :=
  repeat progress (cbn -[Z.gtb Z.ltb Z.sub] in Hr; rewrite ?Hp, ?Hc in Hr).

Ltac split_swr Hr Hp Hc :=
  repeat match type of Hr with
         | context [swrCheckInFlight ?c] =>
             destruct (swrCheckInFlight c) eqn:?; run_hyp Hr Hp Hc
         end.

Lemma getUser_from_memory (opts : option GetUserOptions) (s : Sys) (current : UserStatus) :
  forceRefresh_is_true opts = false -> currentStatus (client s) = Some current ->
  seg (getUser opts) s = (Done current, s).
Proof. intros Hf Hc. unfold getUser. rewrite Hf. cbn. rewrite Hc. reflexivity. Qed.

Lemma getUser_from_cache (others : nat -> Sys -> Sys) (opts : option GetUserOptions)
    (s : Sys) (cached : CachedStatus) :
  steady others -> forceRefresh_is_true opts = false ->
  currentStatus (client s) = None ->
  stored STATUS_CACHE_KEY (platform s) = Some cached ->
  clock (platform s) - fetchedAt cached <= 30000 ->
  let r := run others 8 (getUser opts) s in
  settled (fst r) /\ fst r = Done (status cached) /\ fetches (snd r) = fetches s.
Proof.
  intros Hst Hforce Hcur Hstored Hage r.
  assert (Hp : forall n s, platform (others n s) = platform s) by (intros; apply Hst).
  assert (Ht : forall n s, trace (others n s) = trace s) by (intros; apply Hst).
  assert (Hfresh : (clock (platform s) - fetchedAt cached >? 30000) = false)
    by (rewrite Z.gtb_ltb; apply Z.ltb_ge; lia).
  destruct r as [o s'] eqn:Hr. subst r.
  unfold run, getUser, loadCachedStatus, DEFAULT_CACHE_TTL_MS in Hr.
  rewrite Hforce in Hr.
  open_sys s; cbn in Hstored; try discriminate Hstored; subst;
    destruct c; cbn in Hcur; subst;
    destruct cached as [[uid [] pln usg] fa]; cbn in Hfresh;
    run_hyp Hr Hp Hfresh; split_swr Hr Hp Hfresh;
    injection Hr as <- <-; unfold fetches;
    repeat progress (cbn; rewrite ?Hp, ?Ht);
    rewrite ?filter_app; cbn; rewrite ?app_nil_r;
    repeat split; reflexivity.
Qed.

Lemma getUser_from_network (others : nat -> Sys -> Sys) (opts : option GetUserOptions)
    (s : Sys) :
  steady others ->
  forceRefresh_is_true opts = true \/
  (currentStatus (client s) = None /\
   forall cached, stored STATUS_CACHE_KEY (platform s) = Some cached ->
                  clock (platform s) - fetchedAt cached > 30000) ->
  let r := run others 24 (getUser opts) s in
  settled (fst r) /\
  fst r = normalized (outcome_of (fetch_outcome (platform s))) /\
  fetches (snd r) = S (fetches s).
Proof.
  intros Hst Hcase r.
  assert (Hp : forall n s, platform (others n s) = platform s) by (intros; apply Hst).
  assert (Ht : forall n s, trace (others n s) = trace s) by (intros; apply Hst).
  destruct r as [o s'] eqn:Hr. subst r.
  unfold run, getUser, loadCachedStatus, DEFAULT_CACHE_TTL_MS in Hr.
  destruct Hcase as [Hforce|[Hcur Hstale]].
  - rewrite Hforce in Hr.
    open_sys s; destruct fo as [err|next];
      run_hyp Hr Hp Hp;
      injection Hr as <- <-; unfold fetches;
      repeat progress (cbn; rewrite ?Hp, ?Ht);
      rewrite ?filter_app; cbn; rewrite ?app_nil_r, ?length_app; cbn;
      repeat split; try reflexivity; lia.
  - destruct (forceRefresh_is_true opts).
    + open_sys s; destruct c; cbn in Hcur; subst; destruct fo as [err|next];
        run_hyp Hr Hp Hp;
        injection Hr as <- <-; unfold fetches;
        repeat progress (cbn; rewrite ?Hp, ?Ht);
        rewrite ?filter_app; cbn; rewrite ?app_nil_r, ?length_app; cbn;
        repeat split; try reflexivity; lia.
    + assert (Hold : forall cached, stored STATUS_CACHE_KEY (platform s) = Some cached ->
                       (clock (platform s) - fetchedAt cached >? 30000) = true).
      { intros cached H. apply Z.gtb_lt. specialize (Hstale cached H). lia. }
      clear Hstale.
      open_sys s; destruct c; cbn in Hcur; subst; destruct fo as [err|next];
        cbn in Hold;
        try (destruct sc as [cached|]; [specialize (Hold cached eq_refl)|]);
        try (destruct lc as [cached|]; [specialize (Hold cached eq_refl)|]);
        run_hyp Hr Hp Hold;
        injection Hr as <- <-; unfold fetches;
        repeat progress (cbn; rewrite ?Hp, ?Ht);
        rewrite ?filter_app; cbn; rewrite ?app_nil_r, ?length_app; cbn;
        repeat split; try reflexivity; lia.
Qed.



(* ===================================================================== *)
(** * The stale-while-revalidate gate *)
(* ===================================================================== *)

(** The statement of C7 for every cache hit fails: a hit on the in-memory
    status returns a paid status without touching the gate.  No SWR check is
    in flight before the call, and after it none is, no task is pending and
    nothing was read from storage. *)
Lemma getUser_paid_memory_hit_skips_gate :
  paid paid_status = true /\
  swrCheckInFlight (client paid_in_memory) = None /\
  seg (getUser None) paid_in_memory = (Done paid_status, paid_in_memory) /\
  swrCheckInFlight (client (snd (seg (getUser None) paid_in_memory))) = None /\
  pool (snd (seg (getUser None) paid_in_memory)) = [] /\
  swr_reads (snd (seg (getUser None) paid_in_memory)) = 0%nat.
Proof. repeat split. Qed.

Lemma schedulePaidSWRRevalidate_in_flight (s : Sys) (p : Promise) :
  swrCheckInFlight (client s) = Some p ->
  seg schedulePaidSWRRevalidate s = (Done tt, s).
Proof. intros H. unfold schedulePaidSWRRevalidate. cbn. rewrite H. reflexivity. Qed.

Lemma schedulePaidSWRRevalidate_starts (s : Sys) :
  swrCheckInFlight (client s) = None ->
  seg schedulePaidSWRRevalidate s =
  (Done tt,
   let p := List.length (promises s) in
   with_client (set_swrCheckInFlight (Some p))
     (complete p (seg schedulePaidSWRRevalidate_job
                    (with_promises (promises s ++ [Pending]) s)))).
Proof. intros H. unfold schedulePaidSWRRevalidate. cbn. rewrite H. reflexivity. Qed.

Lemma getUser_cache_hit_gate (others : nat -> Sys -> Sys) (opts : option GetUserOptions)
    (s : Sys) (cached : CachedStatus) :
  steady others -> private others -> forceRefresh_is_true opts = false ->
  currentStatus (client s) = None -> swrCheckInFlight (client s) = None ->
  stored STATUS_CACHE_KEY (platform s) = Some cached ->
  clock (platform s) - fetchedAt cached <= 30000 ->
  let r := run others 8 (getUser opts) s in
  is_null (swrCheckInFlight (client (snd r))) = negb (paid (status cached)) /\
  swr_reads (snd r) = (swr_reads s + if paid (status cached) then 1 else 0)%nat.
Proof.
  intros Hst Hc Hforce Hcur Hswr Hstored Hage r.
  assert (Hp : forall n s, platform (others n s) = platform s) by (intros; apply Hst).
  assert (Ht : forall n s, trace (others n s) = trace s) by (intros; apply Hst).
  assert (Hfresh : (clock (platform s) - fetchedAt cached >? 30000) = false)
    by (rewrite Z.gtb_ltb; apply Z.ltb_ge; lia).
  destruct r as [o s'] eqn:Hr. subst r.
  unfold run, getUser, loadCachedStatus, DEFAULT_CACHE_TTL_MS in Hr.
  rewrite Hforce in Hr.
  open_sys s; cbn in Hstored; try discriminate Hstored; subst;
    destruct c; cbn in Hcur, Hswr; subst;
    destruct cached as [[uid [] pln usg] fa]; cbn in Hfresh;
    repeat progress (cbn -[Z.gtb Z.ltb Z.sub] in Hr; rewrite ?Hp, ?Hc, ?Hfresh in Hr);
    injection Hr as <- <-; unfold swr_reads;
    repeat progress (cbn; rewrite ?Hp, ?Ht, ?Hc);
    rewrite ?filter_app; cbn; rewrite ?app_nil_r, ?length_app; cbn;
    split; try reflexivity; lia.
Qed.

Lemma swr_job_cooldown (others : nat -> Sys -> Sys) (s : Sys) :
  steady others ->
  clock (platform s) - last_swr (platform s) < 5000 ->
  let r := run others 8 schedulePaidSWRRevalidate_job s in
  settled (fst r) /\ fst r = Done tt /\
  platform (snd r) = platform s /\ fetches (snd r) = fetches s /\
  swrCheckInFlight (client (snd r)) = None.
Proof.
  intros Hst Hcool r.
  assert (Hp : forall n s, platform (others n s) = platform s) by (intros; apply Hst).
  assert (Ht : forall n s, trace (others n s) = trace s) by (intros; apply Hst).
  apply Z.ltb_lt in Hcool.
  destruct r as [o s'] eqn:Hr. subst r.
  unfold run, schedulePaidSWRRevalidate_job, SWR_COOLDOWN_MS in Hr.
  unfold last_swr, stored, best_area, session_available, local_available in Hcool.
  open_sys s; try destruct sw; try destruct lw; cbn -[Z.ltb Z.sub] in Hcool;
    repeat progress (cbn -[Z.gtb Z.ltb Z.sub] in Hr; rewrite ?Hp, ?Hcool in Hr);
    injection Hr as <- <-; unfold fetches;
    repeat progress (cbn; rewrite ?Hp, ?Ht);
    rewrite ?filter_app; cbn; rewrite ?app_nil_r;
    repeat split; reflexivity.
Qed.

Lemma since_extends (P : list Event -> Prop) (s s1 : Sys) (evs : list Event) :
  trace s1 = trace s ++ evs -> since s s1 = evs.
Proof.
  intros H. unfold since. rewrite H.
  rewrite skipn_app, Nat.sub_diag, skipn_all. reflexivity.
Qed.

Lemma before_fetch_app_writes (evs rest : list Event) :
  Forall (fun e => is_fetch e = false) evs ->
  before_fetch (evs ++ rest) = evs ++ before_fetch rest.
Proof.
  induction 1 as [|e evs He Hevs IH]; [reflexivity|].
  cbn [app before_fetch]. destruct e; try discriminate He; now rewrite IH.
Qed.

Lemma reads_are_no_fetch (evs : list Event) :
  Forall (fun e => is_storage_get e = true) evs -> Forall (fun e => is_fetch e = false) evs.
Proof. induction 1 as [|e evs He _ IH]; constructor; [destruct e; try discriminate He; reflexivity | exact IH]. Qed.

Lemma writes_are_no_fetch (evs : list Event) :
  Forall (fun e => is_storage_write e = true) evs -> Forall (fun e => is_fetch e = false) evs.
Proof. induction 1 as [|e evs He _ IH]; constructor; [destruct e; try discriminate He; reflexivity | exact IH]. Qed.

Lemma filter_none {A} (f : A -> bool) (xs : list A) :
  Forall (fun x => f x = false) xs -> filter f xs = [].
Proof. induction 1 as [|x xs Hx _ IH]; [reflexivity|]. cbn. now rewrite Hx. Qed.

(** Outside the cooldown the gate, before it awaits the revalidation, has
    written the new timestamp; the request of the revalidation, if this
    call is the one that starts it, comes after that write. *)
Lemma swr_job_revalidates (others : nat -> Sys -> Sys) (s : Sys) :
  steady others ->
  5000 <= clock (platform s) - last_swr (platform s) ->
  exists j s1 p K,
    reaches others 0 (seg schedulePaidSWRRevalidate_job s) j (Suspended (BJoin p K), s1) /\
    (j <= 10)%nat /\
    platform s1 = store LAST_SWR_AT_KEY (clock (platform s)) (platform s) /\
    (forall a, best_area (platform s) = Some a ->
       In (EvStored a (key_name LAST_SWR_AT_KEY)) (before_fetch (since s s1))) /\
    (fetches s1 <= S (fetches s))%nat /\
    (private others -> refreshInFlight (client s) = None ->
     fetches s1 = S (fetches s) /\ refreshInFlight (client s1) = Some p).
Proof.
  intros Hst Hcool.
  assert (Hp : forall n s, platform (others n s) = platform s) by (intros; apply Hst).
  assert (Ht : forall n s, trace (others n s) = trace s) by (intros; apply Hst).
  apply Z.ltb_ge in Hcool. unfold last_swr in Hcool.
  destruct (reaches_getFromBestStorage others LAST_SWR_AT_KEY Hst 0%nat s)
    as (j1 & s1 & R1 & Hj1 & P1 & (evs1 & T1 & E1) & C1).
  apply reaches_await in R1.
  set (s2 := others j1 s1) in *.
  assert (P2 : platform s2 = platform s) by (subst s2; now rewrite Hp).
  destruct (reaches_setInBestStorage others LAST_SWR_AT_KEY (clock (platform s)) Hst (S j1) s2)
    as (j2 & s3 & R2 & Hj2 & P3 & (evs2 & T3 & E3 & I3) & C3).
  apply reaches_await in R2.
  set (s4 := others j2 s3) in *.
  assert (Hjob : exists p K s5,
            seg (p <- autoSyncRefresh ;; await_promise p) s4 = (Suspended (BJoin p K), s5) /\
            platform s5 = platform s4 /\
            (trace s5 = trace s4 /\ refreshInFlight (client s4) <> None \/
             trace s5 = trace s4 ++ [EvFetch] /\ refreshInFlight (client s4) = None /\
             refreshInFlight (client s5) = Some p)).
  { unfold autoSyncRefresh. cbn.
    destruct (refreshInFlight (client s4)) as [q|] eqn:Hq; cbn.
    - do 3 eexists. split; [reflexivity|]. split; [reflexivity|]. left. split; [reflexivity|discriminate].
    - do 3 eexists. split; [reflexivity|]. split; [reflexivity|]. right. repeat split; reflexivity. }
  destruct Hjob as (p & K & s5 & Hseg & P5 & T5).
  assert (Hbody :
    reaches others 0
      (seg (stored <- await (getFromBestStorage LAST_SWR_AT_KEY) ;;
            let last := or_else stored 0 in
            now <- act DateNow ;;
            if (now - last <? SWR_COOLDOWN_MS)%Z then Ret tt
            else
              await (setInBestStorage LAST_SWR_AT_KEY now) ;;
              p <- autoSyncRefresh ;;
              await_promise p) s)
      (S j2) (Suspended (BJoin p K), s5)).
  { eapply reaches_bind; [exact R1|]. cbn zeta.
    rewrite seg_bind. cbn [act seg perform]. rewrite P2. unfold SWR_COOLDOWN_MS.
    rewrite Hcool.
    eapply reaches_bind; [exact R2|]. rewrite Hseg. apply reaches_here. }
  exists (S j2), s5, p.
  eexists. split.
  { unfold schedulePaidSWRRevalidate_job, try_finally, try_catch.
    rewrite !seg_finish_outcome.
    apply (reaches_finish others _ _ _ _ _ _
             (reaches_finish others Ret _ _ _ _ _ Hbody)). }
  assert (T4 : trace s4 = trace s ++ evs1 ++ evs2).
  { subst s4 s2. rewrite Ht, T3, Ht, T1. now rewrite app_assoc. }
  assert (F1 : Forall (fun e => is_fetch e = false) (evs1 ++ evs2)).
  { apply Forall_app. split; [apply reads_are_no_fetch | apply writes_are_no_fetch]; assumption. }
  split; [lia|]. split.
  { rewrite P5. subst s4. now rewrite Hp, P3, P2. }
  split.
  { intros a Ha. rewrite <- P2 in Ha. specialize (I3 a Ha).
    destruct T5 as [[T5 _]|[T5 _]]; rewrite T4 in T5.
    - rewrite (since_extends (fun _ => True) s s5 (evs1 ++ evs2)) by exact T5.
      rewrite <- (app_nil_r (evs1 ++ evs2)).
      rewrite before_fetch_app_writes by exact F1.
      apply in_or_app. left. apply in_or_app. now right.
    - rewrite (since_extends (fun _ => True) s s5 ((evs1 ++ evs2) ++ [EvFetch]))
        by (rewrite T5; now rewrite !app_assoc).
      rewrite before_fetch_app_writes by exact F1.
      apply in_or_app. left. apply in_or_app. now right. }
  assert (F4 : fetches s4 = fetches s).
  { unfold fetches. rewrite T4, filter_app, (filter_none is_fetch _ F1). now rewrite app_nil_r. }
  split.
  { destruct T5 as [[T5 _]|[T5 _]]; unfold fetches in *; rewrite T5.
    - unfold fetches in F4. lia.
    - rewrite filter_app, length_app. cbn. lia. }
  intros Hc Hidle.
  assert (C4 : client s4 = client s).
  { subst s4 s2. rewrite Hc, C3, Hc, C1 by exact Hc. reflexivity. }
  destruct T5 as [[_ T5]|(T5 & _ & Hp5)].
  - rewrite C4 in T5. now elim T5.
  - split; [|exact Hp5]. unfold fetches in *. rewrite T5, filter_app, length_app. cbn. lia.
Qed.

(** C7 (as the code has it). The stale-while-revalidate gate belongs to the
    persisted-cache tier of [getUser] only.  With the rest of the system
    leaving the platform alone:
    (1) a hit on the in-memory status returns it at once and leaves the whole
    system untouched, whatever [paid] is: the gate is not triggered;
    (2) a hit on a persisted entry that is at most 30000 ms old returns the
    entry's status, and triggers the gate exactly when that status is paid: a
    check is in flight afterwards, and the last-SWR timestamp has been asked
    for, if and only if [paid] is [true];
    (3) triggered while a check is in flight, the gate does nothing;
    (4) less than 5000 ms after the persisted last-SWR timestamp (0 when none
    is persisted), the check ends without a request and without a write;
    (5) otherwise the check persists the current time as the new timestamp
    and then calls [autoSyncRefresh]: when it waits for that refresh, the
    store holds the new timestamp, the write came before any request, and the
    refresh has sent at most one request - exactly one when no refresh was
    in flight. *)
Theorem swr_gate_guards_persisted_cache_hits (others : nat -> Sys -> Sys) :
  steady others ->
  (forall opts s current,
     forceRefresh_is_true opts = false -> currentStatus (client s) = Some current ->
     seg (getUser opts) s = (Done current, s)) /\
  (private others ->
   forall opts s cached,
     forceRefresh_is_true opts = false ->
     currentStatus (client s) = None -> swrCheckInFlight (client s) = None ->
     stored STATUS_CACHE_KEY (platform s) = Some cached ->
     clock (platform s) - fetchedAt cached <= 30000 ->
     let r := run others 8 (getUser opts) s in
     fst r = Done (status cached) /\
     is_null (swrCheckInFlight (client (snd r))) = negb (paid (status cached)) /\
     swr_reads (snd r) = (swr_reads s + if paid (status cached) then 1 else 0)%nat) /\
  (forall s p,
     swrCheckInFlight (client s) = Some p ->
     seg schedulePaidSWRRevalidate s = (Done tt, s)) /\
  (forall s,
     clock (platform s) - last_swr (platform s) < 5000 ->
     let r := run others 8 schedulePaidSWRRevalidate_job s in
     fst r = Done tt /\ platform (snd r) = platform s /\ fetches (snd r) = fetches s /\
     swrCheckInFlight (client (snd r)) = None) /\
  (forall s,
     5000 <= clock (platform s) - last_swr (platform s) ->
     exists j s1 p K,
       reaches others 0 (seg schedulePaidSWRRevalidate_job s) j (Suspended (BJoin p K), s1) /\
       platform s1 = store LAST_SWR_AT_KEY (clock (platform s)) (platform s) /\
       (forall a, best_area (platform s) = Some a ->
          In (EvStored a (key_name LAST_SWR_AT_KEY)) (before_fetch (since s s1))) /\
       (fetches s1 <= S (fetches s))%nat /\
       (private others -> refreshInFlight (client s) = None ->
        fetches s1 = S (fetches s) /\ refreshInFlight (client s1) = Some p)).
Proof.
  intros Hst. split; [|split; [|split; [|split]]].
  - intros opts s current Hf Hc. exact (getUser_from_memory opts s current Hf Hc).
  - intros Hpr opts s cached Hf Hc Hswr Hstored Hage r.
    destruct (getUser_from_cache others opts s cached Hst Hf Hc Hstored Hage) as (_ & H2 & _).
    destruct (getUser_cache_hit_gate others opts s cached Hst Hpr Hf Hc Hswr Hstored Hage)
      as (H3 & H4).
    subst r. auto.
  - intros s p Hp. exact (schedulePaidSWRRevalidate_in_flight s p Hp).
  - intros s Hcool r.
    destruct (swr_job_cooldown others s Hst Hcool) as (_ & H1 & H2 & H3 & H4).
    subst r. auto.
  - intros s Hcool.
    destruct (swr_job_revalidates others s Hst Hcool) as (j & s1 & p & K & H1 & _ & H2 & H3 & H4 & H5).
    exists j, s1, p, K. auto.
Qed.

Lemma swr_gate_guards_persisted_cache_hits_witness :
  steady nobody /\
  is_null (swrCheckInFlight
             (client (snd (run nobody 8 (getUser None) (boot fresh_cache_platform))))) = false /\
  swr_reads (snd (run nobody 8 (getUser None) (boot fresh_cache_platform))) = 1%nat.
Proof.
  assert (Hsteady : steady nobody) by (intros n s; split; reflexivity).
  assert (Hprivate : private nobody) by (intros n s; reflexivity).
  split; [exact Hsteady|].
  destruct (swr_gate_guards_persisted_cache_hits nobody Hsteady) as (_ & Hhit & _).
  destruct (Hhit Hprivate None (boot fresh_cache_platform)
              {| status := paid_status; fetchedAt := 100000 |}
              eq_refl eq_refl eq_refl eq_refl) as (_ & Hflight & Hreads).
  - cbn. lia.
  - split; [exact Hflight | exact Hreads].
Defined.

(* ===================================================================== *)
(** * One refresh for all overlapping calls ([autoSyncRefresh]) *)
(* ===================================================================== *)

Lemma plain_weaken {A} (E E' : Thrown -> Prop) (p : Prog A) :
  (forall e, E e -> E' e) -> plain E p -> plain E' p.
Proof. intros HE Hp. induction Hp; constructor; auto. Qed.

Lemma plain_finish {A B} (E E' : Thrown -> Prop) (p : Prog A) (kr : A -> Prog B)
    (ke : Thrown -> Prog B) :
  plain E p -> (forall a, plain E' (kr a)) -> (forall e, E e -> plain E' (ke e)) ->
  plain E' (finish p kr ke).
Proof. intros Hp Hr He. induction Hp; cbn [finish]; try (constructor; auto); auto. Qed.

Lemma plain_bind {A B} (E : Thrown -> Prop) (p : Prog A) (k : A -> Prog B) :
  plain E p -> (forall a, plain E (k a)) -> plain E (bind p k).
Proof. intros. apply (plain_finish E); auto. intros. now constructor. Qed.

Lemma plain_try_catch {A} (E' : Thrown -> Prop) (p : Prog A) (h : Thrown -> Prog A) :
  plain any_error p -> (forall e, plain E' (h e)) -> plain E' (try_catch p h).
Proof. intros. apply (plain_finish any_error); auto. intros. constructor. Qed.

Lemma plain_await {A} (E : Thrown -> Prop) (p : Prog A) : plain E p -> plain E (await p).
Proof. intros. apply (plain_finish E); auto; intros; repeat constructor; auto. Qed.

Lemma plain_act {X} (E : Thrown -> Prop) (op : Op X) : keeps_marker op -> plain E (act op).
Proof. intros. constructor; auto. constructor. Qed.

Lemma plain_io {X} (E : Thrown -> Prop) (req : IOReq X) :
  is_fetch_request req = false -> plain E (io req).
Proof. intros. constructor; auto. constructor. Qed.

Lemma plain_rethrow {A} (r : Thrown + A) : plain any_error (rethrow r).
Proof. destruct r; constructor. exact I. Qed.

Ltac plain_step :=
  match goal with
  | |- forall _, _ => intro
  | |- plain _ (match ?x with _ => _ end) => destruct x
  | |- plain _ (if ?x then _ else _) => destruct x
  | |- plain _ (bind _ _) => apply plain_bind
  | |- plain _ (try_catch _ _) => apply plain_try_catch
  | |- plain _ (await _) => apply plain_await
  | |- plain _ (act _) => apply plain_act; first [exact I | intro; reflexivity]
  | |- plain _ (io _) => apply plain_io; reflexivity
  | |- plain any_error (rethrow _) => apply plain_rethrow
  | |- plain _ (Ret _) => constructor
  | |- plain _ (Tick _) => constructor
  | |- plain any_error (Throw _) => constructor; exact I
  | |- plain _ _ => assumption
  end.

Ltac plain_auto := repeat plain_step.

Lemma plain_isChromeStorageAvailable : plain any_error isChromeStorageAvailable.
Proof. unfold isChromeStorageAvailable. plain_auto. Qed.

Lemma plain_isSessionStorageAvailable : plain any_error isSessionStorageAvailable.
Proof. unfold isSessionStorageAvailable. plain_auto. Qed.

Lemma plain_setInLocalStorage {T} (key : Key T) (v : T) :
  plain any_error (setInLocalStorage key v).
Proof.
  unfold setInLocalStorage. pose proof plain_isChromeStorageAvailable. plain_auto.
Qed.

Lemma plain_setInBestStorage {T} (key : Key T) (v : T) :
  plain any_error (setInBestStorage key v).
Proof.
  unfold setInBestStorage.
  pose proof plain_isChromeStorageAvailable. pose proof plain_isSessionStorageAvailable.
  pose proof (plain_setInLocalStorage key v). plain_auto.
Qed.

Lemma plain_saveCachedStatus (st : UserStatus) : plain any_error (saveCachedStatus st).
Proof.
  unfold saveCachedStatus.
  pose proof (fun c => plain_setInBestStorage STATUS_CACHE_KEY c). plain_auto. auto.
Qed.

Lemma plain_after_fetch_finish {A B} (E E' : Thrown -> Prop) (p : Prog A)
    (kr : A -> Prog B) (ke : Thrown -> Prog B) :
  plain_after_fetch E p -> (forall a, plain E' (kr a)) -> (forall e, E e -> plain E' (ke e)) ->
  plain_after_fetch E' (finish p kr ke).
Proof.
  intros (k & -> & Hk) Hr He. eexists. split; [reflexivity|].
  intros x. cbn beta. apply (plain_finish E); auto.
Qed.

Lemma plain_after_fetch_fetchStatus : plain_after_fetch any_error fetchStatus.
Proof.
  unfold fetchStatus, bind, await.
  repeat (apply (plain_after_fetch_finish any_error); [| plain_auto | plain_auto]).
  exists Ret. split; [reflexivity|]. constructor.
Qed.

Lemma plain_after_fetch_doRefresh : plain_after_fetch any_error doRefresh.
Proof.
  unfold doRefresh. unfold bind at 1. unfold await at 1.
  pose proof plain_saveCachedStatus.
  apply (plain_after_fetch_finish any_error); [| plain_auto; auto | plain_auto].
  apply (plain_after_fetch_finish any_error); [| plain_auto | plain_auto].
  apply plain_after_fetch_fetchStatus.
Qed.

(** The body of the job, inside its [try]/[catch], never throws. *)
Lemma plain_after_fetch_job_body :
  plain_after_fetch no_error (try_catch (await doRefresh ;; Ret tt) (fun _ => Ret tt)).
Proof.
  unfold try_catch, bind, await.
  apply (plain_after_fetch_finish any_error); [| plain_auto | plain_auto].
  apply (plain_after_fetch_finish any_error); [| plain_auto | plain_auto].
  apply (plain_after_fetch_finish any_error); [| plain_auto | plain_auto].
  apply plain_after_fetch_doRefresh.
Qed.

(** ** What a plain program does to the system *)

Lemma fetches_log (e : Event) (s : Sys) :
  is_fetch e = false -> fetches (log e s) = fetches s.
Proof.
  intros H. unfold fetches, log. cbn. rewrite filter_app. cbn. rewrite H.
  now rewrite app_nil_r.
Qed.

Lemma same_refresh_state_refl (s : Sys) : same_refresh_state s s.
Proof. repeat split. Qed.

Lemma same_refresh_state_trans (s1 s2 s3 : Sys) :
  same_refresh_state s1 s2 -> same_refresh_state s2 s3 -> same_refresh_state s1 s3.
Proof.
  intros (A1 & A2 & A3 & A4) (B1 & B2 & B3 & B4).
  repeat split; congruence.
Qed.

Lemma perform_same {X} (op : Op X) (s : Sys) :
  keeps_marker op -> same_refresh_state s (snd (perform op s)).
Proof.
  destruct op; cbn; intros H; repeat split; auto;
    try (apply fetches_log; reflexivity); apply H.
Qed.

Lemma issue_same {X} (req : IOReq X) (s : Sys) :
  is_fetch_request req = false -> same_refresh_state s (issue req s).
Proof.
  destruct req; cbn; intros H; try discriminate H; repeat split; now apply fetches_log.
Qed.

Lemma respond_same {X} (req : IOReq X) (s : Sys) :
  same_refresh_state s (snd (respond req s)).
Proof.
  destruct req; cbn; try destruct (area_lastError a (platform s)); cbn;
    repeat split; auto.
  unfold fetches. cbn. rewrite filter_app. cbn. now rewrite app_nil_r.
Qed.

Lemma seg_plain {A} (E : Thrown -> Prop) (p : Prog A) :
  plain E p ->
  forall s, same_refresh_state s (snd (seg p s)) /\ plain_outcome E (fst (seg p s)).
Proof.
  induction 1 as [a|e He|X op k Hop Hk IH|X req k Hreq Hk IH|k Hk IH]; intros s; cbn [seg].
  - split; [apply same_refresh_state_refl | exact I].
  - split; [apply same_refresh_state_refl | exact He].
  - pose proof (perform_same op s Hop) as Hs.
    destruct (perform op s) as [x s1]. cbn [snd] in Hs.
    destruct (IH x s1) as [H1 H2]. split; [|exact H2].
    eapply same_refresh_state_trans; eassumption.
  - split; [apply issue_same; exact Hreq | exact Hk].
  - split; [apply same_refresh_state_refl | exact Hk].
Qed.

Lemma resume_plain {A} (E : Thrown -> Prop) (b : Blocked A) (s : Sys) :
  plain_blocked E b ->
  exists o s', resume_blocked b s = Some (o, s') /\
               same_refresh_state s s' /\ plain_outcome E o.
Proof.
  destruct b as [X req k|k|q k]; cbn [plain_blocked resume_blocked]; intros Hb.
  - pose proof (respond_same req s) as Hs.
    destruct (respond req s) as [x s1]. cbn [snd] in Hs.
    destruct (seg_plain E (k x) (Hb x) s1) as [H1 H2].
    destruct (seg (k x) s1) as [o s2]. exists o, s2.
    split; [reflexivity|]. split; [|exact H2].
    eapply same_refresh_state_trans; eassumption.
  - destruct (seg_plain E k Hb s) as [H1 H2].
    destruct (seg k s) as [o s2]. exists o, s2. auto.
  - elim Hb.
Qed.

(** ** Promises *)

Lemma settled_at_length (q : Promise) (st : PromiseState) (ps : list PromiseState) :
  (q < List.length ps)%nat -> List.length (settled_at q st ps) = List.length ps.
Proof.
  unfold settled_at. revert q.
  induction ps as [|x ps IH]; intros q Hq; cbn in Hq; [lia|].
  destruct q as [|q]; cbn; rewrite ?skipn_O; [reflexivity|].
  f_equal. apply IH. lia.
Qed.

Lemma settled_at_same (q : Promise) (st : PromiseState) (ps : list PromiseState) :
  (q < List.length ps)%nat -> nth q (settled_at q st ps) Pending = st.
Proof.
  unfold settled_at. revert q.
  induction ps as [|x ps IH]; intros q Hq; cbn in Hq; [lia|].
  destruct q as [|q]; cbn; [reflexivity|]. apply IH. lia.
Qed.

Lemma settled_at_other (p q : Promise) (st : PromiseState) (ps : list PromiseState) :
  (p < List.length ps)%nat -> p <> q ->
  nth p (settled_at q st ps) Pending = nth p ps Pending.
Proof.
  unfold settled_at. revert p q.
  induction ps as [|x ps IH]; intros p q Hp Hpq; cbn in Hp; [lia|].
  destruct q as [|q], p as [|p]; cbn; rewrite ?skipn_O; try reflexivity; try congruence.
  apply IH; [lia | congruence].
Qed.

Lemma settled_at_fresh (st x : PromiseState) (ps rest : list PromiseState) :
  settled_at (List.length ps) st (ps ++ x :: rest) = ps ++ st :: rest.
Proof.
  unfold settled_at.
  replace (firstn (List.length ps) (ps ++ x :: rest)) with ps
    by (induction ps; cbn; congruence).
  replace (skipn (S (List.length ps)) (ps ++ x :: rest)) with rest
    by (induction ps; cbn in *; auto).
  reflexivity.
Qed.

(** ** Lists of pending calls *)

Lemma incl_remove_nth {A} (i : nat) (xs : list A) : incl (remove_nth i xs) xs.
Proof.
  revert i. induction xs as [|x xs IH]; intros i; destruct i; cbn.
  - apply incl_refl.
  - apply incl_refl.
  - apply incl_tl, incl_refl.
  - intros y [Hy|Hy]; [now left | right; exact (IH i y Hy)].
Qed.

Lemma Forall_incl {A} (P : A -> Prop) (xs ys : list A) :
  incl xs ys -> Forall P ys -> Forall P xs.
Proof. intros Hi Hy. rewrite Forall_forall in *. auto. Qed.

Lemma nth_error_middle {A} (ws1 ws2 : list A) (t0 t : A) (i : nat) :
  nth_error (ws1 ++ t0 :: ws2) i = Some t ->
  (i = List.length ws1 /\ t = t0 /\ remove_nth i (ws1 ++ t0 :: ws2) = ws1 ++ ws2) \/
  (exists ws1' ws2',
     remove_nth i (ws1 ++ t0 :: ws2) = ws1' ++ t0 :: ws2' /\
     In t (ws1 ++ ws2) /\ incl ws1' ws1 /\ incl ws2' ws2).
Proof.
  revert i. induction ws1 as [|a ws1 IH]; intros i Hi.
  - destruct i as [|i]; cbn in Hi.
    + left. injection Hi as <-. auto.
    + right. exists [], (remove_nth i ws2). cbn.
      repeat split; [eapply nth_error_In; eassumption | apply incl_refl | apply incl_remove_nth].
  - destruct i as [|i]; cbn in Hi.
    + right. injection Hi as <-. exists ws1, ws2. cbn.
      repeat split; [now left | apply incl_tl, incl_refl | apply incl_refl].
    + destruct (IH i Hi) as [(H1 & H2 & H3)|(ws1' & ws2' & H1 & H2 & H3 & H4)].
      * left. cbn. rewrite H3. subst. auto.
      * right. exists (a :: ws1'), ws2'. cbn. rewrite H1.
        repeat split; [now right | | exact H4].
        intros y [Hy|Hy]; [now left | right; exact (H3 y Hy)].
Qed.

Lemma waiter_is_join (t : Task) : waiter t -> is_join t = true.
Proof. intros (q & k & H & _). unfold is_join. now rewrite H. Qed.

Lemma refresh_job_is_not_join (p : Promise) (b : Blocked unit) :
  plain_blocked no_error b -> is_join (refresh_job p b) = false.
Proof. destruct b; cbn; intros H; [reflexivity | reflexivity | elim H]. Qed.

Lemma first_running_middle (ws1 ws2 : list Task) (t : Task) :
  Forall waiter ws1 -> is_join t = false ->
  first_running (ws1 ++ t :: ws2) = List.length ws1.
Proof.
  intros Hw Ht. induction Hw as [|w ws1 Hw _ IH]; cbn.
  - now rewrite Ht.
  - rewrite (waiter_is_join w Hw). now rewrite IH.
Qed.

Lemma running_waiters (ws : list Task) :
  Forall waiter ws -> filter (fun t => negb (is_join t)) ws = [].
Proof.
  induction 1 as [|w ws Hw _ IH]; cbn; [reflexivity|].
  now rewrite (waiter_is_join w Hw).
Qed.

(** ** How the marker keeps telling the truth *)

Lemma marker_truth_more_promises (m : option Promise) (ps extra : list PromiseState)
    (ts : list Task) :
  marker_truth m ps ts -> marker_truth m (ps ++ extra) ts.
Proof.
  intros [Hown Hm]. split.
  - eapply Forall_impl; [|exact Hown]. cbn. intros t Ht. rewrite length_app. lia.
  - destruct m as [p|]; [|exact Hm].
    destruct Hm as (Hp & Hpend & Hrest). rewrite length_app.
    split; [lia|]. split; [|exact Hrest]. now rewrite app_nth1.
Qed.

Lemma marker_truth_add_waiter (m : option Promise) (ps : list PromiseState)
    (ts : list Task) (t : Task) :
  marker_truth m ps ts -> waiter t -> (owner t < List.length ps)%nat ->
  (forall p, m = Some p -> owner t <> p) ->
  marker_truth m ps (ts ++ [t]).
Proof.
  intros [Hown Hm] Hw Ht Hne. split.
  - apply Forall_app. split; [exact Hown|]. now constructor.
  - destruct m as [p|].
    + destruct Hm as (Hp & Hpend & ws1 & b & ws2 & Hts & Hb & H1 & H2 & H3).
      split; [exact Hp|]. split; [exact Hpend|].
      exists ws1, b, (ws2 ++ [t]). subst ts. rewrite <- app_assoc. cbn.
      repeat split; auto.
      * apply Forall_app. split; [exact H2|]. now constructor.
      * rewrite app_assoc. apply Forall_app. split; [exact H3|].
        constructor; [|constructor]. now apply Hne.
    + apply Forall_app. split; [exact Hm|]. now constructor.
Qed.

Lemma marker_truth_start (ps : list PromiseState) (ts : list Task) (st : PromiseState)
    (b : Blocked unit) :
  marker_truth None ps ts -> plain_blocked no_error b ->
  marker_truth (Some (S (List.length ps))) (ps ++ [st; Pending])
    (ts ++ [refresh_job (S (List.length ps)) b]).
Proof.
  intros [Hown Hm] Hb. split.
  - apply Forall_app. split.
    + eapply Forall_impl; [|exact Hown]. cbn. intros t Ht. rewrite length_app. lia.
    + constructor; [|constructor]. cbn. rewrite length_app. cbn. lia.
  - rewrite length_app. cbn. split; [lia|]. split.
    + rewrite app_nth2 by lia. replace (S (List.length ps) - List.length ps)%nat with 1%nat by lia.
      reflexivity.
    + exists ts, b, []. repeat split; auto. rewrite app_nil_r.
      eapply Forall_impl; [|exact Hown]. cbn. intros t Ht. lia.
Qed.

Lemma marker_truth_waiter_done (m : option Promise) (ps : list PromiseState)
    (ts : list Task) (i : nat) (t : Task) (st : PromiseState) :
  marker_truth m ps ts -> nth_error ts i = Some t -> is_join t = true ->
  marker_truth m (settled_at (owner t) st ps) (remove_nth i ts).
Proof.
  intros [Hown Hm] Hi Hj.
  assert (Ht : (owner t < List.length ps)%nat).
  { rewrite Forall_forall in Hown. apply Hown. eapply nth_error_In; eassumption. }
  split.
  - rewrite settled_at_length by exact Ht.
    eapply Forall_incl; [apply incl_remove_nth | exact Hown].
  - destruct m as [p|].
    + destruct Hm as (Hp & Hpend & ws1 & b & ws2 & Hts & Hb & H1 & H2 & H3).
      subst ts.
      destruct (nth_error_middle ws1 ws2 _ t i Hi)
        as [(_ & -> & _)|(ws1' & ws2' & Hrm & Hin & Hi1 & Hi2)].
      { rewrite (refresh_job_is_not_join p b Hb) in Hj. discriminate Hj. }
      assert (Hne : owner t <> p).
      { rewrite Forall_forall in H3. now apply H3. }
      rewrite settled_at_length by exact Ht.
      split; [exact Hp|]. split.
      { rewrite settled_at_other by auto. exact Hpend. }
      exists ws1', b, ws2'. rewrite Hrm.
      repeat split; auto.
      * eapply Forall_incl; eassumption.
      * eapply Forall_incl; eassumption.
      * eapply Forall_incl; [|exact H3]. now apply incl_app_app.
    + eapply Forall_incl; [apply incl_remove_nth | exact Hm].
Qed.

Lemma marker_truth_job (p : Promise) (ps : list PromiseState) (ts : list Task)
    (i : nat) (t : Task) :
  marker_truth (Some p) ps ts -> nth_error ts i = Some t -> is_join t = false ->
  exists b, t = refresh_job p b /\ plain_blocked no_error b /\
    (p < List.length ps)%nat /\
    marker_truth None (settled_at p Fulfilled ps) (remove_nth i ts) /\
    forall b', plain_blocked no_error b' ->
               marker_truth (Some p) ps (remove_nth i ts ++ [refresh_job p b']).
Proof.
  intros [Hown (Hp & Hpend & ws1 & b & ws2 & Hts & Hb & H1 & H2 & H3)] Hi Hj. subst ts.
  destruct (nth_error_middle ws1 ws2 _ t i Hi)
    as [(_ & -> & Hrm)|(ws1' & ws2' & Hrm & Hin & Hi1 & Hi2)].
  - exists b. split; [reflexivity|]. split; [exact Hb|]. split; [exact Hp|].
    rewrite Hrm.
    assert (Hown' : Forall (fun t => (owner t < List.length ps)%nat) (ws1 ++ ws2)).
    { apply Forall_app in Hown as [Ha Hc]. apply Forall_app. split; [exact Ha|].
      now inversion Hc. }
    split.
    + split.
      * now rewrite settled_at_length.
      * apply Forall_app. now split.
    + intros b' Hb'. split.
      * apply Forall_app. split; [exact Hown'|]. constructor; [exact Hp | constructor].
      * split; [exact Hp|]. split; [exact Hpend|].
        exists (ws1 ++ ws2), b', []. rewrite app_nil_r.
        repeat split; auto. apply Forall_app. now split.
  - assert (Hw : waiter t).
    { apply in_app_or in Hin as [Hin|Hin]; [rewrite Forall_forall in H1; now apply H1
                                            | rewrite Forall_forall in H2; now apply H2]. }
    rewrite (waiter_is_join t Hw) in Hj. discriminate Hj.
Qed.

Lemma marker_truth_idle_pool (ps : list PromiseState) (ts : list Task) (i : nat) (t : Task) :
  marker_truth None ps ts -> nth_error ts i = Some t -> is_join t = true.
Proof.
  intros [_ Hm] Hi. apply waiter_is_join.
  rewrite Forall_forall in Hm. apply Hm. eapply nth_error_In; eassumption.
Qed.

Lemma marker_truth_waiter (m : option Promise) (ps : list PromiseState) (ts : list Task)
    (i : nat) (t : Task) :
  marker_truth m ps ts -> nth_error ts i = Some t -> is_join t = true -> waiter t.
Proof.
  intros [_ Hm] Hi Hj. destruct m as [p|].
  - destruct Hm as (_ & _ & ws1 & b & ws2 & -> & Hb & H1 & H2 & _).
    destruct (nth_error_middle ws1 ws2 _ t i Hi) as [(_ & -> & _)|(_ & _ & _ & Hin & _)].
    + rewrite (refresh_job_is_not_join p b Hb) in Hj. discriminate Hj.
    + apply in_app_or in Hin as [Hin|Hin];
        [rewrite Forall_forall in H1; now apply H1 | rewrite Forall_forall in H2; now apply H2].
  - rewrite Forall_forall in Hm. apply Hm. eapply nth_error_In; eassumption.
Qed.

(** ** Calls of [autoSyncRefresh] *)

Lemma seg_autoSyncRefresh_in_flight (s : Sys) (p : Promise) :
  refreshInFlight (client s) = Some p -> seg autoSyncRefresh s = (Done p, s).
Proof. intros H. unfold autoSyncRefresh. cbn. rewrite H. reflexivity. Qed.

(** The job runs up to its request, which it sends. *)
Lemma seg_autoSyncRefresh_job (s : Sys) :
  exists b, plain_blocked no_error b /\
            seg autoSyncRefresh_job s = (Suspended (finally_reset b), log EvFetch s).
Proof.
  destruct plain_after_fetch_job_body as (k & Hk & Hplain).
  exists (BIO FetchStatus k). split; [exact Hplain|].
  unfold autoSyncRefresh_job, try_finally. rewrite Hk. reflexivity.
Qed.

Lemma seg_autoSyncRefresh_idle (s : Sys) :
  refreshInFlight (client s) = None ->
  exists b, plain_blocked no_error b /\
    seg autoSyncRefresh s =
    (Done (List.length (promises s)),
     with_client (set_refreshInFlight (Some (List.length (promises s))))
       (park (List.length (promises s)) (finally_reset b)
          (log EvFetch (with_promises (promises s ++ [Pending]) s)))).
Proof.
  intros H.
  destruct (seg_autoSyncRefresh_job (with_promises (promises s ++ [Pending]) s))
    as (b & Hb & Hseg).
  exists b. split; [exact Hb|].
  unfold autoSyncRefresh, bind, act, spawn. cbn [finish seg perform].
  rewrite H. cbn [finish seg perform]. rewrite Hseg. reflexivity.
Qed.

Lemma start_eq (body : Prog unit) (s : Sys) :
  start body s =
  complete (List.length (promises s)) (seg body (with_promises (promises s ++ [Pending]) s)).
Proof. reflexivity. Qed.

Lemma waiter_await_promise (w p : Promise) : waiter (mkTask w (BJoin p rethrow)).
Proof. exists p, rethrow. split; [reflexivity|]. intros [e|[]] s; cbn; auto. Qed.

Lemma call_refresh_inv (body : Prog unit) (s : Sys) :
  body = void_refresh \/ body = awaited_refresh -> refresh_inv s ->
  refresh_inv (start body s) /\
  fetches (start body s) =
  (fetches s + if is_null (refreshInFlight (client s)) then 1 else 0)%nat.
Proof.
  intros Hbody Hinv. rewrite start_eq. unfold refresh_inv in *.
  set (s1 := with_promises (promises s ++ [Pending]) s).
  destruct (refreshInFlight (client s)) as [p|] eqn:Hm.
  - assert (Hseg : seg autoSyncRefresh s1 = (Done p, s1))
      by (apply seg_autoSyncRefresh_in_flight; exact Hm).
    destruct Hbody as [-> | ->].
    + unfold void_refresh, discard, bind. rewrite seg_finish_outcome, Hseg.
      subst s1. split.
      * cbn [finish_outcome seg complete settle client promises pool with_promises].
        rewrite Hm, settled_at_fresh. now apply marker_truth_more_promises.
      * unfold fetches. cbn. lia.
    + unfold awaited_refresh, bind. rewrite seg_finish_outcome, Hseg.
      subst s1. split.
      * cbn [finish_outcome await_promise seg complete park client promises pool
             with_promises with_pool].
        rewrite Hm. apply marker_truth_add_waiter.
        -- now apply marker_truth_more_promises.
        -- apply waiter_await_promise.
        -- cbn. rewrite length_app. cbn. lia.
        -- intros p' [= <-]. cbn. destruct Hinv as (_ & Hp & _). lia.
      * unfold fetches. cbn. lia.
  - destruct (seg_autoSyncRefresh_idle s1 Hm) as (b & Hb & Hseg).
    assert (Hlen : List.length (promises s1) = S (List.length (promises s)))
      by (unfold s1; cbn; rewrite length_app; cbn; lia).
    assert (Hps : promises s1 ++ [Pending] = promises s ++ [Pending; Pending])
      by (unfold s1; cbn; now rewrite <- app_assoc).
    rewrite Hlen, Hps in Hseg.
    assert (Hc : forall c, refreshInFlight
                             (set_refreshInFlight (Some (S (List.length (promises s)))) c)
                           = Some (S (List.length (promises s)))) by reflexivity.
    destruct Hbody as [-> | ->].
    + unfold void_refresh, discard, bind. rewrite seg_finish_outcome, Hseg.
      subst s1. split.
      * cbn [finish_outcome seg complete settle client promises pool with_promises
             with_pool with_client park log].
        rewrite settled_at_fresh, Hc. now apply marker_truth_start.
      * unfold fetches. cbn. rewrite filter_app, length_app. cbn. lia.
    + unfold awaited_refresh, bind. rewrite seg_finish_outcome, Hseg.
      subst s1. split.
      * cbn [finish_outcome await_promise seg complete client promises pool with_promises
             with_pool with_client park log].
        rewrite Hc. apply marker_truth_add_waiter.
        -- now apply marker_truth_start.
        -- apply waiter_await_promise.
        -- cbn. rewrite length_app. cbn. lia.
        -- intros p' [= <-]. cbn. lia.
      * unfold fetches. cbn. rewrite filter_app, length_app. cbn. lia.
Qed.

(** ** Resumptions *)

Lemma resume_refresh_inv (i : nat) (s s' : Sys) :
  refresh_inv s -> step (Resume i) s = Some s' ->
  refresh_inv s' /\ fetches s' = fetches s.
Proof.
  unfold refresh_inv. intros Hinv Hstep. cbn [step] in Hstep.
  destruct (nth_error (pool s) i) as [t|] eqn:Hi; [|discriminate Hstep].
  set (s0 := with_pool (remove_nth i (pool s)) s) in *.
  destruct (is_join t) eqn:Hj.
  - pose proof (marker_truth_waiter _ _ _ i t Hinv Hi Hj) as (q & k & Hb & Hk).
    rewrite Hb in Hstep. cbn [resume_blocked] in Hstep.
    assert (Hgo : forall r, exists st,
              complete (owner t) (seg (k r) s0) = settle (owner t) st s0).
    { intros r. destruct (Hk r s0) as [H1 H2].
      destruct (seg (k r) s0) as [[a|e|b] sx]; cbn in H1, H2; subst sx;
        [exists Fulfilled | exists (Rejected e) | elim H1]; reflexivity. }
    assert (Hs' : exists st, s' = settle (owner t) st s0).
    { destruct (promise_state q s0); [discriminate Hstep| |];
        injection Hstep as <-; apply Hgo. }
    destruct Hs' as [st ->]. split; [|reflexivity].
    subst s0. cbn [settle client promises pool with_promises with_pool].
    now apply marker_truth_waiter_done.
  - destruct (refreshInFlight (client s)) as [p|] eqn:Hm.
    2:{ rewrite (marker_truth_idle_pool _ _ i t Hinv Hi) in Hj. discriminate Hj. }
    destruct (marker_truth_job p _ _ i t Hinv Hi Hj) as (b & -> & Hb & Hp & Hdone & Hmore).
    cbn [blocked owner refresh_job] in Hstep. unfold finally_reset in Hstep.
    rewrite resume_blocked_finish in Hstep.
    destruct (resume_plain no_error b s0 Hb) as (o & s1 & Hres & (S1 & S2 & S3 & S4) & Ho).
    rewrite Hres in Hstep. cbn [option_map finish_outcome] in Hstep.
    destruct o as [a|e|b'].
    + injection Hstep as <-. unfold reset_marker, bind, act.
      cbn [finish seg perform complete]. split.
      * cbn [settle client promises pool with_promises with_client]. rewrite S3, S4.
        subst s0. cbn [promises pool with_pool]. exact Hdone.
      * transitivity (fetches s1); [reflexivity | rewrite S2; reflexivity].
    + elim Ho.
    + injection Hstep as <-. cbn [complete]. unfold park. split.
      * cbn [client promises pool with_pool]. rewrite S1, S3, S4.
        subst s0. cbn [client promises pool with_pool]. rewrite Hm.
        apply (Hmore b'). exact Ho.
      * transitivity (fetches s1); [reflexivity | rewrite S2; reflexivity].
Qed.

Lemma step_refresh_inv (l : Label) (s s' : Sys) :
  refresh_label l -> refresh_inv s -> step l s = Some s' ->
  refresh_inv s' /\
  fetches s' =
  (fetches s + if (is_call l && is_null (refreshInFlight (client s)))%bool then 1 else 0)%nat.
Proof.
  intros Hl Hinv Hstep. destruct l; cbn [refresh_label] in Hl;
    try (exfalso; exact Hl); cbn [step] in Hstep.
  - destruct (resume_refresh_inv i s s' Hinv Hstep) as [H1 H2].
    split; [exact H1|]. cbn [is_call andb]. lia.
  - injection Hstep as <-. exact (call_refresh_inv body s Hl Hinv).
  - injection Hstep as <-. split; [exact Hinv|]. unfold fetches. cbn. lia.
Qed.

Lemma steps_refresh_inv (ls : list Label) (s s' : Sys) :
  Forall refresh_label ls -> refresh_inv s -> steps ls s = Some s' ->
  refresh_inv s' /\ fetches s' = (fetches s + started ls s)%nat.
Proof.
  intros Hls. revert s. induction Hls as [|l ls Hl _ IH]; intros s Hinv Hsteps; cbn in *.
  - injection Hsteps as <-. split; [exact Hinv | lia].
  - destruct (step l s) as [s1|] eqn:Hstep; [|discriminate Hsteps].
    destruct (step_refresh_inv l s s1 Hl Hinv Hstep) as [H1 H2].
    destruct (IH s1 H1 Hsteps) as [H3 H4]. split; [exact H3|]. lia.
Qed.

(** ** The job ends, and resets the marker *)

Lemma remove_nth_middle {A} (ws1 ws2 : list A) (t : A) :
  remove_nth (List.length ws1) (ws1 ++ t :: ws2) = ws1 ++ ws2.
Proof. induction ws1 as [|a ws1 IH]; cbn; [reflexivity | now rewrite IH]. Qed.

Lemma nth_error_at_middle {A} (ws1 ws2 : list A) (t : A) :
  nth_error (ws1 ++ t :: ws2) (List.length ws1) = Some t.
Proof. induction ws1 as [|a ws1 IH]; cbn; [reflexivity | exact IH]. Qed.

(** One round of [drive] resumes the job. *)
Lemma drive_step (outs : nat -> Platform -> Platform) (n i : nat) (s : Sys) (p : Promise)
    (b : Blocked unit) (ws1 ws2 : list Task) :
  pool s = ws1 ++ refresh_job p b :: ws2 -> Forall waiter ws1 ->
  plain_blocked no_error b ->
  drive outs (S n) i s =
  match resume_blocked (finally_reset b)
          (with_pool (ws1 ++ ws2) (with_platform (outs i) s)) with
  | Some o => drive outs n (S i) (complete p o)
  | None => None
  end.
Proof.
  intros Hpool Hw Hb. cbn [drive step].
  change (pool (with_platform (outs i) s)) with (pool s). rewrite Hpool.
  rewrite (first_running_middle ws1 ws2 _ Hw (refresh_job_is_not_join p b Hb)).
  rewrite nth_error_at_middle, remove_nth_middle. cbn [blocked owner refresh_job].
  destruct (resume_blocked (finally_reset b) _); reflexivity.
Qed.

Lemma drive_job (outs : nat -> Platform -> Platform) (q : Prog unit) :
  plain no_error q ->
  forall (s : Sys) (i : nat) (p : Promise),
    (p < List.length (promises s))%nat -> Forall waiter (pool s) ->
    exists n s',
      drive outs n i
        (complete p (seg (finish q (fun a => reset_marker ;; Ret a)
                                   (fun e => reset_marker ;; Throw e)) s)) = Some s' /\
      refreshInFlight (client s') = None /\
      promise_state p s' = Fulfilled /\
      fetches s' = fetches s.
Proof.
  induction 1 as [a|e He|X op k Hop Hk IH|X req k Hreq Hk IH|k Hk IH]; intros s i p Hp Hw.
  - exists 0%nat. eexists. split; [reflexivity|].
    unfold reset_marker, bind, act. cbn [finish seg perform complete].
    split; [reflexivity|]. split; [|reflexivity].
    unfold promise_state. cbn [settle promises with_promises with_client].
    now apply settled_at_same.
  - elim He.
  - cbn [finish seg].
    pose proof (perform_same op s Hop) as (_ & S2 & S3 & S4).
    destruct (perform op s) as [x s1]. cbn [snd] in S2, S3, S4.
    destruct (IH x s1 i p) as (n & s' & H1 & H2 & H3 & H4).
    + now rewrite S3.
    + now rewrite S4.
    + exists n, s'. repeat split; auto. congruence.
  - cbn [finish seg complete].
    pose proof (issue_same req s Hreq) as (_ & S2 & S3 & S4).
    set (s1 := park p (BIO req (fun x => finish (k x) (fun a => reset_marker ;; Ret a)
                                          (fun e => reset_marker ;; Throw e)))
                 (issue req s)).
    assert (Hpool : pool s1 = pool s ++ refresh_job p (BIO req k) :: [])
      by (subst s1; cbn; now rewrite S4).
    pose proof (fun n => drive_step outs n i s1 p (BIO req k) (pool s) [] Hpool Hw Hk) as Hd.
    cbn [finally_reset finish_blocked resume_blocked] in Hd.
    set (s2 := with_pool (pool s ++ []) (with_platform (outs i) s1)) in Hd.
    pose proof (respond_same req s2) as (_ & R2 & R3 & R4).
    destruct (respond req s2) as [x s3]. cbn [snd] in R2, R3, R4.
    destruct (IH x s3 (S i) p) as (n & s' & H1 & H2 & H3 & H4).
    + rewrite R3. subst s2 s1. cbn. now rewrite S3.
    + rewrite R4. subst s2. cbn. now rewrite app_nil_r.
    + exists (S n), s'. rewrite Hd. repeat split; auto.
      rewrite H4, R2. subst s2 s1. unfold fetches in *. cbn. exact S2.
  - cbn [finish seg complete].
    set (s1 := park p (BTick (finish k (fun a => reset_marker ;; Ret a)
                                (fun e => reset_marker ;; Throw e))) s).
    assert (Hpool : pool s1 = pool s ++ refresh_job p (BTick k) :: []) by reflexivity.
    pose proof (fun n => drive_step outs n i s1 p (BTick k) (pool s) [] Hpool Hw Hk) as Hd.
    cbn [finally_reset finish_blocked resume_blocked] in Hd.
    set (s2 := with_pool (pool s ++ []) (with_platform (outs i) s1)) in Hd.
    destruct (IH s2 (S i) p) as (n & s' & H1 & H2 & H3 & H4).
    + exact Hp.
    + subst s2. cbn. now rewrite app_nil_r.
    + exists (S n), s'. rewrite Hd. repeat split; auto.
Qed.

Lemma drive_from_inv (outs : nat -> Platform -> Platform) (s : Sys) (p : Promise) :
  refresh_inv s -> refreshInFlight (client s) = Some p ->
  exists n s',
    drive outs n 0 s = Some s' /\
    refreshInFlight (client s') = None /\
    promise_state p s' = Fulfilled /\
    fetches s' = fetches s.
Proof.
  unfold refresh_inv. intros Hinv Hm. rewrite Hm in Hinv.
  destruct Hinv as (_ & Hp & _ & ws1 & b & ws2 & Hpool & Hb & H1 & H2 & _).
  pose proof (fun n => drive_step outs n 0 s p b ws1 ws2 Hpool H1 Hb) as Hd.
  set (s2 := with_pool (ws1 ++ ws2) (with_platform (outs 0%nat) s)) in Hd.
  assert (Hw : Forall waiter (pool s2)) by (subst s2; cbn; apply Forall_app; now split).
  destruct b as [X req k|k|q k]; cbn [finally_reset finish_blocked resume_blocked] in Hd.
  - pose proof (respond_same req s2) as (_ & R2 & R3 & R4).
    destruct (respond req s2) as [x s3]. cbn [snd] in R2, R3, R4.
    destruct (drive_job outs (k x) (Hb x) s3 1%nat p) as (n & s' & D1 & D2 & D3 & D4).
    + now rewrite R3.
    + now rewrite R4.
    + exists (S n), s'. rewrite Hd. repeat split; auto. rewrite D4, R2. reflexivity.
  - destruct (drive_job outs k Hb s2 1%nat p Hp Hw) as (n & s' & D1 & D2 & D3 & D4).
    exists (S n), s'. rewrite Hd. repeat split; auto.
  - elim Hb.
Qed.

Lemma running_job (s : Sys) (p : Promise) :
  refresh_inv s -> refreshInFlight (client s) = Some p ->
  exists t, running s = [t] /\ owner t = p.
Proof.
  unfold refresh_inv. intros Hinv Hm. rewrite Hm in Hinv.
  destruct Hinv as (_ & _ & _ & ws1 & b & ws2 & Hpool & Hb & H1 & H2 & _).
  exists (refresh_job p b). split; [|reflexivity].
  unfold running. rewrite Hpool, filter_app. cbn [filter].
  rewrite (refresh_job_is_not_join p b Hb). cbn [negb].
  now rewrite (running_waiters ws1 H1), (running_waiters ws2 H2).
Qed.

Lemma running_idle (s : Sys) :
  refresh_inv s -> refreshInFlight (client s) = None -> running s = [].
Proof.
  unfold refresh_inv. intros Hinv Hm. rewrite Hm in Hinv.
  destruct Hinv as [_ Hw]. now apply running_waiters.
Qed.

(** C5. [autoSyncRefresh] is called - discarded or awaited - at any moments,
    pending calls are resumed in any order, and the platform changes in any
    way in between; the client starts with no refresh in flight.  Then:
    - the number of status requests sent is the number of calls that were
      made while [refreshInFlight] was null: calls made while a refresh is
      in flight send nothing;
    - while [refreshInFlight] is a promise [p], a call returns [p] and
      leaves the system as it is; [p] is pending, and exactly one call is
      under way that does not merely wait for a promise - the job that
      settles [p];
    - that job, resumed, comes to its end whatever the platform answers
      (a status, a rejection, storage failures): at its end
      [refreshInFlight] is null again, [p] is fulfilled, never rejected, and
      no further request has been sent;
    - while [refreshInFlight] is null no such job is under way, and the next
      call sends one request and makes its fresh promise the marker. *)
Theorem autoSyncRefresh_shares_one_refresh (s0 : Sys) (ls : list Label) (s : Sys) :
  refreshInFlight (client s0) = None -> pool s0 = [] ->
  Forall refresh_label ls -> steps ls s0 = Some s ->
  fetches s = (fetches s0 + started ls s0)%nat /\
  match refreshInFlight (client s) with
  | Some p =>
      seg autoSyncRefresh s = (Done p, s) /\
      promise_state p s = Pending /\
      (exists t, running s = [t] /\ owner t = p) /\
      (forall outs : nat -> Platform -> Platform,
         exists n s',
           drive outs n 0 s = Some s' /\
           refreshInFlight (client s') = None /\
           promise_state p s' = Fulfilled /\
           fetches s' = fetches s)
  | None =>
      running s = [] /\
      exists p s1,
        seg autoSyncRefresh s = (Done p, s1) /\
        refreshInFlight (client s1) = Some p /\
        promise_state p s1 = Pending /\
        fetches s1 = S (fetches s)
  end.
Proof.
  intros Hm0 Hpool0 Hls Hsteps.
  assert (Hinv0 : refresh_inv s0).
  { unfold refresh_inv. rewrite Hm0, Hpool0. split; constructor. }
  destruct (steps_refresh_inv ls s0 s Hls Hinv0 Hsteps) as [Hinv Hcount].
  split; [exact Hcount|].
  destruct (refreshInFlight (client s)) as [p|] eqn:Hm.
  - split; [now apply seg_autoSyncRefresh_in_flight|].
    split.
    { unfold refresh_inv in Hinv. rewrite Hm in Hinv. now destruct Hinv as (_ & _ & Hpend & _). }
    split; [now apply running_job|].
    intros outs. now apply drive_from_inv.
  - split; [now apply running_idle|].
    destruct (seg_autoSyncRefresh_idle s Hm) as (b & Hb & Hseg).
    eexists. eexists. split; [exact Hseg|].
    split; [reflexivity|]. split.
    + unfold promise_state. cbn. rewrite app_nth2 by lia. now rewrite Nat.sub_diag.
    + unfold fetches. cbn. rewrite filter_app, length_app. cbn. lia.
Qed.

Lemma autoSyncRefresh_shares_one_refresh_witness :
  refreshInFlight (client (boot failing_platform)) = None /\
  pool (boot failing_platform) = [] /\
  Forall refresh_label overlapping_calls /\
  steps overlapping_calls (boot failing_platform) = Some after_overlapping_calls /\
  fetches after_overlapping_calls =
  (fetches (boot failing_platform) + started overlapping_calls (boot failing_platform))%nat.
Proof.
  assert (Hm : refreshInFlight (client (boot failing_platform)) = None) by reflexivity.
  assert (Hpool : pool (boot failing_platform) = []) by reflexivity.
  assert (Hls : Forall refresh_label overlapping_calls).
  { unfold overlapping_calls.
    constructor; [left; reflexivity|].
    constructor; [right; reflexivity|].
    constructor; [left; reflexivity|]. constructor. }
  assert (Hsteps : steps overlapping_calls (boot failing_platform) = Some after_overlapping_calls)
    by reflexivity.
  split; [exact Hm|]. split; [exact Hpool|]. split; [exact Hls|]. split; [exact Hsteps|].
  exact (proj1 (autoSyncRefresh_shares_one_refresh _ _ _ Hm Hpool Hls Hsteps)).
Defined.

(** Three overlapping calls to a failing billing API send one request, and
    the failure leaves no marker behind: once the job has run, the next call
    starts a new refresh. *)
Example overlapping_calls_send_one_request :
  fetches after_overlapping_calls = 1%nat /\
  refreshInFlight (client after_overlapping_calls) = Some 1%nat /\
  drive (fun _ pf => pf) 4 0 after_overlapping_calls = Some after_failed_refresh /\
  refreshInFlight (client after_failed_refresh) = None /\
  promise_state 1%nat after_failed_refresh = Fulfilled /\
  fetches after_failed_refresh = 1%nat /\
  fetches (start void_refresh after_failed_refresh) = 2%nat.
Proof.
  split; [vm_compute; reflexivity|]. split; [vm_compute; reflexivity|].
  split.
  { unfold after_failed_refresh.
    destruct (drive (fun _ pf => pf) 4 0 after_overlapping_calls) eqn:H;
      [reflexivity | vm_compute in H; discriminate H]. }
  split; [vm_compute; reflexivity|]. split; [vm_compute; reflexivity|].
  split; vm_compute; reflexivity.
Qed.

(* ===================================================================== *)
(** * More on the diff engine ([core/diff.ts]) *)
(* ===================================================================== *)

Lemma same_plan_refl (p : JsOpt UserPlan) : same_plan p p.
Proof. destruct p; cbn; auto. Qed.

Lemma same_plan_sym (p q : JsOpt UserPlan) : same_plan p q -> same_plan q p.
Proof. destruct p, q; cbn; intuition congruence. Qed.

Lemma same_plan_trans (p q r : JsOpt UserPlan) :
  same_plan p q -> same_plan q r -> same_plan p r.
Proof. destruct p, q, r; cbn; intuition congruence. Qed.

Lemma same_usage_refl (p : JsOpt UserUsage) : same_usage p p.
Proof. destruct p; cbn; auto. Qed.

Lemma same_usage_sym (p q : JsOpt UserUsage) : same_usage p q -> same_usage q p.
Proof. destruct p, q; cbn; intuition congruence. Qed.

Lemma same_usage_trans (p q r : JsOpt UserUsage) :
  same_usage p q -> same_usage q r -> same_usage p r.
Proof. destruct p, q, r; cbn; intuition congruence. Qed.

Lemma areStatusesEqual_true (a b : UserStatus) :
  areStatusesEqual (Some a) (Some b) = true <-> same_compared_fields a b.
Proof.
  cbn [areStatusesEqual]. rewrite negb_true_iff. apply hasAnyChange_false_iff.
Qed.

(** X1. [areStatusesEqual] is an equivalence on statuses, [null] included:
    every status equals itself, the order of the arguments does not matter,
    and two statuses equal to a third are equal to each other. *)
Theorem areStatusesEqual_is_an_equivalence :
  (forall a, areStatusesEqual a a = true) /\
  (forall a b, areStatusesEqual a b = areStatusesEqual b a) /\
  (forall a b c,
     areStatusesEqual a b = true -> areStatusesEqual b c = true ->
     areStatusesEqual a c = true).
Proof.
  split; [|split].
  - intros [a|]; [|reflexivity]. apply areStatusesEqual_true.
    repeat split; [apply same_plan_refl | apply same_usage_refl].
  - intros [a|] [b|]; try reflexivity.
    apply eq_true_iff_eq. rewrite !areStatusesEqual_true.
    unfold same_compared_fields.
    split; intros (H1 & H2 & H3);
      (split; [congruence | split; [now apply same_plan_sym | now apply same_usage_sym]]).
  - intros [a|] [b|] [c|]; try reflexivity; try discriminate.
    rewrite !areStatusesEqual_true. unfold same_compared_fields.
    intros (H1 & H2 & H3) (K1 & K2 & K3).
    split; [congruence|].
    split; [eapply same_plan_trans | eapply same_usage_trans]; eassumption.
Qed.

Lemma strict_neq_sym {A} (eqb : A -> A -> bool) (x y : JsOpt A) :
  (forall a b, eqb a b = eqb b a) -> strict_neq eqb x y = strict_neq eqb y x.
Proof. intros H. destruct x, y; cbn; try reflexivity. now rewrite H. Qed.

Lemma PlanStatus_eqb_sym (a b : PlanStatus) : PlanStatus_eqb a b = PlanStatus_eqb b a.
Proof. destruct a, b; reflexivity. Qed.

Lemma Bool_eqb_sym (a b : bool) : Bool.eqb a b = Bool.eqb b a.
Proof. destruct a, b; reflexivity. Qed.

(** X2. The diff of two statuses does not depend on which of them is the
    previous one, and it never looks at [extensionUserId]: the three flags
    are the same whatever the two identities are. *)
Theorem computeStatusDiff_is_symmetric_and_ignores_identity (a b : UserStatus) :
  computeStatusDiff (Some a) b = computeStatusDiff (Some b) a /\
  (forall ida idb,
     computeStatusDiff (Some (with_extensionUserId ida a)) (with_extensionUserId idb b) =
     computeStatusDiff (Some a) b) /\
  (forall idb,
     computeStatusDiff None (with_extensionUserId idb b) = computeStatusDiff None b).
Proof.
  split; [|split; reflexivity].
  unfold computeStatusDiff. f_equal.
  - cbn. now rewrite Bool_eqb_sym.
  - unfold computePlanChanged.
    destruct (plan a) as [| |p], (plan b) as [| |q]; try reflexivity.
    rewrite (String.eqb_sym (Plan.id p)), (PlanStatus_eqb_sym (Plan.status p)),
      (strict_neq_sym String.eqb (Plan.nickname p) _ String.eqb_sym),
      (strict_neq_sym String.eqb (Plan.currentPeriodEnd p) _ String.eqb_sym).
    reflexivity.
  - unfold computeUsageChanged.
    destruct (usage a) as [| |p], (usage b) as [| |q]; try reflexivity.
    rewrite (Z.eqb_sym (Usage.used p)),
      (strict_neq_sym Z.eqb (Usage.limit p) _ Z.eqb_sym),
      (strict_neq_sym String.eqb (Usage.resetsAt p) _ String.eqb_sym).
    reflexivity.
Qed.

Lemma bool_true_iff_not_false (x : bool) (P : Prop) :
  (x = false <-> P) -> (x = true <-> ~ P).
Proof.
  intros [H1 H2]. split.
  - intros -> HP. specialize (H2 HP). discriminate.
  - intros H. destruct x; [reflexivity|]. elim H. now apply H1.
Qed.

(** X3. Each flag of a diff against a previous status reports its own
    group of fields and nothing else: [entitlementChanged] is true exactly
    when [paid] differs; [planChanged] exactly when one plan is absent
    ([undefined] or [null], which count as the same) and the other is not,
    or both are present and differ in [id], [nickname], [status] or
    [currentPeriodEnd]; [usageChanged] likewise for [used], [limit] and
    [resetsAt].  So no difference in a compared field goes unreported. *)
Theorem diff_flags_report_exactly_their_fields (prev next : UserStatus) :
  let diff := computeStatusDiff (Some prev) next in
  (entitlementChanged diff = true <-> paid prev <> paid next) /\
  (planChanged diff = true <-> ~ same_plan (plan prev) (plan next)) /\
  (usageChanged diff = true <-> ~ same_usage (usage prev) (usage next)) /\
  (hasAnyChange diff = true <-> ~ same_compared_fields prev next).
Proof.
  cbn zeta. split; [|split; [|split]].
  - cbn. destruct (paid prev), (paid next); cbn; split; intro H;
      try reflexivity; try discriminate; try (now elim H).
  - apply bool_true_iff_not_false, computePlanChanged_false.
  - apply bool_true_iff_not_false, computeUsageChanged_false.
  - apply bool_true_iff_not_false, hasAnyChange_false_iff.
Qed.

(* ===================================================================== *)
(** * More on the typed errors ([core/errors.ts]) *)
(* ===================================================================== *)

Lemma normalizeError_is_typed (e : Thrown) :
  isBillingExtensionsError (normalizeError e) = true.
Proof.
  destruct e as [t m st c ca|name message|str|rendered truthy]; cbn; try reflexivity.
  destruct (String.eqb name "AbortError"); [reflexivity|].
  destruct (String.eqb name "TypeError" && _)%bool; reflexivity.
Qed.

(** X4. [normalizeError] always returns an SDK error; it returns an SDK
    error as it is, so normalizing twice is normalizing once; and anything
    else becomes a [NetworkError] or a [RuntimeError], never one of the
    other three types. *)
Theorem normalizeError_yields_typed_errors (e : Thrown) :
  isBillingExtensionsError (normalizeError e) = true /\
  normalizeError (normalizeError e) = normalizeError e /\
  (isBillingExtensionsError e = true -> normalizeError e = e) /\
  (isBillingExtensionsError e = false ->
   error_type (normalizeError e) = Some NetworkError \/
   error_type (normalizeError e) = Some RuntimeError).
Proof.
  pose proof (normalizeError_is_typed e) as H.
  split; [exact H|]. split; [|split].
  - destruct (normalizeError e); try discriminate H. reflexivity.
  - destruct e; try discriminate. reflexivity.
  - destruct e as [t m st c ca|name message|str|rendered truthy]; cbn; try discriminate; intros _.
    + destruct (String.eqb name "AbortError"); [now left|].
      destruct (String.eqb name "TypeError" && _)%bool; [now left | now right].
    + now right.
    + now right.
Qed.

(* ===================================================================== *)
(** * What the public methods can throw *)
(* ===================================================================== *)

Lemma throws_only_finish {A B} (E : Thrown -> Prop) (p : Prog A) (kr : A -> Prog B)
    (ke : Thrown -> Prog B) :
  (forall a, throws_only E (kr a)) -> (forall e, throws_only E (ke e)) ->
  throws_only E (finish p kr ke).
Proof.
  revert B kr ke.
  induction p as [A a|A e|A X op k IH|A X req k IH|A k IH|A body _ k IH|A q k IH|A kind cb _ k IH];
    intros B kr ke Hr He; cbn [finish].
  - apply Hr.
  - apply He.
  - constructor. intros x. now apply IH.
  - constructor. intros x. now apply IH.
  - constructor. now apply IH.
  - constructor. intros x. now apply IH.
  - constructor. intros x. now apply IH.
  - constructor. intros x. now apply IH.
Qed.

Lemma seg_throws_only {A} (E : Thrown -> Prop) (p : Prog A) :
  throws_only E p -> forall s, throws_only_outcome E (fst (seg p s)).
Proof.
  induction 1 as [a|e He|X op k Hk IH|X req k Hk IH|k Hk IH|body k Hk IH|q k Hk IH
                  |kind cb k Hk IH]; intros s; cbn [seg].
  - exact I.
  - exact He.
  - destruct (perform op s) as [x s1]. apply IH.
  - exact Hk.
  - exact Hk.
  - apply IH.
  - exact Hk.
  - apply IH.
Qed.

Lemma resume_throws_only {A} (E : Thrown -> Prop) (b : Blocked A) (s : Sys)
    (o : Outcome A * Sys) :
  throws_only_blocked E b -> resume_blocked b s = Some o -> throws_only_outcome E (fst o).
Proof.
  destruct b as [X req k|k|q k]; cbn [throws_only_blocked resume_blocked]; intros Hb Hres.
  - destruct (respond req s) as [x s1]. injection Hres as <-. now apply seg_throws_only.
  - injection Hres as <-. now apply seg_throws_only.
  - destruct (promise_state q s); [discriminate Hres| |];
      injection Hres as <-; now apply seg_throws_only.
Qed.

Lemma run_from_throws_only {A} (E : Thrown -> Prop) (others : nat -> Sys -> Sys) (fuel : nat) :
  forall (n : nat) (o : Outcome A * Sys),
    throws_only_outcome E (fst o) ->
    throws_only_outcome E (fst (run_from others fuel n o)).
Proof.
  induction fuel as [|fuel IH]; intros n o Ho; cbn [run_from]; [exact Ho|].
  destruct o as [[a|e|b] s]; try exact Ho.
  destruct (resume_blocked b (others n s)) as [o'|] eqn:Hres; [|exact Ho].
  apply IH. exact (resume_throws_only E b _ o' Ho Hres).
Qed.

Lemma throws_only_getUser (opts : option GetUserOptions) : throws_only sdk_error (getUser opts).
Proof.
  unfold getUser, try_catch. apply throws_only_finish.
  - intros a. constructor.
  - intros e. cbn. repeat (constructor; intros).
    apply normalizeError_is_typed.
Qed.

Lemma throws_only_refresh : throws_only sdk_error refresh.
Proof.
  unfold refresh, try_catch. apply throws_only_finish.
  - intros a. constructor.
  - intros e. constructor. apply normalizeError_is_typed.
Qed.

(** X5. Whatever the platform and the rest of the execution context do,
    and however long it is followed, a [getUser] or [refresh] call that
    rejects rejects with an SDK error ([BillingExtensionsError]), never with
    a foreign value. *)
Theorem getUser_and_refresh_reject_with_typed_errors (others : nat -> Sys -> Sys)
    (fuel : nat) (s : Sys) (e : Thrown) :
  (forall opts,
     fst (run others fuel (getUser opts) s) = Failed e -> isBillingExtensionsError e = true) /\
  (fst (run others fuel refresh s) = Failed e -> isBillingExtensionsError e = true).
Proof.
  split; [intros opts Hrun | intros Hrun].
  - pose proof (run_from_throws_only sdk_error others fuel 0 (seg (getUser opts) s)
                  (seg_throws_only sdk_error _ (throws_only_getUser opts) s)) as H.
    unfold run in Hrun. rewrite Hrun in H. exact H.
  - pose proof (run_from_throws_only sdk_error others fuel 0 (seg refresh s)
                  (seg_throws_only sdk_error _ throws_only_refresh s)) as H.
    unfold run in Hrun. rewrite Hrun in H. exact H.
Qed.

(** With the billing API out of reach, [getUser] rejects with a
    [NetworkError] that keeps the browser's error as its cause. *)
Example getUser_unreachable_api :
  fst (run nobody 24 (getUser None) (boot unreachable_api_platform)) =
  Failed (createNetworkError "Failed to fetch" (Some (JsError "TypeError" "Failed to fetch"))).
Proof. vm_compute. reflexivity. Qed.

(* ===================================================================== *)
(** * Best-effort storage never fails *)
(* ===================================================================== *)

(** A plain program comes to its end, whatever happens around it. *)
Lemma plain_run_from {A} (E : Thrown -> Prop) (others : nat -> Sys -> Sys) (p : Prog A) :
  plain E p ->
  forall (n : nat) (s : Sys),
    exists fuel, settled (fst (run_from others fuel n (seg p s))) /\
                 plain_outcome E (fst (run_from others fuel n (seg p s))).
Proof.
  induction 1 as [a|e He|X op k Hop Hk IH|X req k Hreq Hk IH|k Hk IH]; intros n s; cbn [seg].
  - exists 0%nat. cbn. auto.
  - exists 0%nat. cbn. auto.
  - destruct (perform op s) as [x s1]. apply IH.
  - destruct (respond req (others n (issue req s))) as [x s1] eqn:Hres.
    destruct (IH x (S n) s1) as (fuel & H1 & H2).
    exists (S fuel). cbn [run_from resume_blocked]. rewrite Hres. auto.
  - destruct (IH (S n) (others n s)) as (fuel & H1 & H2).
    exists (S fuel). cbn [run_from resume_blocked]. auto.
Qed.

Lemma plain_run_done {A} (others : nat -> Sys -> Sys) (p : Prog A) (s : Sys) :
  plain no_error p ->
  exists fuel a, forall fuel', (fuel <= fuel')%nat -> fst (run others fuel' p s) = Done a.
Proof.
  intros Hp. destruct (plain_run_from no_error others p Hp 0 s) as (fuel & H1 & H2).
  destruct (run_from others fuel 0 (seg p s)) as [[a|e|b] s1] eqn:Hrun; cbn in H1, H2;
    try contradiction.
  exists fuel, a. intros fuel' Hle. unfold run.
  rewrite (run_from_enough others fuel 0 _ _ Hrun I fuel' Hle). reflexivity.
Qed.

Lemma plain_isChromeStorageAvailable_any (E : Thrown -> Prop) : plain E isChromeStorageAvailable.
Proof. unfold isChromeStorageAvailable. plain_auto. Qed.

Lemma plain_isSessionStorageAvailable_any (E : Thrown -> Prop) :
  plain E isSessionStorageAvailable.
Proof. unfold isSessionStorageAvailable. plain_auto. Qed.

Lemma plain_getFromLocalStorage {T} (key : Key T) : plain any_error (getFromLocalStorage key).
Proof.
  unfold getFromLocalStorage. pose proof (plain_isChromeStorageAvailable_any any_error).
  plain_auto.
Qed.

Lemma plain_getFromBestStorage {T} (key : Key T) : plain no_error (getFromBestStorage key).
Proof.
  unfold getFromBestStorage.
  pose proof (plain_isChromeStorageAvailable_any no_error).
  pose proof (plain_isSessionStorageAvailable_any no_error).
  pose proof (plain_getFromLocalStorage key). plain_auto.
Qed.

Lemma plain_setInBestStorage_no_error {T} (key : Key T) (v : T) :
  plain no_error (setInBestStorage key v).
Proof.
  unfold setInBestStorage.
  pose proof (plain_isChromeStorageAvailable_any no_error).
  pose proof (plain_isSessionStorageAvailable_any no_error).
  pose proof (plain_setInLocalStorage key v). plain_auto.
Qed.

(** X6. [getFromBestStorage] and [setInBestStorage] never reject and always
    settle: whichever storage areas exist, whatever each storage call
    answers (a value or [lastError]), and whatever else happens while the
    call is suspended, the read resolves with a value or [undefined] and the
    write resolves. *)
Theorem best_storage_never_rejects {T} (key : Key T) (v : T) (others : nat -> Sys -> Sys)
    (s : Sys) :
  (exists fuel r, forall fuel', (fuel <= fuel')%nat ->
     fst (run others fuel' (getFromBestStorage key) s) = Done r) /\
  (exists fuel, forall fuel', (fuel <= fuel')%nat ->
     fst (run others fuel' (setInBestStorage key v) s) = Done tt).
Proof.
  split.
  - apply plain_run_done, plain_getFromBestStorage.
  - destruct (plain_run_done others (setInBestStorage key v) s
                (plain_setInBestStorage_no_error key v)) as (fuel & [] & H).
    exists fuel. exact H.
Qed.

Lemma plain_loadCachedStatus : plain no_error loadCachedStatus.
Proof.
  unfold loadCachedStatus.
  pose proof (plain_weaken no_error any_error _ (fun e (H : no_error e) => I)
                (plain_getFromBestStorage STATUS_CACHE_KEY)).
  plain_auto.
Qed.

Lemma plain_saveCachedStatus_no_error (st : UserStatus) : plain no_error (saveCachedStatus st).
Proof.
  unfold saveCachedStatus.
  pose proof (fun c => plain_setInBestStorage STATUS_CACHE_KEY c). plain_auto. auto.
Qed.

(** X7. [loadCachedStatus] and [saveCachedStatus] never reject and always
    settle, whatever the storage does: a cache that cannot be read is a
    miss ([null]), a cache that cannot be written is skipped. *)
Theorem status_cache_access_never_rejects (st : UserStatus) (others : nat -> Sys -> Sys)
    (s : Sys) :
  (exists fuel r, forall fuel', (fuel <= fuel')%nat ->
     fst (run others fuel' loadCachedStatus s) = Done r) /\
  (exists fuel, forall fuel', (fuel <= fuel')%nat ->
     fst (run others fuel' (saveCachedStatus st) s) = Done tt).
Proof.
  split.
  - apply plain_run_done, plain_loadCachedStatus.
  - destruct (plain_run_done others (saveCachedStatus st) s
                (plain_saveCachedStatus_no_error st)) as (fuel & [] & H).
    exists fuel. exact H.
Qed.

(* ===================================================================== *)
(** * The storage adapter ([core/storage.ts]) *)
(* ===================================================================== *)

Lemma best_area_usable (p : Platform) :
  best_area p =
  if area_usable SessionArea p then Some SessionArea
  else if area_usable LocalArea p then Some LocalArea else None.
Proof. reflexivity. Qed.

Lemma best_area_store {T} (key : Key T) (v : T) (p : Platform) :
  best_area (store key v p) = best_area p.
Proof.
  unfold store. destruct (best_area p) as [[]|] eqn:H; [| |exact H];
    unfold best_area in *; cbn; exact H.
Qed.

Lemma stored_store {T} (key : Key T) (v : T) (p : Platform) :
  stored key (store key v p) =
  match best_area p with Some _ => Some v | None => None end.
Proof.
  unfold stored. rewrite best_area_store. unfold store.
  destruct (best_area p) as [[]|]; [| |reflexivity]; destruct key; reflexivity.
Qed.

(** X8. A best-effort write followed by a best-effort read of the same key
    gives back the written value in three situations: the session area
    works; the session area does not exist and the local area works; the
    session area exists but every call on it fails, reads and writes alike,
    and the local area works (the value then goes through the local area).
    Where neither area works - each one absent or failing every call - the
    write is dropped without an error, the store is left as it was and the
    read gives [undefined].  (An area works when it exists and its calls
    succeed; an area that fails only some of its calls is not covered.) *)
Theorem best_storage_round_trip {T} (key : Key T) (v : T) (others : nat -> Sys -> Sys)
    (fuel : nat) (s : Sys) :
  steady others -> (8 <= fuel)%nat ->
  let p := platform s in
  let r := run others fuel (setInBestStorage key v ;; getFromBestStorage key) s in
  (session_available (env p) = true -> session_lastError p = None ->
   fst r = Done (Some v)) /\
  (session_available (env p) = false ->
   local_available (env p) = true -> local_lastError p = None ->
   fst r = Done (Some v)) /\
  (forall m,
     session_available (env p) = true -> session_lastError p = Some m ->
     local_available (env p) = true -> local_lastError p = None ->
     fst r = Done (Some v) /\ session_area (platform (snd r)) = session_area p) /\
  (area_down SessionArea p -> area_down LocalArea p ->
   fst r = Done None /\ platform (snd r) = p).
Proof.
  intros Hst Hfuel p r.
  destruct (reaches_setInBestStorage others key v Hst 0 s) as (j & s1 & R1 & J1 & P1 & _).
  destruct (reaches_getFromBestStorage others key Hst j s1) as (j2 & s2 & R2 & J2 & P2 & _).
  pose proof (reaches_bind others _ (fun _ => getFromBestStorage key) s 0 j j2 tt s1 _ R1 R2)
    as R.
  assert (Hrun : r = (Done (stored key (platform s1)), s2)).
  { subst r. unfold run. apply (reaches_run_from others 0 j2 _ _ R I). lia. }
  rewrite Hrun. cbn [fst snd]. rewrite P2, P1, stored_store, best_area_usable. fold p.
  unfold store. rewrite best_area_usable. fold p. unfold area_down, area_usable.
  split; [|split; [|split]].
  - intros Ha He. rewrite Ha, He. reflexivity.
  - intros Ha Hl He. rewrite Ha, Hl, He. reflexivity.
  - intros m Ha He Hl Hle. rewrite Ha, He, Hl, Hle. split; reflexivity.
  - intros [Ha|[Ha [m Hm]]] [Hl|[Hl [m' Hm']]];
      rewrite ?Ha, ?Hl, ?Hm, ?Hm'; cbn; rewrite ?andb_false_r; split; reflexivity.
Qed.

Lemma best_storage_round_trip_witness :
  steady nobody /\ (8 <= 8)%nat /\
  session_available (env broken_session_platform) = true /\
  session_lastError broken_session_platform = Some (Some "quota exceeded") /\
  local_available (env broken_session_platform) = true /\
  local_lastError broken_session_platform = None /\
  fst (run nobody 8 (setInBestStorage LAST_SWR_AT_KEY 4242 ;; getFromBestStorage LAST_SWR_AT_KEY)
         (boot broken_session_platform)) = Done (Some 4242).
Proof.
  assert (Hsteady : steady nobody) by (intros n s; split; reflexivity).
  assert (Hfuel : (8 <= 8)%nat) by apply le_n.
  split; [exact Hsteady|]. split; [exact Hfuel|]. repeat (split; [reflexivity|]).
  exact (proj1 (proj1 (proj2 (proj2 (best_storage_round_trip LAST_SWR_AT_KEY 4242 nobody 8
                  (boot broken_session_platform) Hsteady Hfuel)))
                  (Some "quota exceeded") eq_refl eq_refl eq_refl eq_refl)).
Defined.

(** The round trip is lost when the session area fails the write and
    answers the read: the value is written to the local area and the read
    finds nothing in the session area. *)
Example best_storage_round_trip_lost :
  let r := run (session_recovers_after 1) 8
             (setInBestStorage LAST_SWR_AT_KEY 4242 ;; getFromBestStorage LAST_SWR_AT_KEY)
             (boot broken_session_platform) in
  fst r = Done None /\
  last_swr_at (local_area (platform (snd r))) = Some 4242 /\
  last_swr_at (session_area (platform (snd r))) = None.
Proof. repeat split; vm_compute; reflexivity. Qed.

(** X9. A best-effort write goes to exactly one area: to the session area
    when that is usable, and then the local area is left alone; otherwise
    to the local area when that is usable, and then the session area is left
    alone.  In the area written, the other key keeps its value. *)
Theorem best_storage_writes_one_area {T} (key : Key T) (v : T) (others : nat -> Sys -> Sys)
    (fuel : nat) (s : Sys) :
  steady others -> (4 <= fuel)%nat ->
  let p := platform s in
  let p' := platform (snd (run others fuel (setInBestStorage key v) s)) in
  (area_usable SessionArea p = true ->
   area_get key (session_area p') = Some v /\ local_area p' = local_area p) /\
  (area_usable SessionArea p = false -> area_usable LocalArea p = true ->
   area_get key (local_area p') = Some v /\ session_area p' = session_area p) /\
  (forall a, key_name key = key_name STATUS_CACHE_KEY ->
             last_swr_at (area a p') = last_swr_at (area a p)) /\
  (forall a, key_name key = key_name LAST_SWR_AT_KEY ->
             status_cache (area a p') = status_cache (area a p)).
Proof.
  intros Hst Hfuel p p'.
  destruct (reaches_setInBestStorage others key v Hst 0 s) as (j & s1 & R1 & J1 & P1 & _).
  assert (Hrun : run others fuel (setInBestStorage key v) s = (Done tt, s1)).
  { unfold run. apply (reaches_run_from others 0 j _ _ R1 I). lia. }
  subst p'. rewrite Hrun. cbn [snd]. rewrite P1. subst p.
  unfold store. rewrite best_area_usable.
  split; [|split; [|split]].
  - intros H1. rewrite H1. destruct key; split; reflexivity.
  - intros H1 H2. rewrite H1, H2. destruct key; split; reflexivity.
  - intros a Hk. destruct key; [|discriminate Hk].
    destruct (area_usable SessionArea (platform s)); [destruct a; reflexivity|].
    destruct (area_usable LocalArea (platform s)); destruct a; reflexivity.
  - intros a Hk. destruct key; [discriminate Hk|].
    destruct (area_usable SessionArea (platform s)); [destruct a; reflexivity|].
    destruct (area_usable LocalArea (platform s)); destruct a; reflexivity.
Qed.

Lemma best_storage_writes_one_area_witness :
  steady nobody /\ (4 <= 4)%nat /\
  area_usable SessionArea broken_session_platform = false /\
  area_usable LocalArea broken_session_platform = true /\
  let p' := platform (snd (run nobody 4 (setInBestStorage LAST_SWR_AT_KEY 4242)
                             (boot broken_session_platform))) in
  area_get LAST_SWR_AT_KEY (local_area p') = Some 4242 /\
  session_area p' = session_area broken_session_platform.
Proof.
  assert (Hsteady : steady nobody) by (intros n s; split; reflexivity).
  assert (Hfuel : (4 <= 4)%nat) by apply le_n.
  assert (H1 : area_usable SessionArea broken_session_platform = false) by reflexivity.
  assert (H2 : area_usable LocalArea broken_session_platform = true) by reflexivity.
  split; [exact Hsteady|]. split; [exact Hfuel|]. split; [exact H1|]. split; [exact H2|].
  exact (proj1 (proj2 (best_storage_writes_one_area LAST_SWR_AT_KEY 4242 nobody 4
                         (boot broken_session_platform) Hsteady Hfuel)) H1 H2).
Defined.

(** X10. A strict local read answers from the local area alone and never
    writes.  Where [chrome.storage.local] exists and the call succeeds it
    resolves with the value the local area holds for the key ([undefined]
    when it holds none), whatever the session area holds; where the call
    reports [lastError] it rejects with a [RuntimeError] carrying that
    message, or [Storage read failed] when there is none; where
    [chrome.storage.local] does not exist it rejects on the spot with a
    [RuntimeError], before any storage call is made.  In each case the
    store is left as it was. *)
Theorem getFromLocalStorage_reads_or_rejects {T} (key : Key T)
    (others : nat -> Sys -> Sys) (fuel : nat) (s : Sys) :
  steady others -> (1 <= fuel)%nat ->
  let p := platform s in
  let r := run others fuel (getFromLocalStorage key) s in
  platform (snd r) = p /\
  (local_available (env p) = true -> local_lastError p = None ->
   fst r = Done (area_get key (local_area p))) /\
  (forall m,
     local_available (env p) = true -> local_lastError p = Some m ->
     fst r = Failed (createRuntimeError (or_else m "Storage read failed") None)) /\
  (local_available (env p) = false ->
   seg (getFromLocalStorage key) s =
   (Failed (createRuntimeError "chrome.storage.local is not available" None), s)).
Proof.
  intros Hst Hfuel p r.
  assert (Hp : forall n s, platform (others n s) = platform s) by (intros; apply Hst).
  assert (Hr : exists j r', reaches others 0 (seg (getFromLocalStorage key) s) j r' /\
                            (j <= 1)%nat /\ settled (fst r') /\
           platform (snd r') = p /\
           (local_available (env p) = true -> local_lastError p = None ->
            fst r' = Done (area_get key (local_area p))) /\
           (forall m, local_available (env p) = true -> local_lastError p = Some m ->
            fst r' = Failed (createRuntimeError (or_else m "Storage read failed") None))).
  { subst p r. unfold getFromLocalStorage, local_available.
    open_sys s; (eexists; eexists; split; [reach Hp|]);
      (split; [lia|]); (split; [exact I|]);
      repeat progress (cbn; rewrite ?Hp);
      (split; [reflexivity|]);
      (split; [intros H1 H2; first [discriminate H1 | discriminate H2 | reflexivity]
              |intros m H1 H2; first [discriminate H1 | discriminate H2
                                     | injection H2 as <-; reflexivity]]). }
  destruct Hr as (j & r' & R & J & Hs & H0 & H1 & H2).
  assert (Hrun : r = r').
  { subst r. unfold run. apply (reaches_run_from others 0 j _ _ R Hs). lia. }
  rewrite Hrun. split; [exact H0|]. split; [exact H1|]. split; [exact H2|].
  intros Hl. unfold getFromLocalStorage. rewrite seg_bind.
  change (seg isChromeStorageAvailable s)
    with (@Done bool (local_available (env (platform s))), s).
  subst p. rewrite Hl. reflexivity.
Qed.

Lemma getFromLocalStorage_reads_or_rejects_witness :
  steady nobody /\ (1 <= 1)%nat /\
  local_available (env broken_session_platform) = true /\
  local_lastError broken_session_platform = None /\
  fst (run nobody 1 (getFromLocalStorage LAST_SWR_AT_KEY) (boot broken_session_platform))
    = Done (Some 4000).
Proof.
  assert (Hsteady : steady nobody) by (intros n s; split; reflexivity).
  assert (Hfuel : (1 <= 1)%nat) by apply le_n.
  split; [exact Hsteady|]. split; [exact Hfuel|]. repeat (split; [reflexivity|]).
  exact (proj1 (proj2 (getFromLocalStorage_reads_or_rejects LAST_SWR_AT_KEY nobody 1
                         (boot broken_session_platform) Hsteady Hfuel)) eq_refl eq_refl).
Defined.

(** X11. A strict local write is all or nothing.  Where [chrome.storage.local]
    exists and the call succeeds, the write resolves, the local area holds
    the value and the session area is as before.  Otherwise it rejects and
    the whole store is as before; in particular, where
    [chrome.storage.local] does not exist it rejects on the spot, before any
    storage call is made. *)
Theorem setInLocalStorage_is_all_or_nothing {T} (key : Key T) (v : T)
    (others : nat -> Sys -> Sys) (fuel : nat) (s : Sys) :
  steady others -> (1 <= fuel)%nat ->
  let p := platform s in
  let r := run others fuel (setInLocalStorage key v) s in
  (area_usable LocalArea p = true ->
   fst r = Done tt /\ area_get key (local_area (platform (snd r))) = Some v /\
   session_area (platform (snd r)) = session_area p) /\
  (area_usable LocalArea p = false ->
   (exists e, fst r = Failed e) /\ platform (snd r) = p) /\
  (local_available (env p) = false ->
   seg (setInLocalStorage key v) s =
   (Failed (createRuntimeError "chrome.storage.local is not available" None), s)).
Proof.
  intros Hst Hfuel p r.
  assert (Hp : forall n s, platform (others n s) = platform s) by (intros; apply Hst).
  assert (Hr : exists j r', reaches others 0 (seg (setInLocalStorage key v) s) j r' /\
                            (j <= 1)%nat /\ settled (fst r') /\
           (area_usable LocalArea p = true ->
            fst r' = Done tt /\ area_get key (local_area (platform (snd r'))) = Some v /\
            session_area (platform (snd r')) = session_area p) /\
           (area_usable LocalArea p = false ->
            (exists e, fst r' = Failed e) /\ platform (snd r') = p)).
  { subst p r. unfold setInLocalStorage, area_usable, local_available.
    open_sys s; (eexists; eexists; split; [reach Hp|]);
      (split; [lia|]); (split; [exact I|]);
      (split;
       [intros H; first [discriminate H
                        | repeat progress (cbn; rewrite ?Hp); destruct key; auto]
       |intros H; first [discriminate H
                        | repeat progress (cbn; rewrite ?Hp);
                          split; [eexists; reflexivity | reflexivity]]]). }
  destruct Hr as (j & r' & R & J & Hs & H1 & H2).
  assert (Hrun : r = r').
  { subst r. unfold run. apply (reaches_run_from others 0 j _ _ R Hs). lia. }
  rewrite Hrun. split; [exact H1|]. split; [exact H2|].
  intros Hl. unfold setInLocalStorage. rewrite seg_bind.
  change (seg isChromeStorageAvailable s)
    with (@Done bool (local_available (env (platform s))), s).
  subst p. rewrite Hl. reflexivity.
Qed.

Lemma setInLocalStorage_is_all_or_nothing_witness :
  steady nobody /\ (1 <= 1)%nat /\
  area_usable LocalArea broken_session_platform = true /\
  fst (run nobody 1 (setInLocalStorage LAST_SWR_AT_KEY 4242) (boot broken_session_platform))
    = Done tt.
Proof.
  assert (Hsteady : steady nobody) by (intros n s; split; reflexivity).
  assert (Hfuel : (1 <= 1)%nat) by apply le_n.
  assert (H1 : area_usable LocalArea broken_session_platform = true) by reflexivity.
  split; [exact Hsteady|]. split; [exact Hfuel|]. split; [exact H1|].
  exact (proj1 (proj1 (setInLocalStorage_is_all_or_nothing LAST_SWR_AT_KEY 4242 nobody 1
                         (boot broken_session_platform) Hsteady Hfuel) H1)).
Defined.

(** X12. The strict session functions do not fall back once the session
    area has been tried: where [chrome.storage.session] exists but its call
    fails, [getFromSessionStorage] and [setInSessionStorage] reject with the
    failure's message (a default text when it has none) and the store is
    left as it was - even when the local area works, which is where
    [getFromBestStorage] then reads from.  Only where
    [chrome.storage.session] does not exist do they behave as the local
    functions. *)
Theorem session_storage_does_not_fall_back {T} (key : Key T) (v : T)
    (others : nat -> Sys -> Sys) (fuel : nat) (s : Sys) :
  steady others -> (4 <= fuel)%nat ->
  let p := platform s in
  (forall m,
     session_available (env p) = true -> session_lastError p = Some m ->
     fst (run others fuel (getFromSessionStorage key) s) =
       Failed (createRuntimeError (or_else m "Storage read failed") None) /\
     fst (run others fuel (setInSessionStorage key v) s) =
       Failed (createRuntimeError (or_else m "Storage write failed") None) /\
     platform (snd (run others fuel (setInSessionStorage key v) s)) = p /\
     fst (run others fuel (getFromBestStorage key) s) =
       Done (if area_usable LocalArea p then area_get key (local_area p) else None)) /\
  (session_available (env p) = false ->
   seg (getFromSessionStorage key) s = seg (getFromLocalStorage key) s /\
   seg (setInSessionStorage key v) s = seg (setInLocalStorage key v) s).
Proof.
  intros Hst Hfuel p.
  assert (Hp : forall n s, platform (others n s) = platform s) by (intros; apply Hst).
  split.
  - intros m Hs Hm.
    assert (Hget : exists s1,
               reaches others 0 (seg (getFromSessionStorage key) s) 1
                 (Failed (createRuntimeError (or_else m "Storage read failed") None), s1)).
    { subst p. unfold getFromSessionStorage, session_available in *.
      open_sys s; cbn in Hs, Hm; try discriminate Hs; try discriminate Hm;
        injection Hm as ->; eexists; reach Hp. }
    assert (Hset : exists s1,
               reaches others 0 (seg (setInSessionStorage key v) s) 1
                 (Failed (createRuntimeError (or_else m "Storage write failed") None), s1) /\
               platform s1 = p).
    { subst p. unfold setInSessionStorage, session_available in *.
      open_sys s; cbn in Hs, Hm; try discriminate Hs; try discriminate Hm;
        injection Hm as ->; eexists; (split; [reach Hp|]);
        repeat progress (cbn; rewrite ?Hp); reflexivity. }
    destruct Hget as (s1 & R1). destruct Hset as (s2 & R2 & P2).
    destruct (reaches_getFromBestStorage others key Hst 0 s) as (j & s3 & R3 & J3 & _).
    unfold run.
    rewrite (reaches_run_from others 0 1 _ _ R1 I fuel) by lia.
    rewrite (reaches_run_from others 0 1 _ _ R2 I fuel) by lia.
    rewrite (reaches_run_from others 0 j _ _ R3 I fuel) by lia.
    cbn [fst snd]. repeat split; [exact P2|].
    unfold stored. rewrite best_area_usable. fold p.
    assert (Hsu : area_usable SessionArea p = false).
    { unfold area_usable. rewrite Hm. apply andb_false_r. }
    rewrite Hsu. destruct (area_usable LocalArea p); reflexivity.
  - intros Hs. unfold getFromSessionStorage, setInSessionStorage. rewrite !seg_bind.
    change (seg isSessionStorageAvailable s)
      with (@Done bool (session_available (env (platform s))), s).
    subst p. rewrite Hs. split; reflexivity.
Qed.

Lemma session_storage_does_not_fall_back_witness :
  steady nobody /\ (4 <= 4)%nat /\
  fst (run nobody 4 (getFromSessionStorage LAST_SWR_AT_KEY) (boot broken_session_platform)) =
    Failed (createRuntimeError "quota exceeded" None) /\
  fst (run nobody 4 (getFromBestStorage LAST_SWR_AT_KEY) (boot broken_session_platform)) =
    Done (Some 4000).
Proof.
  assert (Hsteady : steady nobody) by (intros n s; split; reflexivity).
  assert (Hfuel : (4 <= 4)%nat) by apply le_n.
  split; [exact Hsteady|]. split; [exact Hfuel|].
  destruct (proj1 (session_storage_does_not_fall_back LAST_SWR_AT_KEY 4242 nobody 4
                     (boot broken_session_platform) Hsteady Hfuel)
              (Some "quota exceeded") eq_refl eq_refl) as (H1 & _ & _ & H4).
  split; [exact H1 | exact H4].
Defined.

(* ===================================================================== *)
(** * AutoSync options ([core/autosync.ts]) *)
(* ===================================================================== *)

(** X13. [mergeAutoSyncOptions] changes nothing but the options; merging
    no options changes nothing at all; merging [a] and then [b] is merging
    [{...a, ...b}], so a later option wins and an option that is not given
    stays; and creating a state with options is creating the default state
    and merging them. *)
Theorem mergeAutoSyncOptions_composes (state : AutoSyncState) (a b : AutoSyncOptionsArg) :
  mergeAutoSyncOptions state no_options = state /\
  mergeAutoSyncOptions (mergeAutoSyncOptions state a) b =
    mergeAutoSyncOptions state (overlay_options a b) /\
  createAutoSyncState a = mergeAutoSyncOptions (createAutoSyncState no_options) a /\
  (let merged := mergeAutoSyncOptions state a in
   enabled merged = enabled state /\ activated merged = activated state /\
   lastRefreshAt merged = lastRefreshAt state /\
   debounceTimer merged = debounceTimer state /\
   pendingPostActionRefresh merged = pendingPostActionRefresh state /\
   cleanup merged = cleanup state).
Proof.
  split; [|split; [|split]].
  - destruct state as [en ac [i f o d m] l t pp cl]. reflexivity.
  - unfold mergeAutoSyncOptions, spread_updates, spread_options, overlay_options. cbn.
    destruct b as [[x1|] [x2|] [x3|] [x4|] [x5|]]; reflexivity.
  - reflexivity.
  - repeat split.
Qed.

(* ===================================================================== *)
(** * Subscriptions ([onStatusChanged] and its unsubscribe function) *)
(* ===================================================================== *)

Lemma set_add_In (h h' : Handler) (hs : list Handler) :
  In h (set_add h' hs) <-> h = h' \/ In h hs.
Proof.
  unfold set_add. destruct (existsb (Nat.eqb h') hs) eqn:He.
  - apply existsb_exists in He as (x & Hx & Heq). apply Nat.eqb_eq in Heq. subst x.
    split; [now right | intros [->|H]; assumption].
  - rewrite in_app_iff. cbn. intuition.
Qed.

Lemma set_add_NoDup (h : Handler) (hs : list Handler) : NoDup hs -> NoDup (set_add h hs).
Proof.
  intros Hn. unfold set_add. destruct (existsb (Nat.eqb h) hs) eqn:He; [exact Hn|].
  assert (Hnot : ~ In h hs).
  { intros Hin. rewrite <- Bool.not_true_iff_false in He. apply He.
    apply existsb_exists. exists h. split; [exact Hin | apply Nat.eqb_refl]. }
  clear He. induction Hn as [|x xs Hx Hn IH]; cbn.
  - constructor; [intros [] | constructor].
  - constructor.
    + rewrite in_app_iff. cbn. intros [H|[H|[]]]; [now apply Hx|].
      subst x. apply Hnot. now left.
    + apply IH. intros H. apply Hnot. now right.
Qed.

Lemma set_delete_In (h h' : Handler) (hs : list Handler) :
  In h (set_delete h' hs) <-> h <> h' /\ In h hs.
Proof.
  unfold set_delete. rewrite filter_In, negb_true_iff, Nat.eqb_neq. intuition.
Qed.

Lemma set_delete_NoDup (h : Handler) (hs : list Handler) :
  NoDup hs -> NoDup (set_delete h hs).
Proof. intros Hn. unfold set_delete. now apply NoDup_filter. Qed.

Lemma handlers_after_op (o : HandlerOp) (s : Sys) :
  handlers (client (call (handler_op o) s)) =
  match o with
  | Subscribe h => set_add h (handlers (client s))
  | Unsubscribe h => set_delete h (handlers (client s))
  end.
Proof.
  destruct o as [h|h]; unfold call, handler_op, onStatusChanged, unsubscribe; cbn;
    [|reflexivity].
  destruct (currentStatus (client s)); cbn; [|reflexivity].
  destruct (handler_outcome (platform s) h) as [e|[]]; reflexivity.
Qed.

Lemma mem_In (h : Handler) (hs : list Handler) :
  existsb (Nat.eqb h) hs = true <-> In h hs.
Proof.
  rewrite existsb_exists. split.
  - intros (x & Hx & Heq). apply Nat.eqb_eq in Heq. now subst.
  - intros H. exists h. split; [exact H | apply Nat.eqb_refl].
Qed.

Lemma handlers_after_ops (ops : list HandlerOp) (h : Handler) :
  forall s, NoDup (handlers (client s)) ->
    NoDup (handlers (client (calls (map handler_op ops) s))) /\
    existsb (Nat.eqb h) (handlers (client (calls (map handler_op ops) s))) =
      subscribed ops h (existsb (Nat.eqb h) (handlers (client s))).
Proof.
  induction ops as [|o ops IH]; intros s Hn; [split; [exact Hn | reflexivity]|].
  assert (Hn1 : NoDup (handlers (client (call (handler_op o) s)))).
  { rewrite handlers_after_op. destruct o; [now apply set_add_NoDup | now apply set_delete_NoDup]. }
  destruct (IH (call (handler_op o) s) Hn1) as [H1 H2].
  assert (Hmem : existsb (Nat.eqb h) (handlers (client (call (handler_op o) s))) =
                 match o with
                 | Subscribe h' =>
                     if Nat.eqb h h' then true else existsb (Nat.eqb h) (handlers (client s))
                 | Unsubscribe h' =>
                     if Nat.eqb h h' then false else existsb (Nat.eqb h) (handlers (client s))
                 end).
  { rewrite handlers_after_op. apply eq_true_iff_eq.
    destruct o as [h'|h']; rewrite mem_In.
    - rewrite set_add_In. destruct (Nat.eqb_spec h h') as [->|Hne].
      + intuition.
      + rewrite mem_In. intuition.
    - rewrite set_delete_In. destruct (Nat.eqb_spec h h') as [->|Hne].
      + split; [intros [H _]; now elim H | discriminate].
      + rewrite mem_In. intuition. }
  cbn [map calls fold_left]. fold (calls (map handler_op ops) (call (handler_op o) s)).
  split; [exact H1|]. rewrite H2, Hmem. destruct o; reflexivity.
Qed.

Lemma calls_to_each (h : Handler) (next : UserStatus) (prev : option UserStatus)
    (diff : StatusDiff) (hs : list Handler) :
  NoDup hs ->
  calls_to h (map (fun h' => EvHandler h' next prev diff) hs) =
  (if existsb (Nat.eqb h) hs then 1 else 0)%nat.
Proof.
  unfold calls_to. induction 1 as [|x xs Hx Hn IH]; [reflexivity|].
  cbn [map filter is_call_to existsb]. destruct (Nat.eqb_spec h x) as [->|Hne]; cbn.
  - rewrite IH. destruct (existsb (Nat.eqb x) xs) eqn:He; [|reflexivity].
    apply mem_In in He. contradiction.
  - exact IH.
Qed.

Lemma since_log_all (evs : list Event) (s : Sys) : since s (log_all evs s) = evs.
Proof.
  unfold since, log_all. cbn. rewrite skipn_app, Nat.sub_diag, skipn_all. reflexivity.
Qed.

(** X14. Whether a handler is notified is decided by the last thing done
    with it.  After any sequence of [onStatusChanged] calls and unsubscribe
    calls, a notification (there is no previous status, or the status
    differs from the previous one) calls a handler exactly once if the last
    operation on it was a subscription - however many times it was
    subscribed - and not at all if it was an unsubscription; a handler never
    touched is called iff it was registered before.  This holds whichever
    handlers throw. *)
Theorem subscription_is_decided_by_the_last_operation (ops : list HandlerOp) (s : Sys)
    (h : Handler) (next : UserStatus) (prev : option UserStatus) :
  NoDup (handlers (client s)) ->
  areStatusesEqual prev (Some next) = false ->
  let s1 := calls (map handler_op ops) s in
  NoDup (handlers (client s1)) /\
  fst (seg (notifyHandlers next prev) s1) = Done tt /\
  calls_to h (since s1 (snd (seg (notifyHandlers next prev) s1))) =
    (if subscribed ops h (existsb (Nat.eqb h) (handlers (client s))) then 1 else 0)%nat.
Proof.
  intros Hn Hdiff s1.
  destruct (handlers_after_ops ops h s Hn) as [H1 H2]. fold s1 in H1, H2.
  split; [exact H1|]. rewrite seg_notifyHandlers. cbn [fst snd].
  split; [reflexivity|].
  rewrite since_log_all. unfold notifications.
  assert (Hcond : (negb (is_null prev) && negb (hasAnyChange (computeStatusDiff prev next)))%bool
                  = false).
  { destruct prev as [p|]; [|reflexivity]. cbn in Hdiff. cbn [is_null negb andb].
    exact Hdiff. }
  rewrite Hcond, calls_to_each by exact H1. now rewrite H2.
Qed.

Lemma subscription_is_decided_by_the_last_operation_witness :
  NoDup (handlers (client (boot popup_platform))) /\
  areStatusesEqual None (Some paid_status) = false /\
  let s1 := calls (map handler_op [Subscribe 7%nat; Subscribe 7%nat; Subscribe 8%nat;
                                   Unsubscribe 8%nat]) (boot popup_platform) in
  calls_to 7%nat (since s1 (snd (seg (notifyHandlers paid_status None) s1))) = 1%nat /\
  calls_to 8%nat (since s1 (snd (seg (notifyHandlers paid_status None) s1))) = 0%nat.
Proof.
  assert (Hn : NoDup (handlers (client (boot popup_platform)))) by constructor.
  assert (Hd : areStatusesEqual None (Some paid_status) = false) by reflexivity.
  split; [exact Hn|]. split; [exact Hd|]. split.
  - exact (proj2 (proj2 (subscription_is_decided_by_the_last_operation
             [Subscribe 7%nat; Subscribe 7%nat; Subscribe 8%nat; Unsubscribe 8%nat]
             (boot popup_platform) 7%nat paid_status None Hn Hd))).
  - exact (proj2 (proj2 (subscription_is_decided_by_the_last_operation
             [Subscribe 7%nat; Subscribe 7%nat; Subscribe 8%nat; Unsubscribe 8%nat]
             (boot popup_platform) 8%nat paid_status None Hn Hd))).
Defined.

(* ===================================================================== *)
(** * Events delivered to the client's listeners *)
(* ===================================================================== *)

Lemma dispatch_filter (km : CbKind -> bool) (call : forall r : Registered, option (Prog unit))
    (rs : list Registered) :
  forall s, dispatch km call rs s =
            dispatch km call (filter (fun r => km (reg_kind r)) rs) s.
Proof.
  induction rs as [|r rs IH]; intros s; [reflexivity|].
  cbn [dispatch filter]. destruct (km (reg_kind r)) eqn:Hk.
  - cbn [dispatch]. rewrite Hk. apply IH.
  - apply IH.
Qed.

(** X15. A change event for the status cache key that carries a new value
    - an own write or one made by another execution context - replaces the
    in-memory status, so that the next [getUser] returns the new status on
    the spot, without a request.  A change event that does not concern that
    key, or that reports the entry removed, leaves the client and its trace
    as they were. *)
Theorem storage_change_reaches_memory (s : Sys) (c : Changes) (id : nat) (at_ : Z) :
  storage_listeners s = [the_storage_listener id at_] ->
  exists s',
    step (StorageChanged c) s = Some s' /\
    match change_status_cache c with
    | Some {| oldValue := old; newValue := Some cached |} =>
        currentStatus (client s') = Some (status cached) /\
        seg (getUser None) s' = (Done (status cached), s') /\
        fetches s' = fetches s
    | _ => client s' = client s /\ trace s' = trace s
    end.
Proof.
  intros Hl. eexists. split; [reflexivity|].
  rewrite dispatch_filter. fold (storage_listeners s). rewrite Hl.
  cbn [dispatch the_storage_listener reg_kind is_kind_storage].
  change (call_storage_listener c _) with (Some (storageStatusListener c)).
  cbv beta iota.
  erewrite start_returned by apply seg_storageStatusListener.
  destruct (change_status_cache c) as [[old [cached|]]|]; try (split; reflexivity).
  assert (Hcur : currentStatus
                   (client (settle (List.length (promises s)) Fulfilled
                      (log_all (notifications (status cached) (option_map status old)
                                  (handlers (client (with_promises (promises s ++ [Pending]) s))))
                         (with_client (set_currentStatus (Some (status cached)))
                            (with_promises (promises s ++ [Pending]) s)))))
                 = Some (status cached)) by reflexivity.
  split; [exact Hcur|]. split.
  - apply getUser_from_memory; [reflexivity | exact Hcur].
  - unfold fetches, notifications. cbn [trace settle with_promises log_all with_client].
    rewrite filter_app.
    destruct (negb (is_null (option_map status old)) && _)%bool; cbn [filter];
      [now rewrite app_nil_r|].
    rewrite length_app.
    assert (Hnone : forall hs, filter is_fetch
                      (map (fun h => EvHandler h (status cached) (option_map status old)
                                       (computeStatusDiff (option_map status old) (status cached)))
                           hs) = []).
    { induction hs as [|h hs IH]; [reflexivity | exact IH]. }
    rewrite Hnone. cbn. lia.
Qed.

Lemma storage_change_reaches_memory_witness :
  storage_listeners (created popup_platform) = [the_storage_listener 0 1000] /\
  exists s',
    step (StorageChanged (single_change STATUS_CACHE_KEY None
                            {| status := free_status; fetchedAt := 990 |}))
      (created popup_platform) = Some s' /\
    seg (getUser None) s' = (Done free_status, s').
Proof.
  assert (Hl : storage_listeners (created popup_platform) = [the_storage_listener 0 1000])
    by reflexivity.
  split; [exact Hl|].
  destruct (storage_change_reaches_memory (created popup_platform)
              (single_change STATUS_CACHE_KEY None {| status := free_status; fetchedAt := 990 |})
              0%nat 1000 Hl) as (s' & Hstep & _ & Hget & _).
  exists s'. split; [exact Hstep | exact Hget].
Defined.

Lemma seg_refresh_then {A} (rest : Prog A) (a : A) (evs : list Event) (s1 : Sys) :
  (forall s0, seg rest s0 = (Done a, log_all evs s0)) ->
  exists s2,
    seg (autoSyncRefresh ;; rest) s1 = (Done a, s2) /\
    trace s2 = trace s1 ++ refresh_request s1 ++ evs /\
    refreshInFlight (client s2) <> None.
Proof.
  intros Hrest. rewrite seg_bind. unfold refresh_request.
  destruct (refreshInFlight (client s1)) as [p|] eqn:Hm.
  - rewrite (seg_autoSyncRefresh_in_flight s1 p Hm), Hrest.
    eexists. split; [reflexivity|]. cbn. rewrite Hm. split; [reflexivity | discriminate].
  - destruct (seg_autoSyncRefresh_idle s1 Hm) as (b & Hb & Hseg).
    rewrite Hseg, Hrest.
    eexists. split; [reflexivity|]. cbn. rewrite <- app_assoc.
    split; [reflexivity | discriminate].
Qed.

(** X16. The two background triggers are filtered and de-duplicated.  A
    runtime message whose type is not the checkout-return type gets no
    response and starts nothing; an alarm with another name starts nothing.
    A checkout-return message is answered [{ok: true}] and an alarm with the
    tracking name is honoured, each by one call of [autoSyncRefresh]: one
    request is sent when no refresh is in flight and none when one is, and
    afterwards a refresh is in flight. *)
Theorem background_triggers_are_filtered (s : Sys) (id : nat) (at_ : Z) :
  (message_listeners s = [the_message_listener id at_] ->
   forall m, exists s',
     step (RuntimeMessage m) s = Some s' /\
     if is_checkout_return m
     then trace s' = trace s ++ refresh_request s ++ [EvSendResponse true] /\
          refreshInFlight (client s') <> None
     else trace s' = trace s /\ client s' = client s /\ pool s' = pool s) /\
  (alarm_listeners s = [the_alarm_listener id at_] ->
   forall a, exists s',
     step (AlarmFired a) s = Some s' /\
     if String.eqb (alarm_name a) DEFAULT_BG_ALARM_NAME
     then trace s' = trace s ++ refresh_request s /\
          refreshInFlight (client s') <> None
     else trace s' = trace s /\ client s' = client s /\ pool s' = pool s).
Proof.
  split.
  - intros Hl m. eexists. split; [reflexivity|].
    rewrite dispatch_filter. fold (message_listeners s). rewrite Hl.
    cbn [dispatch the_message_listener reg_kind is_kind_message].
    change (call_message_listener m _) with (Some (discard (checkoutReturnListener m))).
    cbv beta iota.
    unfold is_checkout_return, checkoutReturnListener, discard.
    destruct (msg_type m) as [type|]; [|repeat split].
    destruct (String.eqb type CHECKOUT_RETURN_MESSAGE); [|repeat split].
    rewrite start_eq.
    destruct (seg_refresh_then (act (SendResponse true) ;; Ret true) true [EvSendResponse true]
                (with_promises (promises s ++ [Pending]) s) (fun s0 => eq_refl))
      as (s2 & Hseg & Htrace & Hm).
    rewrite seg_bind, Hseg. cbn [seg complete]. split; [exact Htrace | exact Hm].
  - intros Hl a. eexists. split; [reflexivity|].
    rewrite dispatch_filter. fold (alarm_listeners s). rewrite Hl.
    cbn [dispatch the_alarm_listener reg_kind is_kind_alarm].
    change (call_alarm_listener a _) with (Some (trackingAlarmListener a)).
    cbv beta iota.
    unfold trackingAlarmListener.
    destruct (String.eqb (alarm_name a) DEFAULT_BG_ALARM_NAME); [|repeat split].
    rewrite start_eq.
    destruct (seg_refresh_then (Ret tt) tt []
                (with_promises (promises s ++ [Pending]) s)
                (fun s0 => eq_sym (f_equal (pair (Done tt)) (log_all_nil s0))))
      as (s2 & Hseg & Htrace & Hm).
    rewrite Hseg. cbn [seg complete]. rewrite app_nil_r in Htrace.
    split; [exact Htrace | exact Hm].
Qed.

Lemma background_triggers_are_filtered_witness :
  message_listeners tracking_worker = [the_message_listener 0 1000] /\
  refreshInFlight (client tracking_worker) <> None /\
  exists s',
    step (RuntimeMessage {| msg_type := Some CHECKOUT_RETURN_MESSAGE |}) tracking_worker
      = Some s' /\
    trace s' = trace tracking_worker ++ [EvSendResponse true].
Proof.
  assert (Hl : message_listeners tracking_worker = [the_message_listener 0 1000])
    by reflexivity.
  split; [exact Hl|]. split; [discriminate|].
  destruct (proj1 (background_triggers_are_filtered tracking_worker 0%nat 1000) Hl
              {| msg_type := Some CHECKOUT_RETURN_MESSAGE |}) as (s' & Hstep & Htrace).
  exists s'. split; [exact Hstep|]. exact (proj1 Htrace).
Defined.

(* ===================================================================== *)
(** * The status cache ([loadCachedStatus], [saveCachedStatus]) *)
(* ===================================================================== *)

Lemma fetches_extends (s s1 : Sys) (evs : list Event) :
  trace s1 = trace s ++ evs -> Forall (fun e => is_fetch e = false) evs ->
  fetches s1 = fetches s.
Proof.
  intros Ht Hf. unfold fetches. rewrite Ht, filter_app, (filter_none is_fetch evs Hf).
  now rewrite app_nil_r.
Qed.

Lemma reaches_saveCachedStatus (others : nat -> Sys -> Sys) (st : UserStatus) :
  steady others ->
  forall i s, exists j s1,
    reaches others i (seg (saveCachedStatus st) s) j (Done tt, s1) /\
    (j <= i + 5)%nat /\
    platform s1 =
      store STATUS_CACHE_KEY {| status := st; fetchedAt := clock (platform s) |} (platform s) /\
    fetches s1 = fetches s /\
    (private others -> client s1 = client s).
Proof.
  intros Hst i s.
  destruct (reaches_setInBestStorage others STATUS_CACHE_KEY
              {| status := st; fetchedAt := clock (platform s) |} Hst i s)
    as (j & s1 & R & J & P & (evs & T & W & _) & C).
  exists (S j), (others j s1). split.
  - unfold saveCachedStatus. apply reaches_try_catch.
    rewrite seg_bind. cbn [act seg perform]. apply reaches_await. exact R.
  - split; [lia|]. split; [rewrite (proj1 (Hst j s1)); exact P|].
    split.
    + unfold fetches. rewrite (proj2 (Hst j s1)).
      exact (fetches_extends s s1 evs T (writes_are_no_fetch evs W)).
    + intros Hc. rewrite Hc. now apply C.
Qed.

Lemma reaches_loadCachedStatus (others : nat -> Sys -> Sys) :
  steady others ->
  forall i s, exists j s1,
    reaches others i (seg loadCachedStatus s) j (Done (cache_lookup (platform s)), s1) /\
    (j <= i + 5)%nat /\
    platform s1 = platform s /\
    fetches s1 = fetches s /\
    (private others -> client s1 = client s).
Proof.
  intros Hst i s.
  destruct (reaches_getFromBestStorage others STATUS_CACHE_KEY Hst i s)
    as (j & s1 & R & J & P & (evs & T & G) & C).
  exists (S j), (others j s1).
  assert (P' : platform (others j s1) = platform s) by (rewrite (proj1 (Hst j s1)); exact P).
  split.
  - unfold loadCachedStatus. apply reaches_try_catch.
    eapply reaches_bind; [apply reaches_await; exact R|].
    unfold cache_lookup.
    destruct (stored STATUS_CACHE_KEY (platform s)) as [cached|]; [|apply reaches_here].
    rewrite seg_bind. cbn [act seg perform]. rewrite P'.
    destruct (clock (platform s) - fetchedAt cached >? DEFAULT_CACHE_TTL_MS);
      apply reaches_here.
  - split; [lia|]. split; [exact P'|]. split.
    + unfold fetches. rewrite (proj2 (Hst j s1)).
      exact (fetches_extends s s1 evs T (reads_are_no_fetch evs G)).
    + intros Hc. rewrite Hc. now apply C.
Qed.

Lemma stored_advance_store {T} (key : Key T) (v : T) (d : Z) (p : Platform) :
  stored key (advance_clock d (store key v p)) =
  match best_area p with Some _ => Some v | None => None end.
Proof.
  rewrite <- (stored_store key v p). unfold stored, best_area. reflexivity.
Qed.

Lemma area_down_unusable (a : Area) (p : Platform) :
  area_down a p -> area_usable a p = false.
Proof.
  destruct a; intros [H|[H [m Hm]]]; unfold area_usable; rewrite ?H, ?Hm;
    cbn; rewrite ?andb_false_r; reflexivity.
Qed.

(** X17. The status cache round trip.  Where the session area works, or
    the session area is down (absent, or failing every call, reads and
    writes alike) and the local area works, a status saved with
    [saveCachedStatus] is what [loadCachedStatus] returns [d] milliseconds
    later as long as [d] is at most 30000 - at exactly 30000 the entry still
    counts as fresh - and [null] after that.  Where both areas are down the
    save is skipped without an error and the load is a miss.  (An area works
    when it exists and its calls succeed; an area that fails only some of
    its calls is not covered.) *)
Theorem status_cache_round_trip (st : UserStatus) (others : nat -> Sys -> Sys) (fuel : nat)
    (s : Sys) (d : Z) :
  steady others -> (5 <= fuel)%nat ->
  let p := platform s in
  let saved := snd (run others fuel (saveCachedStatus st) s) in
  let later := with_platform (advance_clock d) saved in
  fst (run others fuel (saveCachedStatus st) s) = Done tt /\
  (area_usable SessionArea p = true \/
   (area_down SessionArea p /\ area_usable LocalArea p = true) ->
   fst (run others fuel loadCachedStatus later) =
     Done (if d >? 30000 then None else Some st)) /\
  (area_down SessionArea p -> area_down LocalArea p ->
   fst (run others fuel loadCachedStatus later) = Done None).
Proof.
  intros Hst Hfuel p saved later.
  destruct (reaches_saveCachedStatus others st Hst 0 s) as (j & s1 & R & J & P & _).
  assert (Hrun : run others fuel (saveCachedStatus st) s = (Done tt, s1)).
  { unfold run. apply (reaches_run_from others 0 j _ _ R I). lia. }
  subst later saved. rewrite Hrun. cbn [fst snd]. split; [reflexivity|].
  destruct (reaches_loadCachedStatus others Hst 0 (with_platform (advance_clock d) s1))
    as (j2 & s2 & R2 & J2 & _).
  unfold run. rewrite (reaches_run_from others 0 j2 _ _ R2 I fuel) by lia.
  cbn [fst]. unfold cache_lookup.
  change (platform (with_platform (advance_clock d) s1)) with (advance_clock d (platform s1)).
  rewrite P, stored_advance_store, best_area_usable. fold p.
  assert (Hage : forall a, best_area p = Some a ->
            clock (advance_clock d (store STATUS_CACHE_KEY
                     {| status := st; fetchedAt := clock p |} p)) - clock p = d).
  { intros a Ha. unfold store. fold p. rewrite Ha. destruct a; cbn; lia. }
  split.
  - intros [Hs|[Hs Hl]].
    + rewrite Hs. cbn [fetchedAt status]. fold p.
      rewrite (Hage SessionArea) by (rewrite best_area_usable, Hs; reflexivity).
      reflexivity.
    + rewrite (area_down_unusable _ _ Hs), Hl. cbn [fetchedAt status]. fold p.
      rewrite (Hage LocalArea)
        by (rewrite best_area_usable, (area_down_unusable _ _ Hs), Hl; reflexivity).
      reflexivity.
  - intros Hs Hl. rewrite (area_down_unusable _ _ Hs), (area_down_unusable _ _ Hl).
    reflexivity.
Qed.

Lemma status_cache_round_trip_witness :
  steady nobody /\ (5 <= 5)%nat /\
  area_usable SessionArea (platform (boot popup_platform)) = true /\
  fst (run nobody 5 loadCachedStatus
         (with_platform (advance_clock 30000)
            (snd (run nobody 5 (saveCachedStatus paid_status) (boot popup_platform)))))
    = Done (Some paid_status) /\
  fst (run nobody 5 loadCachedStatus
         (with_platform (advance_clock 30001)
            (snd (run nobody 5 (saveCachedStatus paid_status) (boot popup_platform)))))
    = Done None.
Proof.
  assert (Hsteady : steady nobody) by (intros n s; split; reflexivity).
  assert (Hfuel : (5 <= 5)%nat) by apply le_n.
  assert (Hs : area_usable SessionArea (platform (boot popup_platform)) = true)
    by reflexivity.
  split; [exact Hsteady|]. split; [exact Hfuel|]. split; [exact Hs|]. split.
  - exact (proj1 (proj2 (status_cache_round_trip paid_status nobody 5 (boot popup_platform)
                           30000 Hsteady Hfuel)) (or_introl Hs)).
  - exact (proj1 (proj2 (status_cache_round_trip paid_status nobody 5 (boot popup_platform)
                           30001 Hsteady Hfuel)) (or_introl Hs)).
Defined.

(* ===================================================================== *)
(** * What [getUser] leaves in memory *)
(* ===================================================================== *)

Lemma reaches_fetchStatus_ok (others : nat -> Sys -> Sys) (st : UserStatus) :
  steady others ->
  forall i s, fetch_outcome (platform s) = inr st ->
    exists s1,
      reaches others i (seg fetchStatus s) (S (S i)) (Done st, s1) /\
      platform s1 = platform s /\
      (private others -> client s1 = client s).
Proof.
  intros Hst i s Hf.
  assert (Hp : forall n s, platform (others n s) = platform s) by (intros; apply Hst).
  exists (others (S i) (others i (log EvFetch s))). split.
  - unfold fetchStatus. eapply reaches_bind; [|apply reaches_here].
    apply reaches_await. cbn [bind io finish seg issue].
    eapply reaches_step; [|apply reaches_here].
    cbn [resume_blocked respond]. rewrite Hp. cbn [platform log]. rewrite Hf. reflexivity.
  - split; [now rewrite !Hp|]. intros Hc. now rewrite !Hc.
Qed.

Lemma reaches_doRefresh_ok (others : nat -> Sys -> Sys) (st : UserStatus) :
  steady others ->
  forall i s, fetch_outcome (platform s) = inr st ->
    exists j s1,
      reaches others i (seg doRefresh s) j (Done st, s1) /\
      (j <= i + 9)%nat /\
      (private others -> currentStatus (client s1) = Some st).
Proof.
  intros Hst i s Hf.
  destruct (reaches_fetchStatus_ok others st Hst i s Hf) as (s1 & R1 & P1 & C1).
  set (s2 := with_client (set_currentStatus (Some st)) (others (S (S i)) s1)).
  destruct (reaches_saveCachedStatus others st Hst (S (S (S i))) s2)
    as (j & s3 & R3 & J3 & _ & _ & C3).
  exists (S j), (others j s3). split.
  - unfold doRefresh. eapply reaches_bind; [apply reaches_await; exact R1|].
    rewrite seg_bind. cbn [act seg perform]. fold s2.
    eapply reaches_bind; [apply reaches_await; exact R3 | apply reaches_here].
  - split; [lia|]. intros Hc. rewrite Hc, C3 by exact Hc. reflexivity.
Qed.

Lemma seg_schedulePaidSWRRevalidate_status (s : Sys) :
  exists s', seg schedulePaidSWRRevalidate s = (Done tt, s') /\
             currentStatus (client s') = currentStatus (client s).
Proof.
  destruct (swrCheckInFlight (client s)) as [p|] eqn:Hswr.
  - exists s. split; [now apply (schedulePaidSWRRevalidate_in_flight s p) | reflexivity].
  - rewrite (schedulePaidSWRRevalidate_starts s Hswr). eexists. split; [reflexivity|].
    unfold schedulePaidSWRRevalidate_job. clear Hswr.
    open_sys s; reflexivity.
Qed.


Lemma reaches_getUser_cache_hit (others : nat -> Sys -> Sys) (opts : option GetUserOptions)
    (s : Sys) (st : UserStatus) :
  steady others -> private others ->
  forceRefresh_is_true opts = false -> currentStatus (client s) = None ->
  cache_lookup (platform s) = Some st ->
  exists j s1,
    reaches others 0 (seg (getUser opts) s) j (Done st, s1) /\ (j <= 6)%nat /\
    currentStatus (client s1) = Some st.
Proof.
  intros Hst Hc Hforce Hcur Hlook.
  destruct (reaches_loadCachedStatus others Hst 0 s) as (j & s1 & R & J & _).
  rewrite Hlook in R.
  set (sB := with_client (set_currentStatus (Some st)) (others j s1)).
  assert (Hnext : exists sC,
             seg (act (SetClient (set_currentStatus (Some st))) ;;
                  (if paid st then schedulePaidSWRRevalidate else Ret tt) ;;
                  Ret (Some st)) (others j s1) = (Done (Some st), sC) /\
             currentStatus (client sC) = Some st).
  { rewrite seg_bind. cbn [act seg perform]. fold sB. rewrite seg_bind.
    destruct (paid st).
    - destruct (seg_schedulePaidSWRRevalidate_status sB) as (sC & Hseg & HcurC).
      rewrite Hseg. exists sC. split; [reflexivity | rewrite HcurC; reflexivity].
    - exists sB. split; reflexivity. }
  destruct Hnext as (sC & Hseg & HcurC).
  exists (S j), sC. split; [|split; [lia | exact HcurC]].
  unfold getUser. apply reaches_try_catch.
  rewrite seg_bind. cbn [act seg perform]. rewrite Hforce, Hcur. cbn [negb].
  eapply reaches_bind;
    [eapply reaches_bind; [apply reaches_await; exact R | cbv beta iota; rewrite Hseg; apply reaches_here]
    |apply reaches_here].
Qed.

Lemma reaches_getUser_network_ok (others : nat -> Sys -> Sys) (opts : option GetUserOptions)
    (s : Sys) (st : UserStatus) :
  steady others -> private others ->
  forceRefresh_is_true opts = true \/
  (currentStatus (client s) = None /\ cache_lookup (platform s) = None) ->
  fetch_outcome (platform s) = inr st ->
  exists j s1,
    reaches others 0 (seg (getUser opts) s) j (Done st, s1) /\ (j <= 16)%nat /\
    currentStatus (client s1) = Some st.
Proof.
  intros Hst Hc Hcase Hf.
  assert (Hp : forall n s, platform (others n s) = platform s) by (intros; apply Hst).
  destruct (forceRefresh_is_true opts) eqn:Hforce.
  - destruct (reaches_doRefresh_ok others st Hst 0 s Hf) as (j & s1 & R & J & C).
    exists (S j), (others j s1). split; [|split; [lia | rewrite Hc; now apply C]].
    unfold getUser. apply reaches_try_catch.
    rewrite seg_bind. cbn [act seg perform]. rewrite Hforce. cbn [negb].
    destruct (currentStatus (client s));
      (eapply reaches_bind; [apply reaches_here|]; apply reaches_await; exact R).
  - destruct Hcase as [Hcase|[Hcur Hlook]]; [discriminate Hcase|].
    destruct (reaches_loadCachedStatus others Hst 0 s) as (j & s1 & R & J & P & _).
    rewrite Hlook in R.
    assert (Hf' : fetch_outcome (platform (others j s1)) = inr st) by (rewrite Hp, P; exact Hf).
    destruct (reaches_doRefresh_ok others st Hst (S j) (others j s1) Hf')
      as (j2 & s2 & R2 & J2 & C2).
    exists (S j2), (others j2 s2). split; [|split; [lia | rewrite Hc; now apply C2]].
    unfold getUser. apply reaches_try_catch.
    rewrite seg_bind. cbn [act seg perform]. rewrite Hforce, Hcur. cbn [negb].
    eapply reaches_bind.
    + eapply reaches_bind; [apply reaches_await; exact R | apply reaches_here].
    + apply reaches_await. exact R2.
Qed.

(** X18. When nothing else assigns the client's variables while the call is
    suspended - no storage change event is delivered to this client and no
    other client call runs in between - and the platform stays as it is,
    whatever [getUser] resolves with is the in-memory status afterwards,
    whether it came from memory, from the persisted cache or from the
    billing API; a later [getUser] without [forceRefresh] then returns the
    same status on the spot: it does not suspend, reads no storage and sends
    no request.  (A change event delivered during the call may leave
    another status in memory; that case is not covered.) *)
Theorem getUser_result_stays_in_memory (others : nat -> Sys -> Sys) (fuel : nat)
    (opts : option GetUserOptions) (s : Sys) (st : UserStatus) :
  steady others -> private others -> (24 <= fuel)%nat ->
  let r := run others fuel (getUser opts) s in
  fst r = Done st ->
  currentStatus (client (snd r)) = Some st /\
  forall opts', forceRefresh_is_true opts' = false ->
                seg (getUser opts') (snd r) = (Done st, snd r).
Proof.
  intros Hst Hc Hfuel r Hdone.
  assert (Hcur : currentStatus (client (snd r)) = Some st).
  { subst r. unfold run in *.
    assert (Hreach : forall j st' s1,
              reaches others 0 (seg (getUser opts) s) j (Done st', s1) -> (j <= 16)%nat ->
              currentStatus (client s1) = Some st' ->
              currentStatus (client (snd (run_from others fuel 0 (seg (getUser opts) s)))) =
              Some st).
    { intros j st' s1 R J C.
      rewrite (reaches_run_from others 0 j _ _ R I fuel) in Hdone |- * by lia.
      cbn [fst snd] in *. injection Hdone as <-. exact C. }
    destruct (forceRefresh_is_true opts) eqn:Hforce.
    - destruct (fetch_outcome (platform s)) as [e|st'] eqn:Hf.
      + destruct (getUser_from_network others opts s Hst (or_introl Hforce)) as (H1 & H2 & _).
        rewrite Hf in H2. unfold run in H1, H2.
        rewrite (run_from_enough others 24 0 _ _ eq_refl H1 fuel Hfuel) in Hdone.
        rewrite H2 in Hdone. discriminate Hdone.
      + destruct (reaches_getUser_network_ok others opts s st' Hst Hc (or_introl Hforce) Hf)
          as (j & s1 & R & J & C).
        exact (Hreach j st' s1 R J C).
    - destruct (currentStatus (client s)) as [current|] eqn:Hcs.
      + pose proof (getUser_from_memory opts s current Hforce Hcs) as Hseg.
        rewrite Hseg in Hdone |- *.
        rewrite run_from_settled in Hdone |- * by exact I.
        cbn [fst snd] in *. injection Hdone as <-. exact Hcs.
      + destruct (cache_lookup (platform s)) as [st0|] eqn:Hlook.
        * destruct (reaches_getUser_cache_hit others opts s st0 Hst Hc Hforce Hcs Hlook)
            as (j & s1 & R & J & C).
          apply (Hreach j st0 s1 R); [lia | exact C].
        * destruct (fetch_outcome (platform s)) as [e|st'] eqn:Hf.
          -- assert (Hstale : forall cached,
                        stored STATUS_CACHE_KEY (platform s) = Some cached ->
                        clock (platform s) - fetchedAt cached > 30000).
             { intros cached Hstored. unfold cache_lookup in Hlook. rewrite Hstored in Hlook.
               unfold DEFAULT_CACHE_TTL_MS in Hlook.
               destruct (Z.gtb_spec (clock (platform s) - fetchedAt cached) 30000);
                 [lia | discriminate Hlook]. }
             destruct (getUser_from_network others opts s Hst
                         (or_intror (conj Hcs Hstale))) as (H1 & H2 & _).
             rewrite Hf in H2. unfold run in H1, H2.
             rewrite (run_from_enough others 24 0 _ _ eq_refl H1 fuel Hfuel) in Hdone.
             rewrite H2 in Hdone. discriminate Hdone.
          -- destruct (reaches_getUser_network_ok others opts s st' Hst Hc
                         (or_intror (conj Hcs Hlook)) Hf) as (j & s1 & R & J & C).
             exact (Hreach j st' s1 R J C). }
  split; [exact Hcur|].
  intros opts' Hforce'. now apply getUser_from_memory.
Qed.

Lemma getUser_result_stays_in_memory_witness :
  steady nobody /\ private nobody /\ (24 <= 24)%nat /\
  fst (run nobody 24 (getUser None) (boot stale_cache_platform)) = Done free_status /\
  currentStatus (client (snd (run nobody 24 (getUser None) (boot stale_cache_platform))))
    = Some free_status.
Proof.
  assert (Hsteady : steady nobody) by (intros n s; split; reflexivity).
  assert (Hprivate : private nobody) by (intros n s; reflexivity).
  assert (Hfuel : (24 <= 24)%nat) by apply le_n.
  assert (Hdone : fst (run nobody 24 (getUser None) (boot stale_cache_platform))
                  = Done free_status) by (vm_compute; reflexivity).
  split; [exact Hsteady|]. split; [exact Hprivate|]. split; [exact Hfuel|].
  split; [exact Hdone|].
  exact (proj1 (getUser_result_stays_in_memory nobody 24 None (boot stale_cache_platform)
                  free_status Hsteady Hprivate Hfuel Hdone)).
Defined.

(** Without that condition the result need not stay: a change event
    delivered after [doRefresh] has assigned [currentStatus] and before the
    call returns leaves the event's status in memory, while the call still
    resolves with the status it fetched. *)
Example getUser_result_replaced_by_a_change_event :
  let r := run (change_arrives_at 8 foreign_write) 24 (getUser None)
             (created stale_cache_platform) in
  fst r = Done free_status /\
  currentStatus (client (snd r)) = Some paid_status.
Proof. split; vm_compute; reflexivity. Qed.

(* ===================================================================== *)
(** * AutoSync's event listeners ([setupAutoSyncListeners]) *)
(* ===================================================================== *)

Lemma activated_page_registered (state : AutoSyncState) (p : Platform) :
  enabled state = true -> activated state = false -> debounceTimer state = None ->
  extension_ui_pageb (env p) = true ->
  platform (activated_page state p) = p /\
  exists timers,
    registered (activated_page state p) = autosync_listeners state (clock p) ++ timers /\
    Forall (fun r => is_kind_timeout (reg_kind r) = true) timers /\
    List.length timers = (if refreshOnInit (options state) then 1 else 0)%nat.
Proof.
  intros He Ha Hd Hui. unfold activated_page, call, activateAutoSync.
  rewrite He, Ha. cbn [negb].
  rewrite seg_bind, seg_isExtensionUiContext. cbn [boot platform]. rewrite Hui. cbn [negb].
  unfold setupAutoSyncListeners.
  rewrite !seg_bind, seg_isExtensionUiContext. cbn [boot platform]. rewrite Hui. cbn [negb].
  unfold autosync_listeners.
  destruct (refreshOnFocus (options state)), (refreshOnOnline (options state)),
    (refreshOnInit (options state));
    cbn -[scheduleRefresh]; rewrite ?seg_scheduleRefresh;
    unfold after_scheduleRefresh; rewrite ?Hd; cbn;
    (split; [reflexivity|]); eexists; (split; [reflexivity|]);
    split; repeat constructor.
Qed.

Lemma start_scheduleRefresh (state : AutoSyncState) (s : Sys) :
  debounceTimer state = None ->
  let s' := start (scheduleRefresh state autoSyncRefresh updateAutoSyncState) s in
  platform s' = platform s /\
  exists timer, is_kind_timeout (reg_kind timer) = true /\
                registered s' = registered s ++ [timer].
Proof.
  intros Hd s'. subst s'.
  erewrite start_returned by apply seg_scheduleRefresh.
  unfold after_scheduleRefresh. rewrite Hd. cbn.
  split; [reflexivity|]. eexists. split; [|reflexivity]. reflexivity.
Qed.

Lemma start_visibility (state : AutoSyncState) (s : Sys) :
  debounceTimer state = None ->
  let s' := start (visibility <- act VisibilityState ;;
                   if String.eqb visibility "visible"
                   then scheduleRefresh state autoSyncRefresh updateAutoSyncState
                   else Ret tt) s in
  platform s' = platform s /\
  exists timers, Forall (fun r => is_kind_timeout (reg_kind r) = true) timers /\
                 registered s' = registered s ++ timers /\
                 List.length timers =
                   (if String.eqb (visibilityState (platform s)) "visible" then 1 else 0)%nat.
Proof.
  intros Hd s'. subst s'. rewrite start_eq, seg_bind. cbn [act seg perform platform with_promises].
  destruct (String.eqb (visibilityState (platform s)) "visible").
  - rewrite seg_scheduleRefresh. unfold after_scheduleRefresh. rewrite Hd. cbn.
    split; [reflexivity|]. eexists. split; [|split; reflexivity]. repeat constructor.
  - cbn. split; [reflexivity|]. exists []. rewrite app_nil_r. repeat split. constructor.
Qed.

Lemma filter_dom_timers (timers : list Registered) :
  Forall (fun r => is_kind_timeout (reg_kind r) = true) timers ->
  filter (fun r => is_kind_dom (reg_kind r)) timers = [].
Proof.
  induction 1 as [|r rs Hr _ IH]; [reflexivity|]. cbn.
  destruct (reg_kind r); try discriminate Hr. exact IH.
Qed.

Lemma count_timers_app (rs timers : list Registered) :
  Forall (fun r => is_kind_timeout (reg_kind r) = true) timers ->
  List.length (filter (fun r => is_kind_timeout (reg_kind r)) (rs ++ timers)) =
  (List.length (filter (fun r => is_kind_timeout (reg_kind r)) rs) + List.length timers)%nat.
Proof.
  intros H. rewrite filter_app, length_app. f_equal.
  induction H as [|r ts Hr _ IH]; [reflexivity|]. cbn. rewrite Hr. cbn. now rewrite IH.
Qed.

Lemma dispatch_autosync_listeners (state : AutoSyncState) (now : Z) (e : AutoSyncEvent)
    (t : Target) (ev : string) (s : Sys) :
  debounceTimer state = None ->
  dom_label e = DomEvent t ev ->
  let s' := dispatch is_kind_dom (call_dom_listener t ev) (autosync_listeners state now) s in
  platform s' = platform s /\
  exists timers,
    Forall (fun r => is_kind_timeout (reg_kind r) = true) timers /\
    registered s' = registered s ++ timers /\
    List.length timers = (if schedules (options state) (platform s) e then 1 else 0)%nat.
Proof.
  intros Hd Hl s'. subst s'.
  pose proof (start_scheduleRefresh state s Hd) as Hs.
  pose proof (start_visibility state s Hd) as Hv.
  cbv zeta in Hs, Hv.
  assert (Hnone : platform s = platform s /\
            exists timers, Forall (fun r => is_kind_timeout (reg_kind r) = true) timers /\
              registered s = registered s ++ timers /\ List.length timers = 0%nat).
  { split; [reflexivity|]. exists []. rewrite app_nil_r. repeat split. constructor. }
  assert (Hone : let s' := start (scheduleRefresh state autoSyncRefresh updateAutoSyncState) s in
            platform s' = platform s /\
            exists timers, Forall (fun r => is_kind_timeout (reg_kind r) = true) timers /\
              registered s' = registered s ++ timers /\ List.length timers = 1%nat).
  { cbv zeta. destruct Hs as [Hp [timer [Hk Hr]]]. split; [exact Hp|].
    exists [timer]. repeat split; [repeat constructor; exact Hk | exact Hr]. }
  cbv zeta in Hone.
  unfold autosync_listeners, schedules.
  destruct e; injection Hl as <- <-;
    destruct (refreshOnFocus (options state)), (refreshOnOnline (options state));
    cbn [dispatch app reg_kind reg_cb is_kind_dom call_dom_listener andb
         String.eqb Ascii.eqb Bool.eqb];
    first [exact Hnone | exact Hone | exact Hv].
Qed.

Lemma autosync_listeners_are_dom (state : AutoSyncState) (now : Z) :
  filter (fun r => is_kind_dom (reg_kind r)) (autosync_listeners state now) =
  autosync_listeners state now /\
  filter (fun r => is_kind_timeout (reg_kind r)) (autosync_listeners state now) = [].
Proof.
  unfold autosync_listeners.
  destruct (refreshOnFocus (options state)), (refreshOnOnline (options state));
    split; reflexivity.
Qed.

Lemma autosync_events_from (state : AutoSyncState) (p : Platform) (evs : list AutoSyncEvent) :
  debounceTimer state = None ->
  forall s timers,
    platform s = p ->
    registered s = autosync_listeners state (clock p) ++ timers ->
    Forall (fun r => is_kind_timeout (reg_kind r) = true) timers ->
    exists s', steps (map dom_label evs) s = Some s' /\
      pending_timers s' =
        (List.length timers + List.length (filter (schedules (options state) p) evs))%nat.
Proof.
  intros Hd. induction evs as [|e evs IH]; intros s timers Hp Hr Ht.
  - exists s. split; [reflexivity|].
    unfold pending_timers, count_registered. rewrite Hr, count_timers_app by exact Ht.
    rewrite (proj2 (autosync_listeners_are_dom state (clock p))). cbn. lia.
  - cbn [map steps].
    assert (Hl : exists t ev, dom_label e = DomEvent t ev) by (destruct e; cbn; eauto).
    destruct Hl as [t [ev Hl]]. rewrite Hl. cbn [step].
    rewrite dispatch_filter, Hr, filter_app, (filter_dom_timers timers Ht), app_nil_r,
      (proj1 (autosync_listeners_are_dom state (clock p))).
    destruct (dispatch_autosync_listeners state (clock p) e t ev s Hd Hl)
      as [Hp' [new [Hnew [Hr' Hlen]]]].
    rewrite Hp in Hlen.
    destruct (IH (dispatch is_kind_dom (call_dom_listener t ev)
                    (autosync_listeners state (clock p)) s) (timers ++ new))
      as [s' [Hsteps Hcount]].
    + rewrite Hp'. exact Hp.
    + rewrite Hr', Hr, app_assoc. reflexivity.
    + apply Forall_app. split; assumption.
    + exists s'. split; [exact Hsteps|]. rewrite Hcount, length_app, Hlen.
      cbn [filter]. destruct (schedules (options state) p e); cbn [List.length]; lia.
Qed.

(** X19. In an activated extension page whose AutoSync state had no timer, every
    [focus] and [online] event with its option on, and every
    [visibilitychange] seen while the document is visible, leaves one more
    timer pending: the listeners read the timer field of the state they
    were installed with, so an event cancels no timer set by an earlier
    one.  A [visibilitychange] while the document is hidden, and an event
    whose option is off, set none. *)
Theorem autosync_events_each_leave_a_timer (state : AutoSyncState) (p : Platform)
    (evs : list AutoSyncEvent) :
  enabled state = true -> activated state = false -> debounceTimer state = None ->
  extension_ui_pageb (env p) = true ->
  exists s',
    steps (map dom_label evs) (activated_page state p) = Some s' /\
    pending_timers s' =
      ((if refreshOnInit (options state) then 1 else 0) +
       List.length (filter (schedules (options state) p) evs))%nat.
Proof.
  intros He Ha Hd Hui.
  destruct (activated_page_registered state p He Ha Hd Hui) as [Hp [timers [Hr [Ht Hlen]]]].
  destruct (autosync_events_from state p evs Hd _ timers Hp Hr Ht) as [s' [Hs Hc]].
  exists s'. split; [exact Hs|]. rewrite Hc, Hlen. reflexivity.
Qed.

Lemma autosync_events_each_leave_a_timer_witness :
  exists s',
    steps (map dom_label [OnFocus; OnOnline; OnVisibilityChange; OnFocus])
      (activated_page (createAutoSyncState no_options) popup_platform) = Some s' /\
    pending_timers s' = 5%nat.
Proof.
  apply (autosync_events_each_leave_a_timer (createAutoSyncState no_options) popup_platform
           [OnFocus; OnOnline; OnVisibilityChange; OnFocus]); reflexivity.
Defined.
